(** * The publish pipeline of the Pub/Sub client (publisher.go)

    A shallow embedding of [Publisher.Publish], [Publisher.Stop],
    [Publisher.Flush], [Publisher.initBundler],
    [Publisher.publishMessageBundle] and [Publisher.ResumePublish], with the
    collaborators they call: the publish scheduler, the flow controller and
    the write-once [PublishResult] handles; and of [Client.Publisher],
    [Client.PublisherInProject], [Publisher.ID], [Publisher.String] and
    the messages of the errors the file declares.

    The Go code mutates one [Publisher] through a pointer and resolves
    handles that callers hold by pointer; here the publisher, the store of
    handles and the log of calls made to collaborators form one explicit
    state, threaded by a small monad whose computations may also panic or
    suspend.  Locks are not modelled: every operation below runs atomically,
    and the interleavings of goroutines appear as sequences of operations.
    Telemetry ([tag.New], [stats.Record], [log.Printf]) does not touch this
    state and is left out. *)

From Stdlib Require Import ZArith Lia Ascii.
From stdpp Require Import base strings gmap list pretty.

#[local] Open Scope Z_scope.

(** ** Errors *)

Inductive error : Type :=
  | ErrTopicStopped                         (* "pubsub: Stop has been called for this topic" *)
  | errTopicOrderingNotEnabled              (* "Topic.EnableMessageOrdering=false, but ..." *)
  | ErrPublishingPaused (OrderingKey : string)
  | ErrOversizedItem                        (* bundler.ErrOversizedItem = ErrOversizedMessage *)
  | ErrSchedulerStopped                     (* Add on a scheduler that was stopped *)
  | ErrCapacityExceeded                     (* flow control, policy Error *)
  | ErrContext (reason : string)            (* ctx.Err() *)
  | ErrRPC (status : string).               (* terminal error of the Publish RPC *)

#[global] Instance error_eq_dec : EqDecision error.
Proof. solve_decision. Defined.

(** ** Messages and handles *)

Record Message := {
  Data : list Byte.byte;
  Attributes : gmap string string;
  OrderingKey : string
}.

(** [pb.PubsubMessage], the wire form built from a [Message]. *)
Record PubsubMessage := {
  pb_Data : list Byte.byte;
  pb_Attributes : gmap string string;
  pb_OrderingKey : string
}.

Record PublishRequest := {
  Topic : string;
  Messages : list PubsubMessage
}.

Record PublishResponse := { MessageIds : list string }.

Inductive rpc_result : Type :=
  | rpc_ok (res : PublishResponse)
  | rpc_err (e : error).

(** Retry policies and call options handed to the RPC layer (gax / grpc).
    [publishRetryer] wraps the retryer configured on the client. *)
Inductive Retryer : Type :=
  | gaxRetryer (id : string)
  | publishRetryer (defaultRetryer : Retryer).

Inductive CallOption : Type :=
  | MaxCallSendMsgSize (n : Z)
  | WithRetry (r : Retryer)
  | UseCompressor (compressor : string)
  | OtherOption (tag : string).

Definition gzip_Name : string := "gzip".

(** A [*PublishResult] is an address ([nat]) in the store of handles. *)

Module ipubsub.

(** Modelled from the spec: package internal/pubsub (PublishResult,
    NewPublishResult, SetPublishResult) is absent from the sources.  A
    handle is a write-once, read-many future: exactly one of
    (server-assigned identifier, error) is set, exactly once. *)
Record PublishResult := {
  ready : bool;
  serverID : string;
  err : option error
}.

(** Modelled from the spec: a handle that is not set yet. *)
Definition pending : PublishResult :=
  {| ready := false; serverID := ""; err := None |}.

(** Modelled from the spec: a handle once it is set. *)
Definition resolved (sid : string) (e : option error) : PublishResult :=
  {| ready := true; serverID := sid; err := e |}.

(** Modelled from the spec: the address of the next handle, one that holds
    no handle yet. *)
Definition fresh (h : gmap nat PublishResult) : nat :=
  fresh (dom h).

(** Modelled from the spec: [NewPublishResult] makes a handle that is not
    set. *)
Definition NewPublishResult (h : gmap nat PublishResult)
  : nat * gmap nat PublishResult :=
  (fresh h, <[fresh h := pending]> h).

(** Modelled from the spec: [SetPublishResult] sets a handle.  A handle is
    set exactly once: a second write is a fault ([None]), as is a write
    through an address that holds no handle. *)
Definition SetPublishResult (r : nat) (sid : string) (e : option error)
    (h : gmap nat PublishResult) : option (gmap nat PublishResult) :=
  match h !! r with
  | Some p => if ready p then None else Some (<[r := resolved sid e]> h)
  | None => None
  end.

(** Modelled from the spec: [Get] once the handle is set; [None] while the
    reader would block. *)
Definition Get (r : nat) (h : gmap nat PublishResult)
  : option (string * option error) :=
  match h !! r with
  | Some p => if ready p then Some (serverID p, err p) else None
  | None => None
  end.

End ipubsub.

(** ** Flow control *)

(** The overflow policies and the settings of the flow controller; their
    declarations are not among the sources, [publisher.go] names them. *)
Inductive LimitExceededBehavior : Type :=
  | FlowControlIgnore
  | FlowControlBlock
  | FlowControlSignalError.

Record FlowControlSettings := {
  MaxOutstandingMessages : Z;
  MaxOutstandingBytes : Z;
  LimitExceededBehavior_ : LimitExceededBehavior
}.

(** A [context.Context]: its error once it is cancelled, and the timeout it
    was derived with, if any. *)
Record Context := { ctx_Err : option error; ctx_Timeout : option Z }.

Module FlowControl.

(** Modelled from the spec: the flow controller (flow_controller.go) is
    absent from the sources.  It holds the outstanding message count and
    the outstanding byte count, each with a configured maximum. *)
Record flowController := {
  settings : FlowControlSettings;
  countOutstanding : Z;
  bytesOutstanding : Z
}.

(** Modelled from the spec: a flow controller with nothing outstanding. *)
Definition newTopicFlowController (fcs : FlowControlSettings) : flowController :=
  {| settings := fcs; countOutstanding := 0; bytesOutstanding := 0 |}.

(** Modelled from the spec: the zero value embedded in a [Publisher]
    before [initBundler] has run. *)
Definition zero : flowController :=
  newTopicFlowController
    {| MaxOutstandingMessages := 0; MaxOutstandingBytes := 0;
       LimitExceededBehavior_ := FlowControlIgnore |}.

(** Modelled from the spec: one more message of [size] bytes would breach
    a limit; a limit that is zero or negative means unlimited for that
    dimension. *)
Definition would_exceed (f : flowController) (size : Z) : bool :=
  ((0 <? MaxOutstandingMessages (settings f))
     && (MaxOutstandingMessages (settings f) <? countOutstanding f + 1))
  || ((0 <? MaxOutstandingBytes (settings f))
     && (MaxOutstandingBytes (settings f) <? bytesOutstanding f + size)).

(** Modelled from the spec: capacity reserved for one message. *)
Definition reserve (f : flowController) (size : Z) : flowController :=
  {| settings := settings f;
     countOutstanding := countOutstanding f + 1;
     bytesOutstanding := bytesOutstanding f + size |}.

(** Modelled from the spec: the ways [acquire] ends. *)
Inductive acquired : Type :=
  | Granted (f : flowController)
  | Rejected (e : error)
  | Suspended.

(** Modelled from the spec: [acquire].  Policy Ignore always admits and
    still counts; policy Error returns the capacity-exceeded error when
    either limit would be breached, reserving nothing; policy Block
    suspends the caller until capacity frees, and returns the
    cancellation error, reserving nothing, when the caller's context is
    cancelled. *)
Definition acquire (ctx : Context) (size : Z) (f : flowController) : acquired :=
  match LimitExceededBehavior_ (settings f) with
  | FlowControlIgnore => Granted (reserve f size)
  | FlowControlSignalError =>
      if would_exceed f size then Rejected ErrCapacityExceeded
      else Granted (reserve f size)
  | FlowControlBlock =>
      if would_exceed f size then
        match ctx_Err ctx with
        | Some e => Rejected e
        | None => Suspended
        end
      else Granted (reserve f size)
  end.

(** Modelled from the spec: [release] returns the capacity of one
    message. *)
Definition release (size : Z) (f : flowController) : flowController :=
  {| settings := settings f;
     countOutstanding := countOutstanding f - 1;
     bytesOutstanding := bytesOutstanding f - size |}.

End FlowControl.

(** ** The publish scheduler *)

Module Scheduler.
Section Generic.

(** The scheduler is generic in the items it buffers ([interface{}]) and
    in the handler it was created with; a handler closure is represented
    by what it captured. *)
Context {Item Handler : Type}.

(** Modelled from the spec: package pubsub/internal/scheduler is absent
    from the sources.  The scheduler keeps one partition per ordering key
    (the empty key is the unordered partition) holding the buffered items
    with their sizes in submission order, the set of paused keys, and
    whether it was stopped; the thresholds are the fields [publisher.go]
    sets. *)
Record PublishScheduler := {
  DelayThreshold : Z;
  BundleCountThreshold : Z;
  BundleByteThreshold : Z;
  BundleByteLimit : Z;
  BufferedByteLimit : Z;
  workers : Z;
  handle : Handler;
  bundlers : gmap string (list (Item * Z));
  keysWithErrors : gset string;
  done : bool
}.

(** Modelled from the spec: a scheduler with no partition, no paused key,
    running. *)
Definition NewPublishScheduler (workers : Z) (handle : Handler)
  : PublishScheduler :=
  {| DelayThreshold := 0; BundleCountThreshold := 0;
     BundleByteThreshold := 0; BundleByteLimit := 0;
     BufferedByteLimit := 0; workers := workers; handle := handle;
     bundlers := ∅; keysWithErrors := ∅; done := false |}.

(** Updates of single fields. *)
Definition with_bundlers (b : gmap string (list (Item * Z)))
    (s : PublishScheduler) : PublishScheduler :=
  {| DelayThreshold := DelayThreshold s;
     BundleCountThreshold := BundleCountThreshold s;
     BundleByteThreshold := BundleByteThreshold s;
     BundleByteLimit := BundleByteLimit s;
     BufferedByteLimit := BufferedByteLimit s;
     workers := workers s; handle := handle s;
     bundlers := b; keysWithErrors := keysWithErrors s; done := done s |}.

Definition with_keysWithErrors (k : gset string)
    (s : PublishScheduler) : PublishScheduler :=
  {| DelayThreshold := DelayThreshold s;
     BundleCountThreshold := BundleCountThreshold s;
     BundleByteThreshold := BundleByteThreshold s;
     BundleByteLimit := BundleByteLimit s;
     BufferedByteLimit := BufferedByteLimit s;
     workers := workers s; handle := handle s;
     bundlers := bundlers s; keysWithErrors := k; done := done s |}.

Definition with_done (d : bool) (s : PublishScheduler) : PublishScheduler :=
  {| DelayThreshold := DelayThreshold s;
     BundleCountThreshold := BundleCountThreshold s;
     BundleByteThreshold := BundleByteThreshold s;
     BundleByteLimit := BundleByteLimit s;
     BufferedByteLimit := BufferedByteLimit s;
     workers := workers s; handle := handle s;
     bundlers := bundlers s; keysWithErrors := keysWithErrors s; done := d |}.

(** Modelled from the spec: [IsPaused], the state of an ordering key. *)
Definition IsPaused (orderingKey : string) (s : PublishScheduler) : bool :=
  bool_decide (orderingKey ∈ keysWithErrors s).

(** Modelled from the spec: [Pause].  A key becomes paused on a failure;
    unordered messages (no key) are never paused. *)
Definition Pause (orderingKey : string) (s : PublishScheduler) : PublishScheduler :=
  if decide (orderingKey = "") then s
  else with_keysWithErrors ({[orderingKey]} ∪ keysWithErrors s) s.

(** Modelled from the spec: [Resume].  A paused key becomes active only on
    an explicit resume. *)
Definition Resume (orderingKey : string) (s : PublishScheduler) : PublishScheduler :=
  with_keysWithErrors (keysWithErrors s ∖ {[orderingKey]}) s.

(** Modelled from the spec: the items buffered for a key; a partition
    that was never used holds none. *)
Definition pending (key : string) (s : PublishScheduler) : list (Item * Z) :=
  default [] (bundlers s !! key).

(** Modelled from the spec: [Add].  While the key is paused it returns
    the publishing-paused error at once and buffers nothing (the spec
    states this without any condition, so this check comes first); it
    returns an error when the scheduler is stopped; an item larger than
    the bundle byte limit is rejected as oversized; otherwise the item
    joins the partition of its key, after the items already there. *)
Definition Add (key : string) (item : Item) (size : Z) (s : PublishScheduler)
  : PublishScheduler * option error :=
  if IsPaused key s then (s, Some (ErrPublishingPaused key))
  else if done s then (s, Some ErrSchedulerStopped)
  else if BundleByteLimit s <? size then (s, Some ErrOversizedItem)
  else (with_bundlers (<[key := pending key s ++ [(item, size)]]> (bundlers s)) s,
        None).

(** Modelled from the spec: the next bundle of a partition and what stays
    buffered.  A bundle is cut before an item that would cross the byte
    threshold, and after the item with which the count or the byte
    threshold is reached; [cnt] and [bytes] are what the bundle has
    accumulated so far. *)
Fixpoint take_bundle (s : PublishScheduler) (cnt bytes : Z)
    (l : list (Item * Z)) : list Item * list (Item * Z) :=
  match l with
  | [] => ([], [])
  | (x, n) :: l' =>
      if (0 <? cnt) && (BundleByteThreshold s <? bytes + n) then ([], l)
      else if (BundleCountThreshold s <=? cnt + 1)
              || (BundleByteThreshold s <=? bytes + n) then ([x], l')
      else (x :: (take_bundle s (cnt + 1) (bytes + n) l').1,
            (take_bundle s (cnt + 1) (bytes + n) l').2)
  end.

(** Modelled from the spec: all bundles of a partition, in order; each
    one takes at least one item, so [fuel] at the length of the list is
    enough. *)
Fixpoint bundles_of (s : PublishScheduler) (fuel : nat)
    (l : list (Item * Z)) : list (list Item) :=
  match fuel with
  | O => []
  | S fuel' =>
      match l with
      | [] => []
      | _ :: _ =>
          (take_bundle s 0 0 l).1 :: bundles_of s fuel' (take_bundle s 0 0 l).2
      end
  end.

(** Modelled from the spec: a worker is handed the next bundle of the
    partition of [key]. *)
Definition next_bundle (key : string) (s : PublishScheduler)
  : list Item * PublishScheduler :=
  ((take_bundle s 0 0 (pending key s)).1,
   with_bundlers (<[key := (take_bundle s 0 0 (pending key s)).2]> (bundlers s)) s).

(** Modelled from the spec: a flush hands over every buffered bundle,
    across all partitions, and leaves the partitions empty. *)
Definition drain (s : PublishScheduler) : list (list Item) * PublishScheduler :=
  (concat (map (fun kv => bundles_of s (length kv.2) kv.2)
               (map_to_list (bundlers s))),
   with_bundlers ∅ s).

End Generic.
Arguments PublishScheduler : clear implicits.
End Scheduler.

(** ** The publisher *)

Record PublishSettings := {
  DelayThreshold : Z;
  CountThreshold : Z;
  ByteThreshold : Z;
  NumGoroutines : Z;
  Timeout : Z;
  BufferedByteLimit : Z;
  FlowControlSettings_ : FlowControlSettings;
  EnableCompression : bool;
  CompressionBytesThreshold : Z
}.

Definition shouldCompress (ps : PublishSettings) (batchSize : Z) : bool :=
  EnableCompression ps && (CompressionBytesThreshold ps <? batchSize).

Definition MaxPublishRequestCount : Z := 1000.
Definition MaxPublishRequestBytes : Z := 10000000.

Definition Millisecond : Z := 1000000.
Definition Second : Z := 1000 * Millisecond.

Definition DefaultPublishSettings : PublishSettings :=
  {| DelayThreshold := 10 * Millisecond;
     CountThreshold := 100;
     ByteThreshold := 1000000;
     NumGoroutines := 0;
     Timeout := 60 * Second;
     BufferedByteLimit := 10 * MaxPublishRequestBytes;
     FlowControlSettings_ :=
       {| MaxOutstandingMessages := 1000;
          MaxOutstandingBytes := -1;
          LimitExceededBehavior_ := FlowControlIgnore |};
     EnableCompression := false;
     CompressionBytesThreshold := 240 |}.

Record bundledMessage := {
  bm_msg : Message;
  bm_res : nat;
  bm_size : Z
}.

(** The handler given to the scheduler in [initBundler] is a closure over
    [timeout]; it is represented by that value. *)
Abbreviation PublishScheduler := (Scheduler.PublishScheduler bundledMessage Z).

Record Publisher := {
  name : string;
  t_PublishSettings : PublishSettings;
  stopped : bool;
  scheduler : option PublishScheduler;
  flowController : FlowControl.flowController;
  EnableMessageOrdering : bool;
  (* t.c.pubc.CallOptions.Publish *)
  pubc_CallOptions_Publish : list CallOption
}.

Definition newPublisher (opts : list CallOption) (name : string) : Publisher :=
  {| name := name;
     t_PublishSettings := DefaultPublishSettings;
     stopped := false;
     scheduler := None;
     flowController := FlowControl.zero;
     EnableMessageOrdering := false;
     pubc_CallOptions_Publish := opts |}.

(** ** Calls made to collaborators, in the order they happen *)

Inductive Event : Type :=
  | call_acquire (size : Z)
  | call_release (size : Z)
  | call_Pause (orderingKey : string)
  | call_Resume (orderingKey : string)
  | call_Add (key : string) (item : bundledMessage) (size : Z)
  | call_SetPublishResult (r : nat) (sid : string) (e : option error)
  | call_Publish (req : PublishRequest) (opts : list CallOption).

Definition is_release (e : Event) : bool :=
  match e with call_release _ => true | _ => false end.
Definition is_acquire (e : Event) : bool :=
  match e with call_acquire _ => true | _ => false end.
Definition is_rpc (e : Event) : bool :=
  match e with call_Publish _ _ => true | _ => false end.
Definition is_Add (e : Event) : bool :=
  match e with call_Add _ _ _ => true | _ => false end.

(** ** State and the monad of operations *)

Record World := {
  topic : Publisher;
  results : gmap nat ipubsub.PublishResult;
  calls : list Event
}.

Inductive outcome (A : Type) : Type :=
  | Returned (a : A)
  | Panicked (why : string)
  | Parked.                      (* the goroutine is suspended *)
Arguments Returned {A} a.
Arguments Panicked {A} why.
Arguments Parked {A}.

Definition M (A : Type) : Type := World -> outcome A * World.

#[global] Instance M_ret : MRet M := fun A a w => (Returned a, w).
#[global] Instance M_bind : MBind M := fun A B f m w =>
  match m w with
  | (Returned a, w') => f a w'
  | (Panicked why, w') => (Panicked why, w')
  | (Parked, w') => (Parked, w')
  end.

Definition panic {A} (why : string) : M A := fun w => (Panicked why, w).

Definition log (e : Event) : M unit := fun w =>
  (Returned tt, {| topic := topic w; results := results w; calls := calls w ++ [e] |}).

(** An access to the fields of the publisher. *)
Definition topicOp {A} (f : Publisher -> outcome A * Publisher) : M A := fun w =>
  (fst (f (topic w)),
   {| topic := snd (f (topic w)); results := results w; calls := calls w |}).

Definition getTopic : M Publisher := topicOp (fun t => (Returned t, t)).

Definition modifyTopic (f : Publisher -> Publisher) : M unit :=
  topicOp (fun t => (Returned tt, f t)).

(** Assignments to single fields of the publisher. *)
Definition with_stopped (b : bool) (t : Publisher) : Publisher :=
  {| name := name t; t_PublishSettings := t_PublishSettings t; stopped := b;
     scheduler := scheduler t; flowController := flowController t;
     EnableMessageOrdering := EnableMessageOrdering t;
     pubc_CallOptions_Publish := pubc_CallOptions_Publish t |}.

Definition with_scheduler (s : PublishScheduler) (t : Publisher) : Publisher :=
  {| name := name t; t_PublishSettings := t_PublishSettings t;
     stopped := stopped t;
     scheduler := Some s; flowController := flowController t;
     EnableMessageOrdering := EnableMessageOrdering t;
     pubc_CallOptions_Publish := pubc_CallOptions_Publish t |}.

Definition with_flowController (f : FlowControl.flowController) (t : Publisher)
  : Publisher :=
  {| name := name t; t_PublishSettings := t_PublishSettings t;
     stopped := stopped t;
     scheduler := scheduler t; flowController := f;
     EnableMessageOrdering := EnableMessageOrdering t;
     pubc_CallOptions_Publish := pubc_CallOptions_Publish t |}.

(** A method of [t.scheduler], which is nil until [initBundler] has run. *)
Definition schedulerOp {A} (f : PublishScheduler -> A * PublishScheduler) : M A :=
  topicOp (fun t =>
    match scheduler t with
    | Some s => (Returned (fst (f s)), with_scheduler (snd (f s)) t)
    | None => (Panicked "nil pointer dereference", t)
    end).

(** The handles and the collaborators, as [publisher.go] calls them; each
    call to a collaborator is logged. *)
Definition NewPublishResult : M nat := fun w =>
  (Returned (fst (ipubsub.NewPublishResult (results w))),
   {| topic := topic w;
      results := snd (ipubsub.NewPublishResult (results w));
      calls := calls w |}).

Definition write_result (r : nat) (sid : string) (e : option error) : M unit :=
  fun w =>
    match ipubsub.SetPublishResult r sid e (results w) with
    | Some h => (Returned tt, {| topic := topic w; results := h; calls := calls w |})
    | None => (Panicked "close of closed channel", w)
    end.

Definition SetPublishResult (r : nat) (sid : string) (e : option error) : M unit :=
  log (call_SetPublishResult r sid e);;
  write_result r sid e.

Definition flowController_acquire (ctx : Context) (size : Z) : M (option error) :=
  log (call_acquire size);;
  topicOp (fun t =>
    match FlowControl.acquire ctx size (flowController t) with
    | FlowControl.Granted f => (Returned None, with_flowController f t)
    | FlowControl.Rejected e => (Returned (Some e), t)
    | FlowControl.Suspended => (Parked, t)
    end).

Definition flowController_release (size : Z) : M unit :=
  log (call_release size);;
  modifyTopic (fun t =>
    with_flowController (FlowControl.release size (flowController t)) t).

Definition scheduler_IsPaused (orderingKey : string) : M bool :=
  schedulerOp (fun s => (Scheduler.IsPaused orderingKey s, s)).

Definition scheduler_Pause (orderingKey : string) : M unit :=
  log (call_Pause orderingKey);;
  schedulerOp (fun s => (tt, Scheduler.Pause orderingKey s)).

Definition scheduler_Resume (orderingKey : string) : M unit :=
  log (call_Resume orderingKey);;
  schedulerOp (fun s => (tt, Scheduler.Resume orderingKey s)).

Definition scheduler_Add (key : string) (item : bundledMessage) (size : Z)
  : M (option error) :=
  log (call_Add key item size);;
  schedulerOp (fun s =>
    (snd (Scheduler.Add key item size s), fst (Scheduler.Add key item size s))).

Fixpoint for_each {A} (f : A -> M unit) (l : list A) : M unit :=
  match l with
  | [] => mret tt
  | x :: l' => f x;; for_each f l'
  end.

(** What the file takes from its environment: the width of [uint] on the
    target, [runtime.GOMAXPROCS(0)], [proto.Size], [calcFieldSizeString]
    (message.go), [maxSendRecvBytes] (pubsub.go) and the remote Publish RPC
    with its retries, which answers a request with identifiers or with a
    terminal error and may depend on everything that happened before. *)
Class Env := {
  uint_bits : Z;
  GOMAXPROCS : Z;
  proto_Size : PubsubMessage -> Z;
  calcFieldSizeString : string -> Z;
  maxSendRecvBytes : Z;
  pubc_Publish :
    list Event -> Context -> PublishRequest -> list CallOption -> rpc_result
}.

Section Pipeline.

Context `{Env}.

(** [intSize = 32 << (^uint(0) >> 63)] and [maxInt = 1<<(intSize-1) - 1]. *)
Definition intSize : Z := Z.shiftl 32 (Z.shiftr (2 ^ uint_bits - 1) 63).
Definition maxInt : Z := Z.shiftl 1 (intSize - 1) - 1.

(** The value of an [int] expression: two's complement on [intSize] bits. *)
Definition int (z : Z) : Z :=
  (z + 2 ^ (intSize - 1)) mod 2 ^ intSize - 2 ^ (intSize - 1).

Definition context_TODO : Context := {| ctx_Err := None; ctx_Timeout := None |}.

Definition toPb (m : Message) : PubsubMessage :=
  {| pb_Data := Data m; pb_Attributes := Attributes m;
     pb_OrderingKey := OrderingKey m |}.

(** *** initBundler *)

(** The body of [initBundler] past its two guards: the scheduler is
    created with the handler closure and its thresholds are assigned, the
    flow controller is made from the settings, and [BufferedByteLimit] of
    the settings is overwritten when [MaxOutstandingBytes] is set. *)
Definition init (t : Publisher) : Publisher :=
  let ps := t_PublishSettings t in
  let timeout := Timeout ps in
  let workers :=
    if NumGoroutines ps =? 0 then int (25 * GOMAXPROCS) else NumGoroutines ps in
  let countThreshold :=
    if MaxPublishRequestCount <? CountThreshold ps
    then MaxPublishRequestCount else CountThreshold ps in
  let dfcs := FlowControlSettings_ DefaultPublishSettings in
  let ufcs := FlowControlSettings_ ps in
  let bytesSet := 0 <? MaxOutstandingBytes ufcs in
  let fcs :=
    {| MaxOutstandingMessages :=
         if 0 <? MaxOutstandingMessages ufcs
         then MaxOutstandingMessages ufcs else MaxOutstandingMessages dfcs;
       MaxOutstandingBytes :=
         if bytesSet then MaxOutstandingBytes ufcs else MaxOutstandingBytes dfcs;
       LimitExceededBehavior_ := LimitExceededBehavior_ ufcs |} in
  let ps' :=
    {| DelayThreshold := DelayThreshold ps;
       CountThreshold := CountThreshold ps;
       ByteThreshold := ByteThreshold ps;
       NumGoroutines := NumGoroutines ps;
       Timeout := Timeout ps;
       BufferedByteLimit := if bytesSet then maxInt else BufferedByteLimit ps;
       FlowControlSettings_ := FlowControlSettings_ ps;
       EnableCompression := EnableCompression ps;
       CompressionBytesThreshold := CompressionBytesThreshold ps |} in
  let bufferedByteLimit :=
    if 0 <? BufferedByteLimit ps' then BufferedByteLimit ps'
    else BufferedByteLimit DefaultPublishSettings in
  let s0 : PublishScheduler := Scheduler.NewPublishScheduler workers timeout in
  let s : PublishScheduler :=
    {| Scheduler.DelayThreshold := DelayThreshold ps;
       Scheduler.BundleCountThreshold := countThreshold;
       Scheduler.BundleByteThreshold := ByteThreshold ps;
       Scheduler.BundleByteLimit :=
         int (int (MaxPublishRequestBytes - calcFieldSizeString (name t)) - 5);
       Scheduler.BufferedByteLimit := bufferedByteLimit;
       Scheduler.workers := Scheduler.workers s0;
       Scheduler.handle := Scheduler.handle s0;
       Scheduler.bundlers := Scheduler.bundlers s0;
       Scheduler.keysWithErrors := Scheduler.keysWithErrors s0;
       Scheduler.done := Scheduler.done s0 |} in
  {| name := name t; t_PublishSettings := ps'; stopped := stopped t;
     scheduler := Some s;
     flowController := FlowControl.newTopicFlowController fcs;
     EnableMessageOrdering := EnableMessageOrdering t;
     pubc_CallOptions_Publish := pubc_CallOptions_Publish t |}.

(** The publisher once [initBundler] has run: unchanged when it is stopped
    or has a scheduler already. *)
Definition initialised (t : Publisher) : Publisher :=
  if stopped t || bool_decide (scheduler t ≠ None) then t else init t.

Definition initBundler : M unit := modifyTopic initialised.

(** [DefaultPublishSettings] is a package variable, and [initBundler]
    reads it when it runs, for the flow control settings and for the limit
    of buffered bytes.  [init_from defaults] is the body of [initBundler]
    when the variable holds [defaults]; [init] above is [init_from] at the
    value the variable is declared with. *)
Definition init_from (defaults : PublishSettings) (t : Publisher) : Publisher :=
  let ps := t_PublishSettings t in
  let timeout := Timeout ps in
  let workers :=
    if NumGoroutines ps =? 0 then int (25 * GOMAXPROCS) else NumGoroutines ps in
  let countThreshold :=
    if MaxPublishRequestCount <? CountThreshold ps
    then MaxPublishRequestCount else CountThreshold ps in
  let dfcs := FlowControlSettings_ defaults in
  let ufcs := FlowControlSettings_ ps in
  let bytesSet := 0 <? MaxOutstandingBytes ufcs in
  let fcs :=
    {| MaxOutstandingMessages :=
         if 0 <? MaxOutstandingMessages ufcs
         then MaxOutstandingMessages ufcs else MaxOutstandingMessages dfcs;
       MaxOutstandingBytes :=
         if bytesSet then MaxOutstandingBytes ufcs else MaxOutstandingBytes dfcs;
       LimitExceededBehavior_ := LimitExceededBehavior_ ufcs |} in
  let ps' :=
    {| DelayThreshold := DelayThreshold ps;
       CountThreshold := CountThreshold ps;
       ByteThreshold := ByteThreshold ps;
       NumGoroutines := NumGoroutines ps;
       Timeout := Timeout ps;
       BufferedByteLimit := if bytesSet then maxInt else BufferedByteLimit ps;
       FlowControlSettings_ := FlowControlSettings_ ps;
       EnableCompression := EnableCompression ps;
       CompressionBytesThreshold := CompressionBytesThreshold ps |} in
  let bufferedByteLimit :=
    if 0 <? BufferedByteLimit ps' then BufferedByteLimit ps'
    else BufferedByteLimit defaults in
  let s0 : PublishScheduler := Scheduler.NewPublishScheduler workers timeout in
  let s : PublishScheduler :=
    {| Scheduler.DelayThreshold := DelayThreshold ps;
       Scheduler.BundleCountThreshold := countThreshold;
       Scheduler.BundleByteThreshold := ByteThreshold ps;
       Scheduler.BundleByteLimit :=
         int (int (MaxPublishRequestBytes - calcFieldSizeString (name t)) - 5);
       Scheduler.BufferedByteLimit := bufferedByteLimit;
       Scheduler.workers := Scheduler.workers s0;
       Scheduler.handle := Scheduler.handle s0;
       Scheduler.bundlers := Scheduler.bundlers s0;
       Scheduler.keysWithErrors := Scheduler.keysWithErrors s0;
       Scheduler.done := Scheduler.done s0 |} in
  {| name := name t; t_PublishSettings := ps'; stopped := stopped t;
     scheduler := Some s;
     flowController := FlowControl.newTopicFlowController fcs;
     EnableMessageOrdering := EnableMessageOrdering t;
     pubc_CallOptions_Publish := pubc_CallOptions_Publish t |}.

Definition initialised_from (defaults : PublishSettings) (t : Publisher)
  : Publisher :=
  if stopped t || bool_decide (scheduler t ≠ None) then t
  else init_from defaults t.

(** *** publishMessageBundle *)

(** The first loop: the wire messages, the ordering key of the last
    message and the sum of the encoded sizes.  ([bm.msg = nil] releases the
    message to the garbage collector.  A bundle is handled once and the
    scheduler puts a [*bundledMessage] in it once, so this is not
    observable; a bundle that held the same pointer twice would panic
    here, before any request, and would have a handle twice, which the
    statements about handles exclude.) *)
Definition encode_step (acc : list PubsubMessage * string * Z)
    (bm : bundledMessage) : list PubsubMessage * string * Z :=
  let p := toPb (bm_msg bm) in
  (acc.1.1 ++ [p], OrderingKey (bm_msg bm), int (acc.2 + proto_Size p)).

Definition encode (bms : list bundledMessage) : list PubsubMessage * string * Z :=
  fold_left encode_step bms ([], "", 0).

(** [settings.Retry], after every client option was resolved. *)
Definition resolve_Retry (opts : list CallOption) : option Retryer :=
  fold_left (fun acc o => match o with WithRetry r => Some r | _ => acc end)
            opts None.

(** [t.c.pubc.Publish(ctx, req, gaxOpts...)]. *)
Definition rpc_Publish (ctx : Context) (req : PublishRequest)
    (opts : list CallOption) : M rpc_result := fun w =>
  (Returned (pubc_Publish (calls w) ctx req opts),
   {| topic := topic w; results := results w;
      calls := calls w ++ [call_Publish req opts] |}).

(** The attempt: either the key is paused and nothing is sent, or one RPC
    carries the whole bundle. *)
Definition send (ctx : Context) (orderingKey : string)
    (pbMsgs : list PubsubMessage) (batchSize : Z)
  : M (option PublishResponse * option error) :=
  paused ← (if decide (orderingKey = "") then mret false
            else scheduler_IsPaused orderingKey);
  if (paused : bool) then mret (None, Some (ErrPublishingPaused orderingKey))
  else
    t ← getTopic;
    match resolve_Retry (pubc_CallOptions_Publish t) with
    | None => panic "call of nil func"
    | Some d =>
        let gaxOpts :=
          [MaxCallSendMsgSize maxSendRecvBytes; WithRetry (publishRetryer d)]
          ++ (if shouldCompress (t_PublishSettings t) batchSize
              then [UseCompressor gzip_Name] else []) in
        r ← rpc_Publish ctx {| Topic := name t; Messages := pbMsgs |} gaxOpts;
        match r with
        | rpc_ok res => mret (Some res, None)
        | rpc_err e => mret (None, Some e)
        end
    end.

(** What the last loop writes to the handle at index [i]. *)
Definition resolve_at (res : option PublishResponse) (err : option error)
    (i : nat) (r : nat) : M unit :=
  match err with
  | Some e => SetPublishResult r "" (Some e)
  | None =>
      match res with
      | Some rs =>
          match MessageIds rs !! i with
          | Some id => SetPublishResult r id None
          | None => panic "index out of range"
          end
      | None => panic "nil pointer dereference"
      end
  end.

(** The last loop, from index [i] on. *)
Fixpoint distribute (res : option PublishResponse) (err : option error)
    (i : nat) (bms : list bundledMessage) : M unit :=
  match bms with
  | [] => mret tt
  | bm :: rest =>
      flowController_release (bm_size bm);;
      resolve_at res err i (bm_res bm);;
      distribute res err (S i) rest
  end.

Definition pbMsgs_of (bms : list bundledMessage) : list PubsubMessage :=
  (encode bms).1.1.
Definition orderingKey_of (bms : list bundledMessage) : string :=
  (encode bms).1.2.
Definition batchSize_of (bms : list bundledMessage) : Z :=
  (encode bms).2.

Definition publishMessageBundle (ctx : Context) (bms : list bundledMessage)
  : M unit :=
  let orderingKey := orderingKey_of bms in
  sent ← send ctx orderingKey (pbMsgs_of bms) (batchSize_of bms);
  match sent.2 with
  | Some _ => scheduler_Pause orderingKey
  | None => mret tt
  end;;
  distribute sent.1 sent.2 0 bms.

(** The handler closure of [initBundler]. *)
Definition handler (timeout : Z) (bundle : list bundledMessage) : M unit :=
  publishMessageBundle
    (if timeout =? 0 then context_TODO
     else {| ctx_Err := None; ctx_Timeout := Some timeout |})
    bundle.

(** Modelled from the spec: [Flush] of the absent scheduler returns once
    every buffered bundle, across all partitions, was sent and its
    results distributed. *)
Definition scheduler_Flush : M unit :=
  job ← schedulerOp (fun s =>
           ((Scheduler.handle s, fst (Scheduler.drain s)), snd (Scheduler.drain s)));
  for_each (handler job.1) job.2.

(** Modelled from the spec: [FlushAndStop] also refuses every later
    [Add], once flushing is complete. *)
Definition scheduler_FlushAndStop : M unit :=
  scheduler_Flush;;
  schedulerOp (fun s => (tt, Scheduler.with_done true s)).

(** A worker takes the next bundle of a partition and handles it.  The
    delay threshold may fire at any moment, so this can happen whenever the
    partition is not empty. *)
Definition worker (key : string) : M unit :=
  job ← schedulerOp (fun s =>
           ((Scheduler.handle s, fst (Scheduler.next_bundle key s)),
            snd (Scheduler.next_bundle key s)));
  match job.2 with
  | [] => mret tt
  | _ => handler job.1 job.2
  end.

(** *** Publish, Stop, Flush, ResumePublish *)

Definition Publish (ctx : Context) (msg : Message) : M nat :=
  r ← NewPublishResult;
  t ← getTopic;
  if negb (EnableMessageOrdering t) && bool_decide (OrderingKey msg ≠ "") then
    SetPublishResult r "" (Some errTopicOrderingNotEnabled);;
    mret r
  else
    let msgSize := proto_Size (toPb msg) in
    initBundler;;
    t ← getTopic;
    if stopped t then
      SetPublishResult r "" (Some ErrTopicStopped);;
      mret r
    else
      e ← flowController_acquire ctx msgSize;
      match e with
      | Some e =>
          scheduler_Pause (OrderingKey msg);;
          SetPublishResult r "" (Some e);;
          mret r
      | None =>
          e ← scheduler_Add (OrderingKey msg)
                {| bm_msg := msg; bm_res := r; bm_size := msgSize |} msgSize;
          match e with
          | Some e =>
              scheduler_Pause (OrderingKey msg);;
              SetPublishResult r "" (Some e)
          | None => mret tt
          end;;
          mret r
      end.

Definition Stop : M unit :=
  noop ← topicOp (fun t =>
           (Returned (stopped t || bool_decide (scheduler t = None)),
            with_stopped true t));
  if (noop : bool) then mret tt else scheduler_FlushAndStop.

Definition Flush : M unit :=
  t ← getTopic;
  if stopped t || bool_decide (scheduler t = None) then mret tt
  else scheduler_Flush.

Definition ResumePublish (orderingKey : string) : M unit :=
  t ← getTopic;
  if bool_decide (scheduler t = None) then mret tt
  else scheduler_Resume orderingKey.

(** *** Sequences of operations

    What callers and workers do to one publisher, one operation after
    the other.  A call that parks leaves the state it reached; the run
    goes on with the other goroutines.  A panic would end the program;
    [exec] goes on from the state it left, so what holds after every
    [exec] holds after every run of the program.  A [Publish] that was
    parked and resumes later acts as a [Publish] made at that later
    moment: it holds the read lock of the publisher meanwhile, which keeps
    [Stop] from changing the publisher under it. *)
Inductive op : Type :=
  | op_Publish (ctx : Context) (msg : Message)
  | op_Stop
  | op_Flush
  | op_ResumePublish (orderingKey : string)
  | op_worker (key : string).

Definition step (o : op) : M unit :=
  match o with
  | op_Publish ctx msg => Publish ctx msg;; mret tt
  | op_Stop => Stop
  | op_Flush => Flush
  | op_ResumePublish k => ResumePublish k
  | op_worker k => worker k
  end.

Definition exec (ops : list op) (w : World) : World :=
  fold_left (fun w o => snd (step o w)) ops w.

Definition resumes (key : string) (o : op) : bool :=
  match o with
  | op_ResumePublish k => bool_decide (k = key)
  | _ => false
  end.

End Pipeline.

(** ** Names of publishers

    [Client.Publisher], [Client.PublisherInProject], [Publisher.ID] and
    [Publisher.String].  Of the client, a publisher uses the project and
    the call options of the Publish RPC. *)

Record Client := {
  projectID : string;
  (* c.pubc.CallOptions.Publish *)
  pubc_CallOptions : list CallOption
}.

(** [fmt.Sprintf("projects/%s/topics/%s", projectID, id)]. *)
Definition PublisherInProject (c : Client) (id projectID : string) : Publisher :=
  newPublisher (pubc_CallOptions c) ("projects/" +:+ projectID +:+ "/topics/" +:+ id).

Definition Client_Publisher (c : Client) (id : string) : Publisher :=
  PublisherInProject c id (projectID c).

(** [strings.LastIndex]: the index of the last instance of [substr] in
    [s], or -1 when there is none. *)
Fixpoint LastIndex (s substr : string) : Z :=
  match s with
  | EmptyString => if String.prefix substr s then 0 else -1
  | String _ s' =>
      let later := LastIndex s' substr in
      if 0 <=? later then later + 1
      else if String.prefix substr s then 0 else -1
  end.

(** The slice expression [s[i:]], which panics unless [0 <= i <= len(s)]. *)
Fixpoint string_drop (n : nat) (s : string) : string :=
  match n, s with
  | S n', String _ s' => string_drop n' s'
  | _, _ => s
  end.

Definition slice_from (s : string) (i : Z) : outcome string :=
  if (i <? 0) || (Z.of_nat (String.length s) <? i)
  then Panicked "slice bounds out of range"
  else Returned (string_drop (Z.to_nat i) s).

Definition ID (t : Publisher) : outcome string :=
  let slash := LastIndex (name t) "/" in
  if slash =? -1 then Panicked "bad topic name"
  else slice_from (name t) (slash + 1).

Definition String_ (t : Publisher) : string := name t.

(** ** Messages of the errors

    [ErrPublishingPaused.Error] and the texts given to [errors.New] for
    [ErrTopicStopped] and [errTopicOrderingNotEnabled]; the other errors
    are declared in other packages. *)

Definition ErrPublishingPaused_Error (OrderingKey : string) : string :=
  "pubsub: Publishing for ordering key, " +:+ OrderingKey
  +:+ ", paused due to previous error. Call topic.ResumePublish(orderingKey) before resuming publishing".

Definition Error (e : error) : option string :=
  match e with
  | ErrTopicStopped => Some "pubsub: Stop has been called for this topic"
  | errTopicOrderingNotEnabled =>
      Some "Topic.EnableMessageOrdering=false, but an OrderingKey was set in Message. Please remove the OrderingKey or turn on Topic.EnableMessageOrdering"
  | ErrPublishingPaused k => Some (ErrPublishingPaused_Error k)
  | _ => None
  end.

(** ** Vocabulary of the statements *)

(** A handle that was created and not yet resolved. *)
Definition is_pending (h : gmap nat ipubsub.PublishResult) (r : nat) : bool :=
  match h !! r with
  | Some p => negb (ipubsub.ready p)
  | None => false
  end.

(** A bundle as the scheduler hands it over: its handles are distinct and
    none is resolved yet ([Publish] makes a new handle for every message
    and resolves it itself only when the message is not buffered). *)
Definition fresh_bundle (h : gmap nat ipubsub.PublishResult)
    (bms : list bundledMessage) : bool :=
  bool_decide (NoDup (bm_res <$> bms))
  && forallb (fun bm => is_pending h (bm_res bm)) bms.

(** The flow controller after one release per message of a bundle. *)
Definition released (bms : list bundledMessage) (f : FlowControl.flowController)
  : FlowControl.flowController :=
  fold_left (fun f bm => FlowControl.release (bm_size bm) f) bms f.

(** The sum of the sizes recorded with the messages of a bundle. *)
Definition sum_sizes (bms : list bundledMessage) : Z :=
  fold_right Z.add 0 (bm_size <$> bms).

(** What the last loop of [publishMessageBundle] writes at index [i], and
    whether the attempt answers for [n] messages: with an error, or with
    at least [n] identifiers. *)
Definition written (res : option PublishResponse) (err : option error)
    (i : nat) : string * option error :=
  match err with
  | Some e => ("", Some e)
  | None => (default "" (res ≫= fun rs => MessageIds rs !! i), None)
  end.

Definition answered (res : option PublishResponse) (err : option error)
    (n : nat) : bool :=
  match err, res with
  | Some _, _ => true
  | None, Some rs => bool_decide (n <= length (MessageIds rs))%nat
  | None, None => false
  end.

Fixpoint distribute_calls (res : option PublishResponse) (err : option error)
    (i : nat) (bms : list bundledMessage) : list Event :=
  match bms with
  | [] => []
  | bm :: rest =>
      call_release (bm_size bm)
      :: call_SetPublishResult (bm_res bm) (written res err i).1 (written res err i).2
      :: distribute_calls res err (S i) rest
  end.

Fixpoint distribute_results (res : option PublishResponse) (err : option error)
    (i : nat) (bms : list bundledMessage) (h : gmap nat ipubsub.PublishResult)
  : gmap nat ipubsub.PublishResult :=
  match bms with
  | [] => h
  | bm :: rest =>
      distribute_results res err (S i) rest
        (<[bm_res bm := ipubsub.resolved (written res err i).1 (written res err i).2]> h)
  end.

(** The calls a computation added to the log. *)
Definition new_calls (before after : World) : list Event :=
  drop (length (calls before)) (calls after).

(** The first check of [Publish]: an ordering key on a publisher without
    message ordering. *)
Definition ordering_violated (t : Publisher) (msg : Message) : bool :=
  negb (EnableMessageOrdering t) && bool_decide (OrderingKey msg ≠ "").

(** The state [Publish] returns in when it rejects the message with [e]
    before it reaches the flow controller. *)
Definition rejected_at_once (e : error) (w : World) : World :=
  {| topic := topic w;
     results := <[ipubsub.fresh (results w) := ipubsub.resolved "" (Some e)]> (results w);
     calls := calls w ++ [call_SetPublishResult (ipubsub.fresh (results w)) "" (Some e)] |}.

(** The ordering key is paused on this publisher. *)
Definition key_paused (key : string) (t : Publisher) : bool :=
  match scheduler t with
  | Some s => Scheduler.IsPaused key s
  | None => false
  end.

(** The attempt of [publishMessageBundle] for a bundle of this ordering
    key reaches the RPC: the pre-send check lets the key through (there is
    no key, or the key is not paused on the scheduler of the publisher)
    and the options of the client give a retryer, the one to wrap. *)
Definition sendable (key : string) (t : Publisher) : option Retryer :=
  if bool_decide (key = "")
     || (bool_decide (scheduler t ≠ None) && negb (key_paused key t))
  then resolve_Retry (pubc_CallOptions_Publish t)
  else None.

(** The error with which the flow controller, or else the scheduler,
    rejects [msg] in [Publish] on a running publisher. *)
Definition admission_error `{Env} (ctx : Context) (msg : Message) (w : World)
  : option error :=
  let t := initialised (topic w) in
  let size := proto_Size (toPb msg) in
  match FlowControl.acquire ctx size (flowController t) with
  | FlowControl.Rejected e => Some e
  | FlowControl.Granted _ =>
      match scheduler t with
      | Some s =>
          snd (Scheduler.Add (OrderingKey msg)
                 {| bm_msg := msg; bm_res := ipubsub.fresh (results w);
                    bm_size := size |} size s)
      | None => None
      end
  | FlowControl.Suspended => None
  end.

(** The sum of the encoded sizes of the messages of a bundle. *)
Definition wire_size `{Env} (bms : list bundledMessage) : Z :=
  fold_right Z.add 0 ((fun bm => proto_Size (toPb (bm_msg bm))) <$> bms).

(** A property of the publisher that a computation keeps, however it
    ends. *)
Definition keeps (J : Publisher -> Prop) {A} (m : M A) : Prop :=
  forall w, J (topic w) -> J (topic (snd (m w))).

(** The operations allowed when only the keys in [may_resume] may be
    resumed. *)
Definition op_allowed (may_resume : string -> Prop) (o : op) : Prop :=
  match o with op_ResumePublish k => may_resume k | _ => True end.

(** The options of the request that carries a bundle of [batchSize]
    bytes, [d] being the retryer configured on the client. *)
Definition gaxOpts_of `{Env} (t : Publisher) (d : Retryer) (batchSize : Z)
  : list CallOption :=
  [MaxCallSendMsgSize maxSendRecvBytes; WithRetry (publishRetryer d)]
  ++ (if shouldCompress (t_PublishSettings t) batchSize
      then [UseCompressor gzip_Name] else []).

(** [w'] differs from [w] by changes that issue no request and leave the
    configuration of the publisher and of its client alone. *)
Definition quiet (w w' : World) : Prop :=
  t_PublishSettings (topic w') = t_PublishSettings (topic w)
  /\ pubc_CallOptions_Publish (topic w') = pubc_CallOptions_Publish (topic w)
  /\ exists l, calls w' = calls w ++ l /\ filter is_rpc l = [].

Definition quietly {A} (m : M A) : Prop := forall w, quiet w (snd (m w)).

(** What the scheduler of a publisher has buffered: per key, and the
    handles of the items of a partition. *)
Definition buffers (t : Publisher) : gmap string (list (bundledMessage * Z)) :=
  match scheduler t with
  | Some s => Scheduler.bundlers s
  | None => ∅
  end.

Definition buffered (k : string) (t : Publisher) : list (bundledMessage * Z) :=
  default [] (buffers t !! k).

Definition handles_of (l : list (bundledMessage * Z)) : list nat :=
  bm_res ∘ fst <$> l.

(** Every buffered message has a handle of its own, which is pending. *)
Definition buffered_ok (w : World) : Prop :=
  (forall k, NoDup (handles_of (buffered k (topic w))))
  /\ (forall k k' r,
        r ∈ handles_of (buffered k (topic w)) ->
        r ∈ handles_of (buffered k' (topic w)) -> k = k')
  /\ (forall k r,
        r ∈ handles_of (buffered k (topic w)) -> is_pending (results w) r = true).

(** A property of the state that a computation keeps, however it ends. *)
Definition preserves (I : World -> Prop) {A} (m : M A) : Prop :=
  forall w, I w -> I (snd (m w)).

(** [w'] differs from [w] at most in the handles [X]; nothing was added
    to or taken from the partitions. *)
Definition touches_only (X : list nat) (w w' : World) : Prop :=
  buffers (topic w') = buffers (topic w)
  /\ forall r, r ∉ X -> results w' !! r = results w !! r.

Definition within (X : list nat) {A} (m : M A) : Prop :=
  forall w, touches_only X w (snd (m w)).

(** The byte [c] occurs in [s]. *)
Fixpoint contains_byte (c : ascii) (s : string) : bool :=
  match s with
  | EmptyString => false
  | String a s' => bool_decide (a = c) || contains_byte c s'
  end.

Definition is_Resume (e : Event) : bool :=
  match e with call_Resume _ => true | _ => false end.
Definition is_Pause (e : Event) : bool :=
  match e with call_Pause _ => true | _ => false end.

(** The settings that no operation assigns: all but [BufferedByteLimit]. *)
Definition fixed_settings (ps : PublishSettings)
  : Z * Z * Z * Z * Z * FlowControlSettings * bool * Z :=
  (DelayThreshold ps, CountThreshold ps, ByteThreshold ps, NumGoroutines ps,
   Timeout ps, FlowControlSettings_ ps, EnableCompression ps,
   CompressionBytesThreshold ps).

(** What no operation assigns on a publisher: its name, the ordering
    switch, the options of its client and the settings above. *)
Definition configuration (t : Publisher)
  : string * bool * list CallOption
    * (Z * Z * Z * Z * Z * FlowControlSettings * bool * Z) :=
  (name t, EnableMessageOrdering t, pubc_CallOptions_Publish t,
   fixed_settings (t_PublishSettings t)).

(** The ways through [Publish]: the ordering check fails, the publisher
    is stopped, the flow controller rejects the message or parks the
    caller, the scheduler rejects the message, or the message is
    admitted. *)
Inductive Publish_path : Type :=
  | path_ordering
  | path_stopped
  | path_acquire_rejected (s : PublishScheduler) (e : error)
  | path_parked
  | path_Add_rejected (s : PublishScheduler) (f : FlowControl.flowController)
      (e : error)
  | path_admitted (s : PublishScheduler) (f : FlowControl.flowController).

(** The item that [Publish] hands to the scheduler for [msg]. *)
Definition item_of `{Env} (msg : Message) (w : World) : bundledMessage :=
  {| bm_msg := msg; bm_res := ipubsub.fresh (results w);
     bm_size := proto_Size (toPb msg) |}.

(** What decides that [Publish ctx msg] takes the way [p] from [w]. *)
Definition on_path `{Env} (ctx : Context) (msg : Message) (w : World)
    (p : Publish_path) : Prop :=
  match p with
  | path_ordering => ordering_violated (topic w) msg = true
  | path_stopped =>
      ordering_violated (topic w) msg = false /\ stopped (topic w) = true
  | path_acquire_rejected s e =>
      ordering_violated (topic w) msg = false /\ stopped (topic w) = false
      /\ scheduler (initialised (topic w)) = Some s
      /\ FlowControl.acquire ctx (proto_Size (toPb msg))
           (flowController (initialised (topic w))) = FlowControl.Rejected e
  | path_parked =>
      ordering_violated (topic w) msg = false /\ stopped (topic w) = false
      /\ FlowControl.acquire ctx (proto_Size (toPb msg))
           (flowController (initialised (topic w))) = FlowControl.Suspended
  | path_Add_rejected s f e =>
      ordering_violated (topic w) msg = false /\ stopped (topic w) = false
      /\ scheduler (initialised (topic w)) = Some s
      /\ FlowControl.acquire ctx (proto_Size (toPb msg))
           (flowController (initialised (topic w))) = FlowControl.Granted f
      /\ snd (Scheduler.Add (OrderingKey msg) (item_of msg w)
                (proto_Size (toPb msg)) s) = Some e
  | path_admitted s f =>
      ordering_violated (topic w) msg = false /\ stopped (topic w) = false
      /\ scheduler (initialised (topic w)) = Some s
      /\ FlowControl.acquire ctx (proto_Size (toPb msg))
           (flowController (initialised (topic w))) = FlowControl.Granted f
      /\ snd (Scheduler.Add (OrderingKey msg) (item_of msg w)
                (proto_Size (toPb msg)) s) = None
  end.

(** The calls that [Publish] makes on each way, and whether the handle is
    resolved when it returns. *)
Definition calls_on `{Env} (msg : Message) (w : World) (p : Publish_path)
  : list Event :=
  let r := ipubsub.fresh (results w) in
  let size := proto_Size (toPb msg) in
  match p with
  | path_ordering =>
      [call_SetPublishResult r "" (Some errTopicOrderingNotEnabled)]
  | path_stopped => [call_SetPublishResult r "" (Some ErrTopicStopped)]
  | path_acquire_rejected _ e =>
      [call_acquire size; call_Pause (OrderingKey msg);
       call_SetPublishResult r "" (Some e)]
  | path_parked => [call_acquire size]
  | path_Add_rejected _ _ e =>
      [call_acquire size; call_Add (OrderingKey msg) (item_of msg w) size;
       call_Pause (OrderingKey msg); call_SetPublishResult r "" (Some e)]
  | path_admitted _ _ =>
      [call_acquire size; call_Add (OrderingKey msg) (item_of msg w) size]
  end.

Definition error_on (p : Publish_path) : option error :=
  match p with
  | path_ordering => Some errTopicOrderingNotEnabled
  | path_stopped => Some ErrTopicStopped
  | path_acquire_rejected _ e => Some e
  | path_Add_rejected _ _ e => Some e
  | path_parked | path_admitted _ _ => None
  end.

(** A request that asks for compression. *)
Definition compressed (e : Event) : bool :=
  match e with
  | call_Publish _ opts =>
      existsb (fun o => match o with UseCompressor _ => true | _ => false end)
              opts
  | _ => false
  end.

(** The batch size that [publishMessageBundle] computes for a request,
    from the messages the request carries. *)
Definition batch_size `{Env} (pbs : list PubsubMessage) : Z :=
  fold_left (fun n p => int (n + proto_Size p)) pbs 0.

(** A call that, when it is a request of the Publish RPC, is addressed
    and configured as [publishMessageBundle] does for the publisher [t]:
    it names the topic, and its options are the size limit, the publish
    retryer around the retryer configured on the client, and the gzip
    compressor exactly when [shouldCompress] holds of the batch size of
    its messages. *)
Definition request_ok `{Env} (t : Publisher) (e : Event) : Prop :=
  match e with
  | call_Publish req opts =>
      Topic req = name t
      /\ exists d,
           resolve_Retry (pubc_CallOptions_Publish t) = Some d
           /\ opts
              = [MaxCallSendMsgSize maxSendRecvBytes;
                 WithRetry (publishRetryer d)]
                ++ (if shouldCompress (t_PublishSettings t)
                         (batch_size (Messages req))
                    then [UseCompressor gzip_Name] else [])
  | _ => True
  end.

(** [w'] comes from [w] by steps that leave the configuration alone and
    make no request but such ones. *)
Definition steady `{Env} (w w' : World) : Prop :=
  configuration (topic w') = configuration (topic w)
  /\ exists l, calls w' = calls w ++ l /\ Forall (request_ok (topic w)) l.

Definition steadily `{Env} {A} (m : M A) : Prop :=
  forall w, steady w (snd (m w)).

Definition is_Stop (o : op) : bool :=
  match o with op_Stop => true | _ => false end.

(** The stopped flag of a publisher has the value [b]. *)
Definition stopped_is (b : bool) (t : Publisher) : Prop := stopped t = b.

(** ** Sample environments and inputs *)

Module Sample.

(** The wire size of a length-delimited field: one tag byte, the varint
    of the length, the bytes. *)
Definition varint_size (n : Z) : Z :=
  if n <? 128 then 1 else if n <? 16384 then 2 else if n <? 2097152 then 3
  else if n <? 268435456 then 4 else 5.

Definition field_size (n : Z) : Z :=
  if n =? 0 then 0 else 1 + varint_size n + n.

Definition string_size (s : string) : Z :=
  1 + Z.of_nat (String.length s) + varint_size (Z.of_nat (String.length s)).

Definition message_size (p : PubsubMessage) : Z :=
  field_size (Z.of_nat (length (pb_Data p)))
  + field_size (Z.of_nat (String.length (pb_OrderingKey p))).

(** A server that accepts everything and numbers the messages of a
    request, and one that is unavailable. *)
Definition accepting (_ : list Event) (_ : Context) (req : PublishRequest)
    (_ : list CallOption) : rpc_result :=
  rpc_ok {| MessageIds := imap (fun i _ => pretty i) (Messages req) |}.

Definition unavailable (_ : list Event) (_ : Context) (_ : PublishRequest)
    (_ : list CallOption) : rpc_result :=
  rpc_err (ErrRPC "Unavailable").

Definition env (rpc : list Event -> Context -> PublishRequest ->
                      list CallOption -> rpc_result) : Env :=
  {| uint_bits := 64;
     GOMAXPROCS := 8;
     proto_Size := message_size;
     calcFieldSizeString := string_size;
     maxSendRecvBytes := 20 * 1024 * 1024;
     pubc_Publish := rpc |}.

Definition ctx : Context := {| ctx_Err := None; ctx_Timeout := None |}.

Definition message (data key : string) : Message :=
  {| Data := String.list_byte_of_string data; Attributes := ∅;
     OrderingKey := key |}.

Definition client_options : list CallOption :=
  [WithRetry (gaxRetryer "default")].

(** A publisher as [newPublisher] makes it, with or without ordering. *)
Definition publisher (ordering : bool) : Publisher :=
  {| name := "projects/p/topics/t";
     t_PublishSettings := DefaultPublishSettings;
     stopped := false;
     scheduler := None;
     flowController := FlowControl.zero;
     EnableMessageOrdering := ordering;
     pubc_CallOptions_Publish := client_options |}.

Definition world (ordering : bool) : World :=
  {| topic := publisher ordering; results := ∅; calls := [] |}.

(** Two messages on the ordering key "k", as [Publish] buffers them. *)
Definition m0 : Message := message "hello" "k".
Definition m1 : Message := message "world" "k".

Definition buffered `{Env} : World :=
  snd (Publish ctx m1 (snd (Publish ctx m0 (world true)))).

Definition bundle : list bundledMessage :=
  [ {| bm_msg := m0; bm_res := 0; bm_size := 10 |};
    {| bm_msg := m1; bm_res := 1; bm_size := 10 |} ].

(** A publisher without message ordering, after [Stop]. *)
Definition stopped_unordered `{Env} : World := snd (Stop (world false)).

(** A publisher that lets one message be outstanding and signals an error
    beyond that, with one message admitted. *)
Definition strict_publisher : Publisher :=
  {| name := "projects/p/topics/t";
     t_PublishSettings :=
       {| DelayThreshold := 10 * Millisecond;
          CountThreshold := 100;
          ByteThreshold := 1000000;
          NumGoroutines := 0;
          Timeout := 60 * Second;
          BufferedByteLimit := 10 * MaxPublishRequestBytes;
          FlowControlSettings_ :=
            {| MaxOutstandingMessages := 1;
               MaxOutstandingBytes := -1;
               LimitExceededBehavior_ := FlowControlSignalError |};
          EnableCompression := true;
          CompressionBytesThreshold := 15 |};
     stopped := false;
     scheduler := None;
     flowController := FlowControl.zero;
     EnableMessageOrdering := true;
     pubc_CallOptions_Publish := client_options |}.

Definition at_capacity `{Env} : World :=
  snd (Publish ctx m0 {| topic := strict_publisher; results := ∅; calls := [] |}).

(** A publisher that compresses requests above 15 bytes, with the two
    messages buffered. *)
Definition compressing_publisher : Publisher :=
  {| name := "projects/p/topics/t";
     t_PublishSettings :=
       {| DelayThreshold := 10 * Millisecond;
          CountThreshold := 100;
          ByteThreshold := 1000000;
          NumGoroutines := 0;
          Timeout := 60 * Second;
          BufferedByteLimit := 10 * MaxPublishRequestBytes;
          FlowControlSettings_ := FlowControlSettings_ DefaultPublishSettings;
          EnableCompression := true;
          CompressionBytesThreshold := 15 |};
     stopped := false;
     scheduler := None;
     flowController := FlowControl.zero;
     EnableMessageOrdering := true;
     pubc_CallOptions_Publish := client_options |}.

Definition compressing `{Env} : World :=
  snd (Publish ctx m1
         (snd (Publish ctx m0
                 {| topic := compressing_publisher; results := ∅; calls := [] |}))).

(** What callers and workers may do after a key was paused. *)
Definition later_ops : list op :=
  [op_Publish ctx m0; op_ResumePublish "other"; op_worker "k"; op_Flush;
   op_Publish ctx (message "more" "")].

(** The same after a failure paused the key "k". *)
Definition paused `{Env} : World :=
  snd (scheduler_Pause "k" buffered).

(** A publisher with a limit of outstanding bytes and none of buffered
    bytes. *)
Definition byte_limited_publisher : Publisher :=
  {| name := "projects/p/topics/t";
     t_PublishSettings :=
       {| DelayThreshold := 10 * Millisecond;
          CountThreshold := 5000;
          ByteThreshold := 1000000;
          NumGoroutines := 0;
          Timeout := 60 * Second;
          BufferedByteLimit := 0;
          FlowControlSettings_ :=
            {| MaxOutstandingMessages := 0;
               MaxOutstandingBytes := 4096;
               LimitExceededBehavior_ := FlowControlBlock |};
          EnableCompression := false;
          CompressionBytesThreshold := 240 |};
     stopped := false;
     scheduler := None;
     flowController := FlowControl.zero;
     EnableMessageOrdering := true;
     pubc_CallOptions_Publish := client_options |}.

(** A client of project "p" and the topic of the examples. *)
Definition client : Client :=
  {| projectID := "p"; pubc_CallOptions := client_options |}.

Definition topicName : string := "topicName".

End Sample.

(** * Properties *)

(** ** Running the monad *)

Lemma bind_run {A B} (m : M A) (f : A -> M B) (w : World) :
  (m ≫= f) w =
  match m w with
  | (Returned a, w') => f a w'
  | (Panicked why, w') => (Panicked why, w')
  | (Parked, w') => (Parked, w')
  end.
Proof. reflexivity. Qed.

Lemma bind_returned {A B} (m : M A) (f : A -> M B) (w w' : World) (a : A) :
  m w = (Returned a, w') -> (m ≫= f) w = f a w'.
Proof. intros E. rewrite bind_run, E. reflexivity. Qed.

(** The state a sequence ends in: that of its first part when that does
    not return. *)
Lemma bind_state {A B} (m : M A) (f : A -> M B) (w : World) :
  snd ((m ≫= f) w) =
  match fst (m w) with
  | Returned a => snd (f a (snd (m w)))
  | _ => snd (m w)
  end.
Proof. rewrite bind_run. destruct (m w) as [[a| |] w']; reflexivity. Qed.

(** ** Properties of the publisher that a computation keeps *)

Section Keeps.

Variable J : Publisher -> Prop.

Lemma keeps_ret {A} (a : A) : keeps J (mret a).
Proof. intros w Hw. exact Hw. Qed.

Lemma keeps_panic {A} (why : string) : keeps J (@panic A why).
Proof. intros w Hw. exact Hw. Qed.

Lemma keeps_bind {A B} (m : M A) (f : A -> M B) :
  keeps J m -> (forall a, keeps J (f a)) -> keeps J (m ≫= f).
Proof.
  intros Hm Hf w Hw. rewrite bind_state.
  specialize (Hm w Hw). destruct (fst (m w)); auto. apply Hf, Hm.
Qed.

Lemma keeps_log (e : Event) : keeps J (log e).
Proof. intros w Hw. exact Hw. Qed.

Lemma keeps_NewPublishResult : keeps J NewPublishResult.
Proof. intros w Hw. exact Hw. Qed.

Lemma keeps_write_result r sid e : keeps J (write_result r sid e).
Proof.
  intros w Hw. unfold write_result.
  destruct (ipubsub.SetPublishResult r sid e (results w)); exact Hw.
Qed.

Lemma keeps_SetPublishResult r sid e : keeps J (SetPublishResult r sid e).
Proof.
  apply keeps_bind; [apply keeps_log | intros _; apply keeps_write_result].
Qed.

Lemma keeps_topicOp {A} (f : Publisher -> outcome A * Publisher) :
  (forall t, J t -> J (snd (f t))) -> keeps J (topicOp f).
Proof. intros Hf w Hw. apply Hf, Hw. Qed.

Lemma keeps_getTopic : keeps J getTopic.
Proof. apply keeps_topicOp. auto. Qed.

Lemma keeps_for_each {A} (f : A -> M unit) (l : list A) :
  (forall x, keeps J (f x)) -> keeps J (for_each f l).
Proof.
  intros Hf. induction l as [|x l IH]; simpl.
  - apply keeps_ret.
  - apply keeps_bind; [apply Hf | intros _; exact IH].
Qed.

End Keeps.

(** Goals of the form [keeps J m] are split along the structure of [m];
    what remains is about single accesses to the publisher. *)
Ltac keeps_step :=
  first
    [ apply keeps_ret | apply keeps_panic | apply keeps_log
    | apply keeps_NewPublishResult | apply keeps_SetPublishResult
    | apply keeps_getTopic | apply keeps_for_each
    | apply keeps_bind
    | match goal with
      | |- keeps _ (match ?x with _ => _ end) => destruct x
      | |- keeps _ (let _ := _ in _) => cbv zeta
      end ].

Ltac keeps_auto := repeat (intros; keeps_step).

(** ** Stable properties: kept by every operation

    A property of the publisher is stable when it survives a change of the
    flow controller, of the stopped flag towards true, the initialisation
    of the scheduler, and every change of the scheduler that pauses no
    fewer keys; [may_resume] tells which keys may be resumed without
    breaking it. *)

Section Stable.

Context `{Env}.
Variable J : Publisher -> Prop.
Variable may_resume : string -> Prop.

Hypothesis J_flowController :
  forall t f, J t -> J (with_flowController f t).
Hypothesis J_scheduler :
  forall t s s', J t -> scheduler t = Some s ->
    Scheduler.keysWithErrors s ⊆ Scheduler.keysWithErrors s' ->
    J (with_scheduler s' t).
Hypothesis J_Resume :
  forall t s k, may_resume k -> J t -> scheduler t = Some s ->
    J (with_scheduler (Scheduler.Resume k s) t).
Hypothesis J_stopped : forall t, J t -> J (with_stopped true t).
Hypothesis J_init :
  forall t, J t -> stopped t = false -> scheduler t = None -> J (init t).

Lemma keeps_schedulerOp {A} (f : PublishScheduler -> A * PublishScheduler) :
  (forall s, Scheduler.keysWithErrors s ⊆ Scheduler.keysWithErrors (snd (f s))) ->
  keeps J (schedulerOp f).
Proof.
  intros Hf. apply keeps_topicOp. intros t Ht.
  destruct (scheduler t) as [s|] eqn:Es; simpl; [|exact Ht].
  eapply J_scheduler; eauto.
Qed.

Lemma keeps_initBundler : keeps J initBundler.
Proof.
  apply keeps_topicOp. intros t Ht. simpl. unfold initialised.
  destruct (stopped t) eqn:Est; simpl; [exact Ht|].
  case_bool_decide as Hs; [exact Ht|].
  apply J_init; auto; destruct (scheduler t); try congruence; exfalso; apply Hs; congruence.
Qed.

Lemma keeps_acquire ctx size : keeps J (flowController_acquire ctx size).
Proof.
  apply keeps_bind; [apply keeps_log|]. intros _. apply keeps_topicOp.
  intros t Ht. destruct (FlowControl.acquire ctx size (flowController t)); simpl; auto.
Qed.

Lemma keeps_release size : keeps J (flowController_release size).
Proof.
  apply keeps_bind; [apply keeps_log|]. intros _. apply keeps_topicOp.
  intros t Ht. simpl. auto.
Qed.

Lemma keeps_IsPaused k : keeps J (scheduler_IsPaused k).
Proof. apply keeps_schedulerOp. intros s. reflexivity. Qed.

Lemma keeps_Pause k : keeps J (scheduler_Pause k).
Proof.
  apply keeps_bind; [apply keeps_log|]. intros _. apply keeps_schedulerOp.
  intros s. simpl. unfold Scheduler.Pause. case_decide; simpl; set_solver.
Qed.

Lemma keeps_Add k item size : keeps J (scheduler_Add k item size).
Proof.
  apply keeps_bind; [apply keeps_log|]. intros _. apply keeps_schedulerOp.
  intros s. simpl. unfold Scheduler.Add.
  repeat match goal with |- context [if ?b then _ else _] => destruct b end;
    reflexivity.
Qed.

Lemma keeps_Resume k : may_resume k -> keeps J (scheduler_Resume k).
Proof.
  intros Hk. apply keeps_bind; [apply keeps_log|]. intros _.
  apply keeps_topicOp. intros t Ht.
  destruct (scheduler t) as [s|] eqn:Es; simpl; [|exact Ht].
  apply J_Resume; auto.
Qed.

Lemma keeps_rpc_Publish ctx req opts : keeps J (rpc_Publish ctx req opts).
Proof. intros w Hw. exact Hw. Qed.

Lemma keeps_send ctx k pbs n : keeps J (send ctx k pbs n).
Proof.
  unfold send. apply keeps_bind.
  - case_decide; [apply keeps_ret | apply keeps_IsPaused].
  - intros [|]; [apply keeps_ret|].
    apply keeps_bind; [apply keeps_getTopic|]. intros t.
    destruct (resolve_Retry _); [|apply keeps_panic].
    apply keeps_bind; [apply keeps_rpc_Publish|].
    intros [res|e]; apply keeps_ret.
Qed.

Lemma keeps_resolve_at res err i r : keeps J (resolve_at res err i r).
Proof. unfold resolve_at. keeps_auto. Qed.

Lemma keeps_distribute res err bms : forall i, keeps J (distribute res err i bms).
Proof.
  induction bms as [|bm rest IH]; intros i; simpl.
  - apply keeps_ret.
  - apply keeps_bind; [apply keeps_release|]. intros _.
    apply keeps_bind; [apply keeps_resolve_at|]. intros _. apply IH.
Qed.

Lemma keeps_publishMessageBundle ctx bms : keeps J (publishMessageBundle ctx bms).
Proof.
  unfold publishMessageBundle.
  apply keeps_bind; [apply keeps_send|]. intros sent.
  apply keeps_bind; [|intros _; apply keeps_distribute].
  destruct (sent.2); [apply keeps_Pause | apply keeps_ret].
Qed.

Lemma keeps_handler timeout bundle : keeps J (handler timeout bundle).
Proof. apply keeps_publishMessageBundle. Qed.

Lemma keeps_scheduler_Flush : keeps J scheduler_Flush.
Proof.
  unfold scheduler_Flush. apply keeps_bind.
  - apply keeps_schedulerOp. intros s. reflexivity.
  - intros job. apply keeps_for_each. intros b. apply keeps_handler.
Qed.

Lemma keeps_scheduler_FlushAndStop : keeps J scheduler_FlushAndStop.
Proof.
  unfold scheduler_FlushAndStop.
  apply keeps_bind; [apply keeps_scheduler_Flush|]. intros _.
  apply keeps_schedulerOp. intros s. reflexivity.
Qed.

Lemma keeps_worker key : keeps J (worker key).
Proof.
  unfold worker. apply keeps_bind.
  - apply keeps_schedulerOp. intros s. reflexivity.
  - intros job. destruct (job.2); [apply keeps_ret | apply keeps_handler].
Qed.

Lemma keeps_Publish ctx msg : keeps J (Publish ctx msg).
Proof.
  unfold Publish.
  pose proof keeps_initBundler. pose proof keeps_acquire.
  pose proof keeps_Pause. pose proof keeps_Add.
  repeat (intros; first [solve [auto] | keeps_step]).
Qed.

Lemma keeps_Stop : keeps J Stop.
Proof.
  unfold Stop. apply keeps_bind.
  - apply keeps_topicOp. intros t Ht. simpl. auto.
  - intros [|]; [apply keeps_ret | apply keeps_scheduler_FlushAndStop].
Qed.

Lemma keeps_Flush : keeps J Flush.
Proof.
  unfold Flush. apply keeps_bind; [apply keeps_getTopic|]. intros t.
  destruct (_ || _); [apply keeps_ret | apply keeps_scheduler_Flush].
Qed.

Lemma keeps_ResumePublish k : may_resume k -> keeps J (ResumePublish k).
Proof.
  intros Hk. unfold ResumePublish.
  apply keeps_bind; [apply keeps_getTopic|]. intros t.
  destruct (bool_decide _); [apply keeps_ret | apply keeps_Resume, Hk].
Qed.

Lemma keeps_step o : op_allowed may_resume o -> keeps J (step o).
Proof.
  destruct o; simpl; intros Ho.
  - apply keeps_bind; [apply keeps_Publish | intros; apply keeps_ret].
  - apply keeps_Stop.
  - apply keeps_Flush.
  - apply keeps_ResumePublish, Ho.
  - apply keeps_worker.
Qed.

Lemma keeps_exec ops : forall w,
  Forall (op_allowed may_resume) ops -> J (topic w) -> J (topic (exec ops w)).
Proof.
  induction ops as [|o ops IH]; intros w Hall Hw; simpl; [exact Hw|].
  inversion Hall; subst. apply IH; [assumption|].
  apply keeps_step; assumption.
Qed.

End Stable.

(** ** The bundles of a partition *)

Section Bundles.

Context {Item Handler : Type}.
Variable s : Scheduler.PublishScheduler Item Handler.

(** A bundle and what stays buffered are the partition, in order. *)
Lemma take_bundle_items (l : list (Item * Z)) : forall cnt bytes,
  (Scheduler.take_bundle s cnt bytes l).1
    ++ (fst <$> (Scheduler.take_bundle s cnt bytes l).2)
  = fst <$> l.
Proof.
  induction l as [|[x n] l IH]; intros cnt bytes; [reflexivity|].
  cbn [Scheduler.take_bundle].
  destruct ((0 <? cnt) && _); [reflexivity|].
  destruct (_ || _); [reflexivity|].
  cbn [fst snd]. rewrite fmap_cons. cbn [fst]. rewrite <- (IH (cnt + 1) (bytes + n)).
  reflexivity.
Qed.

Lemma take_bundle_rest_le (l : list (Item * Z)) : forall cnt bytes,
  (length (Scheduler.take_bundle s cnt bytes l).2 <= length l)%nat.
Proof.
  induction l as [|[x n] l IH]; intros cnt bytes; [reflexivity|].
  cbn [Scheduler.take_bundle].
  destruct ((0 <? cnt) && _); [reflexivity|].
  destruct (_ || _); cbn [snd length]; [lia|].
  specialize (IH (cnt + 1) (bytes + n)). lia.
Qed.

(** A new bundle takes at least one item. *)
Lemma take_bundle_progress (x : Item * Z) (l : list (Item * Z)) :
  (length (Scheduler.take_bundle s 0 0 (x :: l)).2 < length (x :: l))%nat.
Proof.
  destruct x as [x n]. cbn [Scheduler.take_bundle]. cbn [Z.ltb Z.compare andb].
  destruct (_ || _); cbn [snd length]; [lia|].
  pose proof (take_bundle_rest_le l (0 + 1) (0 + n)). lia.
Qed.

(** The bundles of a partition are its items, in order: a flush loses
    nothing and reorders nothing. *)
Lemma bundles_of_items (fuel : nat) : forall l : list (Item * Z),
  (length l <= fuel)%nat ->
  concat (Scheduler.bundles_of s fuel l) = fst <$> l.
Proof.
  induction fuel as [|fuel IH]; intros l Hl.
  - destruct l; [reflexivity | simpl in Hl; lia].
  - destruct l as [|x l]; [reflexivity|].
    cbn [Scheduler.bundles_of concat].
    pose proof (take_bundle_progress x l) as Hp.
    rewrite IH by (cbn [length] in Hl, Hp; lia).
    apply take_bundle_items.
Qed.

End Bundles.

(** ** The two stable properties used below *)

Lemma stopped_exec `{Env} (ops : list op) (w : World) :
  stopped (topic w) = true -> stopped (topic (exec ops w)) = true.
Proof.
  intros Hw.
  apply (keeps_exec (fun t => stopped t = true) (fun _ => True)).
  - intros t f Ht. exact Ht.
  - intros t s s' Ht _ _. exact Ht.
  - intros t s k _ Ht _. exact Ht.
  - intros t _. reflexivity.
  - intros t Ht Hf. congruence.
  - apply Forall_forall. intros [] _; exact I.
  - exact Hw.
Qed.

Lemma key_paused_inv (key : string) (t : Publisher) :
  key_paused key t = true <->
  exists s, scheduler t = Some s /\ key ∈ Scheduler.keysWithErrors s.
Proof.
  unfold key_paused, Scheduler.IsPaused. destruct (scheduler t) as [s|].
  - rewrite bool_decide_eq_true. split; [eauto|].
    intros (s' & Hs & Hk). congruence.
  - split; [discriminate | intros (s' & Hs & _); discriminate].
Qed.

Lemma key_paused_exec `{Env} (key : string) (ops : list op) (w : World) :
  forallb (fun o => negb (resumes key o)) ops = true ->
  key_paused key (topic w) = true ->
  key_paused key (topic (exec ops w)) = true.
Proof.
  intros Hops Hw.
  apply (keeps_exec (fun t => key_paused key t = true) (fun k => k ≠ key));
    [ | | | | | | exact Hw].
  - intros t f Ht. exact Ht.
  - intros t s s' Ht Hs Hsub. apply key_paused_inv in Ht as (s0 & Hs0 & Hk).
    apply key_paused_inv. exists s'. split; [reflexivity|].
    assert (s0 = s) by congruence. subst s0. set_solver.
  - intros t s k Hk Ht Hs. apply key_paused_inv in Ht as (s0 & Hs0 & Hin).
    apply key_paused_inv. eexists. split; [reflexivity|].
    assert (s0 = s) by congruence. subst s0. simpl. set_solver.
  - intros t Ht. exact Ht.
  - intros t Ht _ Hn. unfold key_paused in Ht. rewrite Hn in Ht. discriminate.
  - apply Forall_forall. intros o Ho.
    rewrite forallb_forall in Hops. specialize (Hops o).
    destruct o; simpl; auto.
    assert (Hin : In (op_ResumePublish orderingKey) ops)
      by (apply list_elem_of_In; exact Ho).
    specialize (Hops Hin). simpl in Hops.
    apply negb_true_iff, bool_decide_eq_false in Hops. exact Hops.
Qed.

(** ** Pause and resume of ordering keys *)

Lemma Add_paused {Item Handler : Type}
    (s : Scheduler.PublishScheduler Item Handler) (key : string)
    (item : Item) (size : Z) :
  Scheduler.IsPaused key s = true ->
  Scheduler.Add key item size s = (s, Some (ErrPublishingPaused key)).
Proof. intros Hp. unfold Scheduler.Add. rewrite Hp. reflexivity. Qed.

Lemma Resume_not_paused {Item Handler : Type}
    (s : Scheduler.PublishScheduler Item Handler) (key : string) :
  Scheduler.IsPaused key (Scheduler.Resume key s) = false.
Proof.
  unfold Scheduler.IsPaused, Scheduler.Resume. simpl.
  apply bool_decide_eq_false. rewrite elem_of_difference, elem_of_singleton.
  tauto.
Qed.

Lemma Pause_paused {Item Handler : Type}
    (s : Scheduler.PublishScheduler Item Handler) (key : string) :
  key ≠ "" -> Scheduler.IsPaused key (Scheduler.Pause key s) = true.
Proof.
  intros Hk. unfold Scheduler.IsPaused, Scheduler.Pause.
  case_decide; [contradiction|]. simpl.
  apply bool_decide_eq_true. set_solver.
Qed.

(** ** Bundles and their handles *)

Lemma fresh_bundle_cons h bm rest :
  fresh_bundle h (bm :: rest) = true <->
  is_pending h (bm_res bm) = true
  /\ (bm_res bm ∉ bm_res <$> rest)
  /\ fresh_bundle h rest = true.
Proof.
  unfold fresh_bundle. simpl.
  rewrite !andb_true_iff, !bool_decide_eq_true, NoDup_cons. tauto.
Qed.

Lemma fresh_bundle_NoDup h bms :
  fresh_bundle h bms = true -> NoDup (bm_res <$> bms).
Proof.
  unfold fresh_bundle. rewrite andb_true_iff, bool_decide_eq_true. tauto.
Qed.

Lemma is_pending_insert_ne h r r' p :
  r ≠ r' -> is_pending (<[r := p]> h) r' = is_pending h r'.
Proof. intros Hne. unfold is_pending. rewrite lookup_insert_ne; auto. Qed.

Lemma fresh_bundle_insert h r p rest :
  r ∉ (bm_res <$> rest) ->
  fresh_bundle (<[r := p]> h) rest = fresh_bundle h rest.
Proof.
  intros Hr. unfold fresh_bundle. f_equal.
  induction rest as [|bm rest IH]; simpl; [reflexivity|].
  rewrite fmap_cons, not_elem_of_cons in Hr. destruct Hr as [Hne Hr].
  rewrite is_pending_insert_ne by exact Hne. f_equal. apply IH, Hr.
Qed.

(** ** Single steps, run on an explicit state *)

Lemma release_run size w :
  flowController_release size w =
  (Returned tt,
   {| topic := with_flowController
                 (FlowControl.release size (flowController (topic w))) (topic w);
      results := results w;
      calls := calls w ++ [call_release size] |}).
Proof. reflexivity. Qed.

Lemma SetPublishResult_run r sid e w :
  is_pending (results w) r = true ->
  SetPublishResult r sid e w =
  (Returned tt,
   {| topic := topic w;
      results := <[r := ipubsub.resolved sid e]> (results w);
      calls := calls w ++ [call_SetPublishResult r sid e] |}).
Proof.
  intros Hp. unfold SetPublishResult, write_result, log. rewrite bind_run.
  simpl. unfold ipubsub.SetPublishResult, is_pending in *.
  destruct (results w !! r) as [p|]; [|discriminate].
  destruct (ipubsub.ready p); [discriminate|]. reflexivity.
Qed.

(** Whatever it does, [SetPublishResult] touches no other handle. *)
Lemma SetPublishResult_frame r sid e w r' :
  r' ≠ r -> results (snd (SetPublishResult r sid e w)) !! r' = results w !! r'.
Proof.
  intros Hne. unfold SetPublishResult, write_result, log. rewrite bind_run.
  simpl. unfold ipubsub.SetPublishResult.
  destruct (results w !! r) as [p|]; [|reflexivity].
  destruct (ipubsub.ready p); [reflexivity|]. simpl.
  apply lookup_insert_ne. congruence.
Qed.

Lemma Pause_run k w s :
  scheduler (topic w) = Some s ->
  scheduler_Pause k w =
  (Returned tt,
   {| topic := with_scheduler (Scheduler.Pause k s) (topic w);
      results := results w;
      calls := calls w ++ [call_Pause k] |}).
Proof.
  intros Hs. unfold scheduler_Pause, schedulerOp, topicOp, log.
  rewrite bind_run. simpl. rewrite Hs. reflexivity.
Qed.

Section Distribute.

Context `{Env}.
Variable res : option PublishResponse.
Variable err : option error.

Lemma resolve_at_run i r w :
  is_pending (results w) r = true ->
  answered res err (S i) = true ->
  resolve_at res err i r w =
  (Returned tt,
   {| topic := topic w;
      results := <[r := ipubsub.resolved (written res err i).1
                                         (written res err i).2]> (results w);
      calls := calls w ++ [call_SetPublishResult r (written res err i).1
                                                 (written res err i).2] |}).
Proof.
  intros Hp Ha. unfold resolve_at, written, answered in *.
  destruct err as [e|]; [apply SetPublishResult_run, Hp|].
  destruct res as [rs|]; [|discriminate].
  apply bool_decide_eq_true in Ha.
  destruct (lookup_lt_is_Some_2 (MessageIds rs) i) as [id Hid]; [lia|].
  simpl. rewrite Hid. simpl. apply SetPublishResult_run, Hp.
Qed.

Lemma resolve_at_frame i r w r' :
  r' ≠ r -> results (snd (resolve_at res err i r w)) !! r' = results w !! r'.
Proof.
  intros Hne. unfold resolve_at.
  destruct err; [apply SetPublishResult_frame, Hne|].
  destruct res as [rs|]; [|reflexivity].
  destruct (MessageIds rs !! i); [apply SetPublishResult_frame, Hne|reflexivity].
Qed.

Lemma answered_le n m :
  (n <= m)%nat -> answered res err m = true -> answered res err n = true.
Proof.
  unfold answered. destruct err; [auto|]. destruct res; [|auto].
  rewrite !bool_decide_eq_true. lia.
Qed.

(** The last loop on a fresh bundle that the attempt answers for. *)
Lemma distribute_run bms : forall i w,
  fresh_bundle (results w) bms = true ->
  answered res err (i + length bms) = true ->
  distribute res err i bms w =
  (Returned tt,
   {| topic := with_flowController
                 (released bms (flowController (topic w))) (topic w);
      results := distribute_results res err i bms (results w);
      calls := calls w ++ distribute_calls res err i bms |}).
Proof.
  induction bms as [|bm rest IH]; intros i w Hf Ha.
  - simpl. destruct w as [[] h c]. simpl. rewrite app_nil_r. reflexivity.
  - apply fresh_bundle_cons in Hf as (Hp & Hnin & Hf).
    cbn [distribute].
    rewrite (bind_returned _ _ _ _ _ (release_run _ _)).
    erewrite bind_returned; cycle 1.
    { apply resolve_at_run; [exact Hp|].
      eapply answered_le; [|exact Ha]. simpl. lia. }
    rewrite IH; cycle 1.
    { simpl. rewrite fresh_bundle_insert; assumption. }
    { eapply answered_le; [|exact Ha]. simpl. lia. }
    simpl. rewrite <- !app_assoc. reflexivity.
Qed.

(** Handles outside the bundle are never touched. *)
Lemma distribute_frame bms : forall i w r,
  r ∉ (bm_res <$> bms) ->
  results (snd (distribute res err i bms w)) !! r = results w !! r.
Proof.
  induction bms as [|bm rest IH]; intros i w r Hr; [reflexivity|].
  rewrite fmap_cons, not_elem_of_cons in Hr. destruct Hr as [Hne Hr].
  cbn [distribute].
  rewrite (bind_returned _ _ _ _ _ (release_run _ _)).
  rewrite bind_state.
  match goal with |- context [resolve_at res err i (bm_res bm) ?w1] =>
    pose proof (resolve_at_frame i (bm_res bm) w1 r Hne) as Hfr;
    destruct (resolve_at res err i (bm_res bm) w1) as [[[]| |] w2]
  end; simpl in *; try exact Hfr.
  rewrite IH by exact Hr. exact Hfr.
Qed.

Lemma distribute_results_frame bms : forall i h r,
  r ∉ (bm_res <$> bms) -> distribute_results res err i bms h !! r = h !! r.
Proof.
  induction bms as [|bm rest IH]; intros i h r Hr; [reflexivity|].
  rewrite fmap_cons, not_elem_of_cons in Hr. destruct Hr as [Hne Hr].
  simpl. rewrite IH by exact Hr. apply lookup_insert_ne. congruence.
Qed.

Lemma distribute_results_lookup bms : forall i h j bm,
  NoDup (bm_res <$> bms) ->
  bms !! j = Some bm ->
  distribute_results res err i bms h !! bm_res bm =
  Some (ipubsub.resolved (written res err (i + j)).1 (written res err (i + j)).2).
Proof.
  induction bms as [|bm0 rest IH]; intros i h j bm Hnd Hj; [discriminate|].
  rewrite fmap_cons in Hnd. apply NoDup_cons in Hnd as [Hnin Hnd].
  destruct j as [|j]; simpl in Hj.
  - injection Hj as ->. simpl.
    rewrite distribute_results_frame by exact Hnin.
    rewrite lookup_insert_eq. rewrite Nat.add_0_r. reflexivity.
  - simpl. rewrite (IH (S i) _ j bm Hnd Hj).
    replace (S i + j)%nat with (i + S j)%nat by lia. reflexivity.
Qed.

Lemma distribute_calls_releases bms : forall i,
  filter is_release (distribute_calls res err i bms)
  = call_release <$> (bm_size <$> bms).
Proof.
  induction bms as [|bm rest IH]; intros i; [reflexivity|].
  simpl. rewrite filter_cons_True by reflexivity.
  rewrite filter_cons_False by (simpl; auto). f_equal. apply IH.
Qed.

End Distribute.

Lemma released_counters bms : forall f,
  FlowControl.countOutstanding (released bms f)
    = FlowControl.countOutstanding f - Z.of_nat (length bms)
  /\ FlowControl.bytesOutstanding (released bms f)
    = FlowControl.bytesOutstanding f - sum_sizes bms
  /\ FlowControl.settings (released bms f) = FlowControl.settings f.
Proof.
  induction bms as [|bm rest IH]; intros f.
  - unfold sum_sizes. simpl. repeat split; lia.
  - change (released (bm :: rest) f)
      with (released rest (FlowControl.release (bm_size bm) f)).
    destruct (IH (FlowControl.release (bm_size bm) f)) as (Hc & Hb & Hs).
    rewrite Hc, Hb, Hs.
    change (sum_sizes (bm :: rest)) with (bm_size bm + sum_sizes rest).
    cbn [length]. rewrite Nat2Z.inj_succ.
    unfold FlowControl.release.
    cbn [FlowControl.countOutstanding FlowControl.bytesOutstanding
         FlowControl.settings].
    repeat split; lia.
Qed.

(** ** The attempt *)

Lemma with_scheduler_id t s : scheduler t = Some s -> with_scheduler s t = t.
Proof. destruct t. simpl. intros ->. reflexivity. Qed.

Lemma World_eta w :
  {| topic := topic w; results := results w; calls := calls w |} = w.
Proof. destruct w. reflexivity. Qed.

Section Send.

Context `{Env}.

(** [send] changes nothing but the log, to which it adds at most the one
    request. *)
Lemma send_effect ctx k pbs n w :
  topic (snd (send ctx k pbs n w)) = topic w
  /\ results (snd (send ctx k pbs n w)) = results w
  /\ (calls (snd (send ctx k pbs n w)) = calls w
      \/ exists d,
           resolve_Retry (pubc_CallOptions_Publish (topic w)) = Some d
           /\ calls (snd (send ctx k pbs n w))
              = calls w ++ [call_Publish {| Topic := name (topic w); Messages := pbs |}
                                         (gaxOpts_of (topic w) d n)]).
Proof.
  unfold send. rewrite bind_run.
  assert (Hsplit :
    (if decide (k = "") then mret false else scheduler_IsPaused k) w
      = (Returned false, w)
    \/ (if decide (k = "") then mret false else scheduler_IsPaused k) w
      = (Returned true, w)
    \/ (exists why, (if decide (k = "") then mret false else scheduler_IsPaused k) w
      = (Panicked why, w))).
  { case_decide; [left; reflexivity|].
    unfold scheduler_IsPaused, schedulerOp, topicOp. simpl.
    destruct (scheduler (topic w)) as [s|] eqn:Es; simpl.
    - rewrite (with_scheduler_id _ _ Es), World_eta.
      destruct (Scheduler.IsPaused k s); auto.
    - rewrite World_eta. right. right. eauto. }
  destruct Hsplit as [-> | [-> | [why ->]]]; simpl; auto.
  unfold getTopic, topicOp. rewrite bind_run. simpl. rewrite World_eta.
  destruct (resolve_Retry (pubc_CallOptions_Publish (topic w))) as [d|] eqn:Ed;
    simpl; auto.
  rewrite bind_run. unfold rpc_Publish.
  destruct (pubc_Publish _ _ _ _); simpl; repeat split; right; exists d; auto.
Qed.

(** An attempt without error carries the response. *)
Lemma send_ok_response ctx k pbs n w res w1 :
  send ctx k pbs n w = (Returned (res, None), w1) -> exists rs, res = Some rs.
Proof.
  unfold send. rewrite bind_run.
  destruct ((if decide (k = "") then mret false else scheduler_IsPaused k) w)
    as [[[|]| |] w0]; try discriminate.
  unfold getTopic, topicOp. rewrite bind_run. simpl.
  destruct (resolve_Retry _); [|discriminate].
  rewrite bind_run. unfold rpc_Publish.
  destruct (pubc_Publish _ _ _ _); simpl; intros [= <- <-]; eauto.
Qed.

(** Why an attempt ends with an error: the key is paused and nothing was
    sent, or the request was sent and the RPC failed. *)
Lemma send_error_cases ctx k pbs n w res e w1 :
  send ctx k pbs n w = (Returned (res, Some e), w1) ->
  (k ≠ "" /\ key_paused k (topic w) = true
   /\ e = ErrPublishingPaused k /\ calls w1 = calls w)
  \/ (exists d,
        resolve_Retry (pubc_CallOptions_Publish (topic w)) = Some d
        /\ pubc_Publish (calls w) ctx {| Topic := name (topic w); Messages := pbs |}
             (gaxOpts_of (topic w) d n) = rpc_err e).
Proof.
  unfold send. rewrite bind_run.
  case_decide as Hk.
  - simpl. unfold getTopic, topicOp. rewrite bind_run. simpl.
    destruct (resolve_Retry _) as [d|]; [|discriminate].
    rewrite bind_run. unfold rpc_Publish.
    destruct (pubc_Publish _ _ _ _) eqn:Er; simpl; intros [= <- <-].
    right. exists d. split; [reflexivity|].
    rewrite World_eta in Er. exact Er.
  - unfold scheduler_IsPaused, schedulerOp, topicOp. simpl.
    destruct (scheduler (topic w)) as [s|] eqn:Es; [|discriminate]. simpl.
    rewrite (with_scheduler_id _ _ Es), World_eta.
    destruct (Scheduler.IsPaused k s) eqn:Ep.
    + intros [= <- <- <-]. left. unfold key_paused. rewrite Es. auto.
    + unfold getTopic, topicOp. rewrite bind_run. simpl. rewrite World_eta.
      destruct (resolve_Retry _) as [d|]; [|discriminate].
      rewrite bind_run. unfold rpc_Publish.
      destruct (pubc_Publish _ _ _ _) eqn:Er; simpl; intros [= <- <-].
      right. exists d. auto.
Qed.

End Send.

(** ** One bundle through the pipeline *)

Section Bundle.

Context `{Env}.

(** On a successful attempt every handle whose identifier is in the
    response gets it, also when the response is too short and the loop
    panics further on. *)
Lemma distribute_positional rs bms : forall i w j bm id,
  fresh_bundle (results w) bms = true ->
  bms !! j = Some bm ->
  MessageIds rs !! (i + j)%nat = Some id ->
  results (snd (distribute (Some rs) None i bms w)) !! bm_res bm
  = Some (ipubsub.resolved id None).
Proof.
  induction bms as [|bm0 rest IH]; intros i w j bm id Hf Hj Hid; [discriminate|].
  apply fresh_bundle_cons in Hf as (Hp & Hnin & Hf).
  assert (Hi : is_Some (MessageIds rs !! i)).
  { apply lookup_lt_is_Some. apply lookup_lt_Some in Hid. lia. }
  destruct Hi as [id0 Hid0].
  cbn [distribute].
  rewrite (bind_returned _ _ _ _ _ (release_run _ _)).
  unfold resolve_at. rewrite Hid0.
  erewrite bind_returned; [|apply SetPublishResult_run; exact Hp].
  destruct j as [|j]; simpl in Hj.
  - injection Hj as ->. rewrite Nat.add_0_r in Hid.
    assert (id0 = id) by congruence. subst id0.
    rewrite distribute_frame by exact Hnin. simpl. apply lookup_insert_eq.
  - apply (IH (S i) _ j bm id); [|exact Hj|].
    + simpl. rewrite fresh_bundle_insert; assumption.
    + rewrite <- Hid. f_equal. lia.
Qed.

Lemma publishMessageBundle_run ctx bms w res err w1 :
  send ctx (orderingKey_of bms) (pbMsgs_of bms) (batchSize_of bms) w
    = (Returned (res, err), w1) ->
  fresh_bundle (results w) bms = true ->
  answered res err (length bms) = true ->
  match err with
  | Some _ =>
      forall s, scheduler (topic w) = Some s ->
      publishMessageBundle ctx bms w =
      (Returned tt,
       {| topic :=
            with_flowController (released bms (flowController (topic w)))
              (with_scheduler (Scheduler.Pause (orderingKey_of bms) s) (topic w));
          results := distribute_results res err 0 bms (results w);
          calls := (calls w1 ++ [call_Pause (orderingKey_of bms)])
                   ++ distribute_calls res err 0 bms |})
  | None =>
      publishMessageBundle ctx bms w =
      (Returned tt,
       {| topic :=
            with_flowController (released bms (flowController (topic w))) (topic w);
          results := distribute_results res err 0 bms (results w);
          calls := calls w1 ++ distribute_calls res err 0 bms |})
  end.
Proof.
  intros Hsend Hf Ha.
  pose proof (send_effect ctx (orderingKey_of bms) (pbMsgs_of bms)
                (batchSize_of bms) w) as (Ht & Hr & _).
  rewrite Hsend in Ht, Hr. simpl in Ht, Hr.
  unfold publishMessageBundle. cbv zeta.
  rewrite (bind_returned _ _ _ _ _ Hsend). cbn [fst snd].
  destruct err as [e|].
  - intros s Hs.
    erewrite bind_returned; [|apply Pause_run; rewrite Ht; exact Hs].
    rewrite distribute_run; [|simpl; rewrite Hr; exact Hf|exact Ha].
    simpl. rewrite Ht, Hr. reflexivity.
  - rewrite bind_run. simpl.
    rewrite distribute_run; [|rewrite Hr; exact Hf|exact Ha].
    rewrite Ht, Hr. reflexivity.
Qed.

Lemma send_calls_prefix ctx k pbs n w :
  exists l, calls (snd (send ctx k pbs n w)) = calls w ++ l
            /\ filter is_release l = [] /\ filter is_acquire l = [].
Proof.
  destruct (send_effect ctx k pbs n w) as (_ & _ & [-> | (d & _ & ->)]).
  - exists []. rewrite app_nil_r. auto.
  - eexists. split; [reflexivity|]. split; reflexivity.
Qed.

End Bundle.

Lemma orderingKey_of_last `{Env} (bms : list bundledMessage) :
  orderingKey_of bms = default "" (OrderingKey ∘ bm_msg <$> last bms).
Proof.
  unfold orderingKey_of, encode.
  induction bms as [|bm rest IH] using rev_ind; [reflexivity|].
  rewrite fold_left_app, last_snoc. reflexivity.
Qed.

(** C1. When the attempt for a dispatched bundle ends with an error (the
    pre-send check found the key paused, or the RPC failed for good),
    [publishMessageBundle] returns, every handle of the bundle is resolved
    with that same error and no identifier, [Pause] was called on the
    bundle's ordering key, and that key, when there is one, is paused. *)
Theorem C1_failed_bundle_resolves_all_and_pauses `{Env}
    (ctx : Context) (bms : list bundledMessage) (w w1 : World)
    (s : PublishScheduler) (res : option PublishResponse) (e : error) :
  scheduler (topic w) = Some s ->
  fresh_bundle (results w) bms = true ->
  send ctx (orderingKey_of bms) (pbMsgs_of bms) (batchSize_of bms) w
    = (Returned (res, Some e), w1) ->
  exists w',
    publishMessageBundle ctx bms w = (Returned tt, w')
    /\ (forall bm, bm ∈ bms ->
          ipubsub.Get (bm_res bm) (results w') = Some ("", Some e))
    /\ call_Pause (orderingKey_of bms) ∈ new_calls w w'
    /\ (orderingKey_of bms ≠ "" ->
          key_paused (orderingKey_of bms) (topic w') = true).
Proof.
  intros Hs Hf Hsend.
  pose proof (publishMessageBundle_run ctx bms w res (Some e) w1 Hsend Hf eq_refl s Hs)
    as Hrun.
  eexists. split; [exact Hrun|]. cbn [results topic calls]. split; [|split].
  - intros bm Hbm. apply list_elem_of_lookup in Hbm as [j Hj].
    unfold ipubsub.Get.
    rewrite (distribute_results_lookup res (Some e) bms 0 _ j bm
               (fresh_bundle_NoDup _ _ Hf) Hj).
    reflexivity.
  - destruct (send_calls_prefix ctx (orderingKey_of bms) (pbMsgs_of bms)
                (batchSize_of bms) w) as (l & Hl & _).
    rewrite Hsend in Hl. simpl in Hl. unfold new_calls. cbn [calls].
    rewrite Hl, <- !app_assoc, drop_app_length.
    rewrite !elem_of_app, elem_of_cons. auto.
  - intros Hk. unfold key_paused. simpl. apply Pause_paused, Hk.
Qed.

(** C2. For a dispatched bundle whose attempt ends, with an error or with
    a response that has an identifier for every message,
    [publishMessageBundle] returns, and the releases it made on the flow
    controller are, in order, exactly one per message of the bundle with
    that message's size; the outstanding count went down by the number
    of messages and the outstanding bytes by the sum of their sizes. *)
Theorem C2_release_once_per_message `{Env}
    (ctx : Context) (bms : list bundledMessage) (w w1 : World)
    (s : PublishScheduler) (res : option PublishResponse) (err : option error) :
  scheduler (topic w) = Some s ->
  fresh_bundle (results w) bms = true ->
  send ctx (orderingKey_of bms) (pbMsgs_of bms) (batchSize_of bms) w
    = (Returned (res, err), w1) ->
  answered res err (length bms) = true ->
  exists w',
    publishMessageBundle ctx bms w = (Returned tt, w')
    /\ filter is_release (new_calls w w') = call_release <$> (bm_size <$> bms)
    /\ FlowControl.countOutstanding (flowController (topic w'))
       = FlowControl.countOutstanding (flowController (topic w))
         - Z.of_nat (length bms)
    /\ FlowControl.bytesOutstanding (flowController (topic w'))
       = FlowControl.bytesOutstanding (flowController (topic w)) - sum_sizes bms.
Proof.
  intros Hs Hf Hsend Ha.
  pose proof (publishMessageBundle_run ctx bms w res err w1 Hsend Hf Ha) as Hrun.
  destruct (send_calls_prefix ctx (orderingKey_of bms) (pbMsgs_of bms)
              (batchSize_of bms) w) as (l & Hl & Hrel & _).
  rewrite Hsend in Hl. simpl in Hl.
  destruct (released_counters bms (flowController (topic w))) as (Hc & Hb & _).
  destruct err as [e|].
  - specialize (Hrun s Hs). eexists. split; [exact Hrun|].
    unfold new_calls. cbn [calls topic flowController with_flowController].
    rewrite Hl, <- !app_assoc, drop_app_length.
    rewrite !filter_app, Hrel, distribute_calls_releases. auto.
  - eexists. split; [exact Hrun|].
    unfold new_calls. cbn [calls topic flowController with_flowController].
    rewrite Hl, <- !app_assoc, drop_app_length.
    rewrite !filter_app, Hrel, distribute_calls_releases. auto.
Qed.

(** C4. When the RPC for a dispatched bundle succeeds, the handle of the
    i-th message is resolved with the i-th identifier of the response and
    no error, for every i for which the response has an identifier; when
    the response has one for every message, [publishMessageBundle]
    returns and the handles, read in submission order, carry the
    identifiers in the order of the response. *)
Theorem C4_ids_matched_by_position `{Env}
    (ctx : Context) (bms : list bundledMessage) (w w1 : World)
    (rs : PublishResponse) :
  fresh_bundle (results w) bms = true ->
  send ctx (orderingKey_of bms) (pbMsgs_of bms) (batchSize_of bms) w
    = (Returned (Some rs, None), w1) ->
  (forall i bm id,
     bms !! i = Some bm -> MessageIds rs !! i = Some id ->
     ipubsub.Get (bm_res bm) (results (snd (publishMessageBundle ctx bms w)))
     = Some (id, None))
  /\ ((length bms <= length (MessageIds rs))%nat ->
      fst (publishMessageBundle ctx bms w) = Returned tt
      /\ (fun bm => ipubsub.Get (bm_res bm)
                      (results (snd (publishMessageBundle ctx bms w)))) <$> bms
         = (fun id => Some (id, None)) <$> take (length bms) (MessageIds rs)).
Proof.
  intros Hf Hsend.
  assert (Hpos : forall i bm id,
     bms !! i = Some bm -> MessageIds rs !! i = Some id ->
     ipubsub.Get (bm_res bm) (results (snd (publishMessageBundle ctx bms w)))
     = Some (id, None)).
  { intros i bm id Hi Hid.
    pose proof (send_effect ctx (orderingKey_of bms) (pbMsgs_of bms)
                  (batchSize_of bms) w) as (_ & Hr & _).
    rewrite Hsend in Hr. simpl in Hr.
    unfold publishMessageBundle. cbv zeta.
    rewrite (bind_returned _ _ _ _ _ Hsend). cbn [fst snd].
    rewrite bind_run. cbn [mret M_ret].
    unfold ipubsub.Get.
    rewrite (distribute_positional rs bms 0 w1 i bm id); auto.
    rewrite Hr. exact Hf. }
  split; [exact Hpos|]. intros Hlen. split.
  - pose proof (publishMessageBundle_run ctx bms w (Some rs) None w1 Hsend Hf) as Hrun.
    simpl in Hrun. rewrite Hrun; [reflexivity|].
    apply bool_decide_eq_true. exact Hlen.
  - apply list_eq. intros i. rewrite !list_lookup_fmap.
    destruct (bms !! i) as [bm|] eqn:Hi; simpl.
    + pose proof (lookup_lt_Some _ _ _ Hi) as Hlt.
      rewrite lookup_take_lt by exact Hlt.
      destruct (lookup_lt_is_Some_2 (MessageIds rs) i) as [id Hid]; [lia|].
      rewrite Hid. simpl. f_equal. apply (Hpos i bm id Hi Hid).
    + apply lookup_ge_None in Hi. rewrite lookup_take_ge by exact Hi.
      reflexivity.
Qed.

(** The sample bundle is what a worker takes after the two sample messages
    were published. *)
Example sample_bundle_dispatched :
  let E := Sample.env Sample.accepting in
  (fun s => (Scheduler.next_bundle "k" s).1) <$> scheduler (topic (@Sample.buffered E))
  = Some Sample.bundle.
Proof. vm_compute. reflexivity. Qed.

(** The two buffered messages of key "k" against a server that is unavailable. *)
Lemma C1_witness :
  let E := Sample.env Sample.unavailable in
  let w := @Sample.buffered E in
  fresh_bundle (results w) Sample.bundle = true
  /\ exists w',
       @publishMessageBundle E Sample.ctx Sample.bundle w = (Returned tt, w')
       /\ (forall bm, bm ∈ Sample.bundle ->
             ipubsub.Get (bm_res bm) (results w')
             = Some ("", Some (ErrRPC "Unavailable")))
       /\ call_Pause (@orderingKey_of E Sample.bundle) ∈ new_calls w w'
       /\ (@orderingKey_of E Sample.bundle ≠ "" ->
             key_paused (@orderingKey_of E Sample.bundle) (topic w') = true).
Proof.
  intros E w. split; [vm_compute; reflexivity|].
  destruct (scheduler (topic w)) as [s|] eqn:Es;
    [|vm_compute in Es; discriminate].
  apply (@C1_failed_bundle_resolves_all_and_pauses E Sample.ctx Sample.bundle w
           (snd (@send E Sample.ctx (@orderingKey_of E Sample.bundle)
                   (@pbMsgs_of E Sample.bundle) (@batchSize_of E Sample.bundle) w))
           s None (ErrRPC "Unavailable") Es);
    vm_compute; reflexivity.
Defined.

(** ** Publish *)

Lemma fresh_unused (h : gmap nat ipubsub.PublishResult) :
  h !! ipubsub.fresh h = None.
Proof. apply not_elem_of_dom. unfold ipubsub.fresh. apply is_fresh. Qed.

Lemma SetPublishResult_new r sid e t h c :
  SetPublishResult r sid e
    {| topic := t; results := <[r := ipubsub.pending]> h; calls := c |}
  = (Returned tt,
     {| topic := t; results := <[r := ipubsub.resolved sid e]> h;
        calls := c ++ [call_SetPublishResult r sid e] |}).
Proof.
  rewrite SetPublishResult_run.
  - simpl. rewrite insert_insert_eq. reflexivity.
  - unfold is_pending. simpl. rewrite lookup_insert_eq. reflexivity.
Qed.

Lemma getTopic_run w : getTopic w = (Returned (topic w), w).
Proof. unfold getTopic, topicOp. simpl. rewrite World_eta. reflexivity. Qed.

Section PublishPaths.

Context `{Env}.

Lemma initBundler_run w :
  initBundler w
  = (Returned tt,
     {| topic := initialised (topic w); results := results w; calls := calls w |}).
Proof. reflexivity. Qed.

(** An ordering key without message ordering: the handle is resolved with
    the ordering error and nothing else happens. *)
Lemma Publish_ordering_violated ctx msg w :
  ordering_violated (topic w) msg = true ->
  Publish ctx msg w
  = (Returned (ipubsub.fresh (results w)),
     rejected_at_once errTopicOrderingNotEnabled w).
Proof.
  intros Hv. unfold Publish. rewrite bind_run.
  unfold NewPublishResult, ipubsub.NewPublishResult. cbn [fst snd].
  unfold getTopic, topicOp. rewrite bind_run. cbn [fst snd topic results calls].
  unfold ordering_violated in Hv. rewrite Hv.
  rewrite bind_run, SetPublishResult_new. reflexivity.
Qed.

Lemma initialised_stopped t : stopped (initialised t) = stopped t.
Proof. unfold initialised. destruct (_ || _); reflexivity. Qed.

Lemma initialised_scheduler t :
  stopped t = false -> exists s, scheduler (initialised t) = Some s.
Proof.
  intros Hs. unfold initialised. rewrite Hs. simpl.
  case_bool_decide as Hn; [|simpl; eauto].
  destruct (scheduler t); [eauto | congruence].
Qed.

Lemma initialised_of_stopped t : stopped t = true -> initialised t = t.
Proof. intros Hs. unfold initialised. rewrite Hs. reflexivity. Qed.

(** [Publish] up to the stopped check. *)
Lemma Publish_past_ordering ctx msg w :
  ordering_violated (topic w) msg = false ->
  Publish ctx msg w =
  let r := ipubsub.fresh (results w) in
  let w1 := {| topic := initialised (topic w);
               results := <[r := ipubsub.pending]> (results w);
               calls := calls w |} in
  if stopped (topic w) then
    (SetPublishResult r "" (Some ErrTopicStopped);; mret r) w1
  else
    (e ← flowController_acquire ctx (proto_Size (toPb msg));
     match e with
     | Some e =>
         scheduler_Pause (OrderingKey msg);;
         SetPublishResult r "" (Some e);;
         mret r
     | None =>
         e ← scheduler_Add (OrderingKey msg)
               {| bm_msg := msg; bm_res := r; bm_size := proto_Size (toPb msg) |}
               (proto_Size (toPb msg));
         match e with
         | Some e =>
             scheduler_Pause (OrderingKey msg);;
             SetPublishResult r "" (Some e)
         | None => mret tt
         end;;
         mret r
     end) w1.
Proof.
  intros Hv. unfold Publish. rewrite bind_run.
  unfold NewPublishResult, ipubsub.NewPublishResult. cbn [fst snd].
  rewrite (bind_returned _ _ _ _ _ (getTopic_run _)).
  cbn [topic results calls].
  unfold ordering_violated in Hv. rewrite Hv.
  rewrite (bind_returned _ _ _ _ _ (initBundler_run _)).
  rewrite (bind_returned _ _ _ _ _ (getTopic_run _)).
  cbn [topic results calls].
  rewrite initialised_stopped. cbv zeta.
  destruct (stopped (topic w)); reflexivity.
Qed.

(** After [Stop]: the handle is resolved with the stopped error and nothing
    else happens. *)
Lemma Publish_stopped ctx msg w :
  ordering_violated (topic w) msg = false ->
  stopped (topic w) = true ->
  Publish ctx msg w
  = (Returned (ipubsub.fresh (results w)), rejected_at_once ErrTopicStopped w).
Proof.
  intros Hv Hs. rewrite Publish_past_ordering by exact Hv. cbv zeta.
  rewrite Hs, (initialised_of_stopped _ Hs).
  rewrite bind_run, SetPublishResult_new. reflexivity.
Qed.

(** The flow controller rejects the message. *)
Lemma Publish_acquire_rejected ctx msg w s e :
  ordering_violated (topic w) msg = false ->
  stopped (topic w) = false ->
  scheduler (initialised (topic w)) = Some s ->
  FlowControl.acquire ctx (proto_Size (toPb msg))
    (flowController (initialised (topic w))) = FlowControl.Rejected e ->
  Publish ctx msg w
  = (Returned (ipubsub.fresh (results w)),
     {| topic := with_scheduler (Scheduler.Pause (OrderingKey msg) s)
                   (initialised (topic w));
        results := <[ipubsub.fresh (results w) := ipubsub.resolved "" (Some e)]>
                     (results w);
        calls := calls w ++ [call_acquire (proto_Size (toPb msg));
                             call_Pause (OrderingKey msg);
                             call_SetPublishResult (ipubsub.fresh (results w)) ""
                               (Some e)] |}).
Proof.
  intros Hv Hs Hsch Hacq. rewrite Publish_past_ordering by exact Hv. cbv zeta.
  rewrite Hs. rewrite bind_run.
  unfold flowController_acquire, log. rewrite bind_run.
  unfold topicOp at 1. cbn [fst snd topic results calls].
  rewrite Hacq. cbn [fst snd].
  erewrite bind_returned; [|apply Pause_run; exact Hsch].
  rewrite bind_run. cbn [topic results calls].
  rewrite SetPublishResult_new. cbn [mret M_ret].
  rewrite <- !app_assoc. reflexivity.
Qed.

(** The flow controller admits the message and the scheduler rejects it. *)
Lemma Publish_Add_rejected ctx msg w s f e :
  ordering_violated (topic w) msg = false ->
  stopped (topic w) = false ->
  scheduler (initialised (topic w)) = Some s ->
  FlowControl.acquire ctx (proto_Size (toPb msg))
    (flowController (initialised (topic w))) = FlowControl.Granted f ->
  snd (Scheduler.Add (OrderingKey msg)
         {| bm_msg := msg; bm_res := ipubsub.fresh (results w);
            bm_size := proto_Size (toPb msg) |}
         (proto_Size (toPb msg)) s) = Some e ->
  Publish ctx msg w
  = (Returned (ipubsub.fresh (results w)),
     {| topic :=
          with_scheduler
            (Scheduler.Pause (OrderingKey msg)
               (fst (Scheduler.Add (OrderingKey msg)
                       {| bm_msg := msg; bm_res := ipubsub.fresh (results w);
                          bm_size := proto_Size (toPb msg) |}
                       (proto_Size (toPb msg)) s)))
            (with_flowController f (initialised (topic w)));
        results := <[ipubsub.fresh (results w) := ipubsub.resolved "" (Some e)]>
                     (results w);
        calls := calls w ++ [call_acquire (proto_Size (toPb msg));
                             call_Add (OrderingKey msg)
                               {| bm_msg := msg; bm_res := ipubsub.fresh (results w);
                                  bm_size := proto_Size (toPb msg) |}
                               (proto_Size (toPb msg));
                             call_Pause (OrderingKey msg);
                             call_SetPublishResult (ipubsub.fresh (results w)) ""
                               (Some e)] |}).
Proof.
  intros Hv Hs Hsch Hacq Hadd. rewrite Publish_past_ordering by exact Hv. cbv zeta.
  rewrite Hs. rewrite bind_run.
  unfold flowController_acquire, log. rewrite bind_run.
  unfold topicOp at 1. cbn [fst snd topic results calls].
  rewrite Hacq. cbn [fst snd].
  rewrite bind_run. unfold scheduler_Add, log. rewrite bind_run.
  unfold schedulerOp, topicOp. cbn [fst snd topic results calls].
  cbn [scheduler with_flowController]. rewrite Hsch. cbn [fst snd].
  rewrite Hadd. rewrite bind_run.
  erewrite bind_returned; [|apply Pause_run; reflexivity].
  cbn [topic results calls].
  rewrite SetPublishResult_new. cbn [mret M_ret].
  rewrite <- !app_assoc. reflexivity.
Qed.

(** The message is admitted: it is counted by the flow controller and
    buffered, and its handle stays pending. *)
Lemma Publish_admitted ctx msg w s f :
  ordering_violated (topic w) msg = false ->
  stopped (topic w) = false ->
  scheduler (initialised (topic w)) = Some s ->
  FlowControl.acquire ctx (proto_Size (toPb msg))
    (flowController (initialised (topic w))) = FlowControl.Granted f ->
  snd (Scheduler.Add (OrderingKey msg)
         {| bm_msg := msg; bm_res := ipubsub.fresh (results w);
            bm_size := proto_Size (toPb msg) |}
         (proto_Size (toPb msg)) s) = None ->
  Publish ctx msg w
  = (Returned (ipubsub.fresh (results w)),
     {| topic :=
          with_scheduler
            (fst (Scheduler.Add (OrderingKey msg)
                    {| bm_msg := msg; bm_res := ipubsub.fresh (results w);
                       bm_size := proto_Size (toPb msg) |}
                    (proto_Size (toPb msg)) s))
            (with_flowController f (initialised (topic w)));
        results := <[ipubsub.fresh (results w) := ipubsub.pending]> (results w);
        calls := calls w ++ [call_acquire (proto_Size (toPb msg));
                             call_Add (OrderingKey msg)
                               {| bm_msg := msg; bm_res := ipubsub.fresh (results w);
                                  bm_size := proto_Size (toPb msg) |}
                               (proto_Size (toPb msg))] |}).
Proof.
  intros Hv Hs Hsch Hacq Hadd. rewrite Publish_past_ordering by exact Hv. cbv zeta.
  rewrite Hs. rewrite bind_run.
  unfold flowController_acquire, log. rewrite bind_run.
  unfold topicOp at 1. cbn [fst snd topic results calls].
  rewrite Hacq. cbn [fst snd].
  rewrite bind_run. unfold scheduler_Add, log. rewrite bind_run.
  unfold schedulerOp, topicOp. cbn [fst snd topic results calls].
  cbn [scheduler with_flowController]. rewrite Hsch. cbn [fst snd].
  rewrite Hadd. rewrite bind_run. cbn [mret M_ret].
  rewrite <- !app_assoc. reflexivity.
Qed.

End PublishPaths.

Lemma new_calls_rejected_at_once e w :
  new_calls w (rejected_at_once e w)
  = [call_SetPublishResult (ipubsub.fresh (results w)) "" (Some e)].
Proof. unfold new_calls, rejected_at_once. simpl. apply drop_app_length. Qed.

Lemma Get_rejected_at_once e w :
  ipubsub.Get (ipubsub.fresh (results w)) (results (rejected_at_once e w))
  = Some ("", Some e).
Proof.
  unfold ipubsub.Get, rejected_at_once. simpl. rewrite lookup_insert_eq.
  reflexivity.
Qed.

Lemma ordering_violated_true t msg :
  EnableMessageOrdering t = false -> OrderingKey msg ≠ "" ->
  ordering_violated t msg = true.
Proof.
  intros He Hk. unfold ordering_violated. rewrite He. simpl.
  apply bool_decide_eq_true. exact Hk.
Qed.

(** C6. On a publisher with [EnableMessageOrdering = false], [Publish] of
    a message with a non-empty ordering key returns a new handle that is
    already resolved with [errTopicOrderingNotEnabled]; the publisher, and
    with it every partition of the scheduler, is left as it was, and
    [Add] is not called. *)
Theorem C6_ordering_key_without_ordering `{Env}
    (ctx : Context) (msg : Message) (w : World) :
  EnableMessageOrdering (topic w) = false ->
  OrderingKey msg ≠ "" ->
  exists r w',
    Publish ctx msg w = (Returned r, w')
    /\ results w !! r = None
    /\ ipubsub.Get r (results w') = Some ("", Some errTopicOrderingNotEnabled)
    /\ topic w' = topic w
    /\ filter is_Add (new_calls w w') = [].
Proof.
  intros He Hk. eexists _, _. split.
  - apply Publish_ordering_violated, ordering_violated_true; assumption.
  - split; [apply fresh_unused|]. split; [apply Get_rejected_at_once|].
    split; [reflexivity|]. rewrite new_calls_rejected_at_once. reflexivity.
Qed.

(** A message with key "k" on a new publisher without message ordering. *)
Lemma C6_witness :
  let E := Sample.env Sample.accepting in
  EnableMessageOrdering (topic (Sample.world false)) = false
  /\ OrderingKey Sample.m0 ≠ ""
  /\ exists r w',
       @Publish E Sample.ctx Sample.m0 (Sample.world false) = (Returned r, w')
       /\ results (Sample.world false) !! r = None
       /\ ipubsub.Get r (results w') = Some ("", Some errTopicOrderingNotEnabled)
       /\ topic w' = topic (Sample.world false)
       /\ filter is_Add (new_calls (Sample.world false) w') = [].
Proof.
  intros E. split; [reflexivity|]. split; [discriminate|].
  apply (@C6_ordering_key_without_ordering E Sample.ctx Sample.m0
           (Sample.world false)); [reflexivity | discriminate].
Defined.

(** C10. The ordering check comes before every other check of [Publish]:
    with a non-empty ordering key and [EnableMessageOrdering = false] the
    handle is resolved with [errTopicOrderingNotEnabled], whether or not
    the publisher is stopped (so not with [ErrTopicStopped]); the flow
    controller and the scheduler are left as they were (a scheduler that
    did not exist is not created), and the only call made is the one that
    resolves the handle. *)
Theorem C10_ordering_check_comes_first `{Env}
    (ctx : Context) (msg : Message) (w : World) :
  EnableMessageOrdering (topic w) = false ->
  OrderingKey msg ≠ "" ->
  exists r w',
    Publish ctx msg w = (Returned r, w')
    /\ ipubsub.Get r (results w') = Some ("", Some errTopicOrderingNotEnabled)
    /\ ipubsub.Get r (results w') ≠ Some ("", Some ErrTopicStopped)
    /\ flowController (topic w') = flowController (topic w)
    /\ scheduler (topic w') = scheduler (topic w)
    /\ stopped (topic w') = stopped (topic w)
    /\ new_calls w w'
       = [call_SetPublishResult r "" (Some errTopicOrderingNotEnabled)].
Proof.
  intros He Hk. eexists _, _. split.
  - apply Publish_ordering_violated, ordering_violated_true; assumption.
  - rewrite Get_rejected_at_once, new_calls_rejected_at_once.
    repeat split; try reflexivity. discriminate.
Qed.

(** A message with key "k" on a stopped publisher without message ordering. *)
Lemma C10_witness :
  let E := Sample.env Sample.accepting in
  let w := @Sample.stopped_unordered E in
  stopped (topic w) = true
  /\ EnableMessageOrdering (topic w) = false
  /\ OrderingKey Sample.m0 ≠ ""
  /\ exists r w',
       @Publish E Sample.ctx Sample.m0 w = (Returned r, w')
       /\ ipubsub.Get r (results w') = Some ("", Some errTopicOrderingNotEnabled)
       /\ ipubsub.Get r (results w') ≠ Some ("", Some ErrTopicStopped)
       /\ flowController (topic w') = flowController (topic w)
       /\ scheduler (topic w') = scheduler (topic w)
       /\ stopped (topic w') = stopped (topic w)
       /\ new_calls w w'
          = [call_SetPublishResult r "" (Some errTopicOrderingNotEnabled)].
Proof.
  intros E w. split; [reflexivity|]. split; [reflexivity|].
  split; [discriminate|].
  apply (@C10_ordering_check_comes_first E Sample.ctx Sample.m0 w);
    [reflexivity | discriminate].
Defined.

(** C9. When [Publish] gets an error from [flowController.acquire], or,
    once the flow controller admitted the message, from [scheduler.Add],
    it returns the handle resolved with that error; the last two calls it
    made are [Pause] on the ordering key of the message and then the
    resolution of the handle, and the key, when the message has one, is
    paused. *)
Theorem C9_admission_failure_pauses_key `{Env}
    (ctx : Context) (msg : Message) (w : World) (e : error) :
  ordering_violated (topic w) msg = false ->
  stopped (topic w) = false ->
  admission_error ctx msg w = Some e ->
  exists r w' before,
    Publish ctx msg w = (Returned r, w')
    /\ new_calls w w'
       = before ++ [call_Pause (OrderingKey msg);
                    call_SetPublishResult r "" (Some e)]
    /\ ipubsub.Get r (results w') = Some ("", Some e)
    /\ (OrderingKey msg ≠ "" -> key_paused (OrderingKey msg) (topic w') = true).
Proof.
  intros Hv Hs Herr.
  destruct (initialised_scheduler (topic w) Hs) as [s Hsch].
  unfold admission_error in Herr. cbv zeta in Herr. rewrite Hsch in Herr.
  destruct (FlowControl.acquire ctx (proto_Size (toPb msg))
              (flowController (initialised (topic w)))) as [f|e'|] eqn:Hacq;
    [| |discriminate].
  - eexists _, _, [_; _]. split.
    + apply (Publish_Add_rejected ctx msg w s f e); assumption.
    + unfold new_calls, ipubsub.Get. cbn [calls results topic].
      rewrite drop_app_length, lookup_insert_eq.
      repeat split. intros Hk. unfold key_paused. cbn [scheduler with_scheduler].
      apply Pause_paused, Hk.
  - injection Herr as ->. eexists _, _, [_]. split.
    + apply (Publish_acquire_rejected ctx msg w s e); assumption.
    + unfold new_calls, ipubsub.Get. cbn [calls results topic].
      rewrite drop_app_length, lookup_insert_eq.
      repeat split. intros Hk. unfold key_paused. cbn [scheduler with_scheduler].
      apply Pause_paused, Hk.
Qed.

(** A second message on a publisher that allows one message outstanding. *)
Lemma C9_witness :
  let E := Sample.env Sample.accepting in
  let w := @Sample.at_capacity E in
  ordering_violated (topic w) Sample.m1 = false
  /\ stopped (topic w) = false
  /\ @admission_error E Sample.ctx Sample.m1 w = Some ErrCapacityExceeded
  /\ exists r w' before,
       @Publish E Sample.ctx Sample.m1 w = (Returned r, w')
       /\ new_calls w w'
          = before ++ [call_Pause (OrderingKey Sample.m1);
                       call_SetPublishResult r "" (Some ErrCapacityExceeded)]
       /\ ipubsub.Get r (results w') = Some ("", Some ErrCapacityExceeded)
       /\ (OrderingKey Sample.m1 ≠ "" ->
           key_paused (OrderingKey Sample.m1) (topic w') = true).
Proof.
  intros E w. split; [reflexivity|]. split; [reflexivity|].
  split; [vm_compute; reflexivity|].
  apply (@C9_admission_failure_pauses_key E Sample.ctx Sample.m1 w
           ErrCapacityExceeded); vm_compute; reflexivity.
Defined.

(** ** Stop *)

Lemma with_stopped_id t : stopped t = true -> with_stopped true t = t.
Proof. destruct t. simpl. intros ->. reflexivity. Qed.

Lemma Stop_when_stopped `{Env} w :
  stopped (topic w) = true -> Stop w = (Returned tt, w).
Proof.
  intros Hs. unfold Stop, topicOp. rewrite bind_run. cbn [fst snd].
  rewrite Hs, (with_stopped_id _ Hs), World_eta. reflexivity.
Qed.

Lemma Stop_stops `{Env} w : stopped (topic (snd (Stop w))) = true.
Proof.
  unfold Stop. rewrite bind_state. unfold topicOp at 1 2. cbn [fst snd].
  destruct (stopped (topic w) || bool_decide (scheduler (topic w) = None));
    [reflexivity|].
  pose proof (keeps_scheduler_FlushAndStop (fun t => stopped t = true)
                (fun _ => True)) as K.
  unfold keeps in K. apply K; try reflexivity; try (intros; assumption).
Qed.

(** C5, as the code has it.  Once [Stop] has been called, and whatever
    callers and workers did since: the publisher is stopped, a further
    [Stop] returns and changes nothing, and [Publish] returns a new handle
    already resolved with an error and leaves the publisher as it was (no
    call to the flow controller or the scheduler).  The error is
    [ErrTopicStopped], except for a message with an ordering key on a
    publisher without message ordering, which gets
    [errTopicOrderingNotEnabled] from the check that precedes the stopped
    check. *)
Theorem C5_after_Stop `{Env}
    (w : World) (ops : list op) (ctx : Context) (msg : Message) :
  let w1 := exec ops (snd (Stop w)) in
  let e := if ordering_violated (topic w1) msg
           then errTopicOrderingNotEnabled else ErrTopicStopped in
  stopped (topic w1) = true
  /\ Stop w1 = (Returned tt, w1)
  /\ exists r w2,
       Publish ctx msg w1 = (Returned r, w2)
       /\ results w1 !! r = None
       /\ ipubsub.Get r (results w2) = Some ("", Some e)
       /\ topic w2 = topic w1
       /\ new_calls w1 w2 = [call_SetPublishResult r "" (Some e)].
Proof.
  intros w1 e.
  assert (Hs : stopped (topic w1) = true) by apply stopped_exec, Stop_stops.
  split; [exact Hs|]. split; [apply Stop_when_stopped, Hs|].
  exists (ipubsub.fresh (results w1)), (rejected_at_once e w1).
  split.
  - subst e. destruct (ordering_violated (topic w1) msg) eqn:Hv.
    + apply Publish_ordering_violated, Hv.
    + apply Publish_stopped; assumption.
  - split; [apply fresh_unused|]. split; [apply Get_rejected_at_once|].
    split; [reflexivity|]. apply new_calls_rejected_at_once.
Qed.

(** C5 as it is stated fails: after [Stop], [Publish] of a message with an
    ordering key on a publisher without message ordering does not resolve
    the handle with [ErrTopicStopped]. *)
Lemma C5_counterexample :
  let E := Sample.env Sample.accepting in
  let w1 := snd (@Stop E (Sample.world false)) in
  stopped (topic w1) = true
  /\ ~ (exists r w2,
          @Publish E Sample.ctx Sample.m0 w1 = (Returned r, w2)
          /\ ipubsub.Get r (results w2) = Some ("", Some ErrTopicStopped)).
Proof.
  intros E w1. split; [reflexivity|].
  intros (r & w2 & Hp & Hg).
  assert (Hrun : @Publish E Sample.ctx Sample.m0 w1
                 = (Returned (ipubsub.fresh (results w1)),
                    rejected_at_once errTopicOrderingNotEnabled w1))
    by (apply Publish_ordering_violated; reflexivity).
  rewrite Hrun in Hp. injection Hp as Hr Hw. rewrite <- Hr, <- Hw in Hg.
  vm_compute in Hg. discriminate.
Qed.

(** ** Arithmetic on [int] *)

Section IntArith.

Context `{Env}.
Hypothesis word : uint_bits = 32 \/ uint_bits = 64.

Lemma intSize_word : intSize = 32 \/ intSize = 64.
Proof.
  unfold intSize. destruct word as [-> | ->]; [left | right]; reflexivity.
Qed.

(** An [int] expression whose value fits is not wrapped. *)
Lemma int_fits z : - maxInt - 1 <= z <= maxInt -> int z = z.
Proof.
  unfold int, maxInt. destruct intSize_word as [-> | ->].
  - change (Z.shiftl 1 (32 - 1)) with 2147483648.
    change (2 ^ (32 - 1)) with 2147483648. change (2 ^ 32) with 4294967296.
    intros Hz. rewrite Z.mod_small by lia. lia.
  - change (Z.shiftl 1 (64 - 1)) with 9223372036854775808.
    change (2 ^ (64 - 1)) with 9223372036854775808.
    change (2 ^ 64) with 18446744073709551616.
    intros Hz. rewrite Z.mod_small by lia. lia.
Qed.

Lemma maxInt_large : 2147483647 <= maxInt.
Proof.
  unfold maxInt. destruct intSize_word as [-> | ->].
  - change (Z.shiftl 1 (32 - 1)) with 2147483648. lia.
  - change (Z.shiftl 1 (64 - 1)) with 9223372036854775808. lia.
Qed.

(** The byte limit of a bundle, as [initBundler] computes it. *)
Lemma BundleByteLimit_exact c :
  0 <= c <= maxInt ->
  int (int (MaxPublishRequestBytes - c) - 5) = MaxPublishRequestBytes - c - 5.
Proof.
  intros Hc. pose proof maxInt_large. unfold MaxPublishRequestBytes in *.
  rewrite (int_fits (10000000 - c)) by lia. apply int_fits. lia.
Qed.

Lemma wire_size_cons bm rest :
  wire_size (bm :: rest) = proto_Size (toPb (bm_msg bm)) + wire_size rest.
Proof. reflexivity. Qed.

Lemma wire_size_nonneg bms :
  forallb (fun bm => 0 <=? proto_Size (toPb (bm_msg bm))) bms = true ->
  0 <= wire_size bms.
Proof.
  induction bms as [|b r IHr]; intros Hpos; [unfold wire_size; simpl; lia|].
  simpl in Hpos. apply andb_true_iff in Hpos as [Hb Hpos].
  apply Z.leb_le in Hb. specialize (IHr Hpos). rewrite wire_size_cons. lia.
Qed.

(** The running sum of the first loop of [publishMessageBundle] is the sum
    of the encoded sizes when that sum fits an [int]. *)
Lemma encode_sizes bms : forall pbs k n,
  forallb (fun bm => 0 <=? proto_Size (toPb (bm_msg bm))) bms = true ->
  0 <= n ->
  n + wire_size bms <= maxInt ->
  (fold_left encode_step bms (pbs, k, n)).2 = n + wire_size bms.
Proof.
  induction bms as [|bm rest IH]; intros pbs k n Hpos Hn Hsum.
  - unfold wire_size. simpl. lia.
  - simpl in Hpos. apply andb_true_iff in Hpos as [Hb Hpos].
    apply Z.leb_le in Hb.
    pose proof (wire_size_nonneg rest Hpos) as Hrest.
    rewrite wire_size_cons in *.
    pose proof maxInt_large.
    cbn [fold_left]. unfold encode_step at 2. cbn [fst snd].
    rewrite (int_fits (n + proto_Size (toPb (bm_msg bm)))) by lia.
    rewrite IH; [lia | exact Hpos | lia | lia].
Qed.

Lemma batchSize_of_wire_size bms :
  forallb (fun bm => 0 <=? proto_Size (toPb (bm_msg bm))) bms = true ->
  wire_size bms <= maxInt ->
  batchSize_of bms = wire_size bms.
Proof.
  intros Hpos Hsum. unfold batchSize_of, encode.
  rewrite encode_sizes; [lia | exact Hpos | lia | lia].
Qed.

End IntArith.

Lemma pbMsgs_of_map `{Env} bms : pbMsgs_of bms = toPb ∘ bm_msg <$> bms.
Proof.
  unfold pbMsgs_of, encode.
  induction bms as [|bm rest IH] using rev_ind; [reflexivity|].
  rewrite fold_left_app, fmap_app. cbn [fold_left]. unfold encode_step at 1.
  cbn [fst snd]. rewrite IH. reflexivity.
Qed.

(** C8. When [initBundler] creates the scheduler, it sets the byte limit
    of a bundle to [MaxPublishRequestBytes] minus the encoded size of the
    topic-name field minus 5, without wrap-around, and that is strictly
    below [MaxPublishRequestBytes]; this holds for every topic name whose
    field size, as [calcFieldSizeString] gives it, is a non-negative
    [int]. *)
Theorem C8_bundle_byte_limit `{Env} (w : World) :
  uint_bits = 32 \/ uint_bits = 64 ->
  0 <= calcFieldSizeString (name (topic w)) <= maxInt ->
  stopped (topic w) = false ->
  scheduler (topic w) = None ->
  exists s,
    scheduler (topic (snd (initBundler w))) = Some s
    /\ Scheduler.BundleByteLimit s
       = MaxPublishRequestBytes - calcFieldSizeString (name (topic w)) - 5
    /\ Scheduler.BundleByteLimit s < MaxPublishRequestBytes.
Proof.
  intros Hword Hc Hs Hn.
  rewrite initBundler_run. cbn [snd topic]. unfold initialised.
  rewrite Hs, Hn. rewrite bool_decide_eq_false_2 by (intros Hx; apply Hx; reflexivity).
  cbn [orb]. unfold init. cbn [scheduler]. eexists. split; [reflexivity|].
  cbn [Scheduler.BundleByteLimit].
  rewrite (BundleByteLimit_exact Hword _ Hc). split; [reflexivity | lia].
Qed.

(** The topic "projects/p/topics/t" on a 64-bit target. *)
Lemma C8_witness :
  let E := Sample.env Sample.accepting in
  let w := Sample.world true in
  (@uint_bits E = 32 \/ @uint_bits E = 64)
  /\ 0 <= @calcFieldSizeString E (name (topic w)) <= @maxInt E
  /\ exists s,
       scheduler (topic (snd (@initBundler E w))) = Some s
       /\ Scheduler.BundleByteLimit s
          = MaxPublishRequestBytes - @calcFieldSizeString E (name (topic w)) - 5
       /\ Scheduler.BundleByteLimit s < MaxPublishRequestBytes.
Proof.
  intros E w.
  assert (Hword : @uint_bits E = 32 \/ @uint_bits E = 64) by (right; reflexivity).
  assert (Hc : 0 <= @calcFieldSizeString E (name (topic w)) <= @maxInt E)
    by (split; vm_compute; discriminate).
  split; [exact Hword|]. split; [exact Hc|].
  apply (@C8_bundle_byte_limit E w Hword Hc); reflexivity.
Defined.

(** ** Steps that issue no request *)

Lemma quiet_refl w : quiet w w.
Proof.
  repeat split. exists []. rewrite app_nil_r. auto.
Qed.

Lemma quiet_trans w1 w2 w3 : quiet w1 w2 -> quiet w2 w3 -> quiet w1 w3.
Proof.
  intros (Hs1 & Ho1 & l1 & Hl1 & Hf1) (Hs2 & Ho2 & l2 & Hl2 & Hf2).
  split; [congruence|]. split; [congruence|].
  exists (l1 ++ l2). rewrite Hl2, Hl1, <- app_assoc, filter_app, Hf1, Hf2. auto.
Qed.

Lemma quietly_ret {A} (a : A) : quietly (mret a).
Proof. intros w. apply quiet_refl. Qed.

Lemma quietly_panic {A} why : quietly (@panic A why).
Proof. intros w. apply quiet_refl. Qed.

Lemma quietly_bind {A B} (m : M A) (f : A -> M B) :
  quietly m -> (forall a, quietly (f a)) -> quietly (m ≫= f).
Proof.
  intros Hm Hf w. rewrite bind_state. specialize (Hm w).
  destruct (fst (m w)); auto. eapply quiet_trans; [exact Hm | apply Hf].
Qed.

Lemma quietly_log e : is_rpc e = false -> quietly (log e).
Proof.
  intros He w. repeat split. exists [e]. split; [reflexivity|].
  rewrite filter_cons_False by (rewrite He; auto). reflexivity.
Qed.

Lemma quietly_topicOp {A} (f : Publisher -> outcome A * Publisher) :
  (forall t, t_PublishSettings (snd (f t)) = t_PublishSettings t
             /\ pubc_CallOptions_Publish (snd (f t)) = pubc_CallOptions_Publish t) ->
  quietly (topicOp f).
Proof.
  intros Hf w. destruct (Hf (topic w)) as [Hs Ho].
  split; [exact Hs|]. split; [exact Ho|].
  exists []. simpl. rewrite app_nil_r. auto.
Qed.

Lemma quietly_schedulerOp {A} (f : PublishScheduler -> A * PublishScheduler) :
  quietly (schedulerOp f).
Proof.
  apply quietly_topicOp. intros t. destruct (scheduler t); auto.
Qed.

Lemma quietly_SetPublishResult r sid e : quietly (SetPublishResult r sid e).
Proof.
  apply quietly_bind; [apply quietly_log; reflexivity|]. intros _ w.
  unfold write_result. destruct (ipubsub.SetPublishResult r sid e (results w)).
  - repeat split. exists []. simpl. rewrite app_nil_r. auto.
  - apply quiet_refl.
Qed.

Lemma quietly_release size : quietly (flowController_release size).
Proof.
  apply quietly_bind; [apply quietly_log; reflexivity|]. intros _.
  apply quietly_topicOp. auto.
Qed.

Lemma quietly_Pause k : quietly (scheduler_Pause k).
Proof.
  apply quietly_bind; [apply quietly_log; reflexivity|]. intros _.
  apply quietly_schedulerOp.
Qed.

Lemma quietly_distribute `{Env} res err bms :
  forall i, quietly (distribute res err i bms).
Proof.
  induction bms as [|bm rest IH]; intros i; cbn [distribute].
  - apply quietly_ret.
  - apply quietly_bind; [apply quietly_release|]. intros _.
    apply quietly_bind; [|intros _; apply IH].
    unfold resolve_at. destruct err; [apply quietly_SetPublishResult|].
    destruct res as [rs|]; [|apply quietly_panic].
    destruct (MessageIds rs !! i);
      [apply quietly_SetPublishResult | apply quietly_panic].
Qed.

Lemma not_rpc_in_quiet req opts l :
  filter is_rpc l = [] -> call_Publish req opts ∉ l.
Proof.
  intros Hf Hin.
  assert (Hx : call_Publish req opts ∈ filter is_rpc l)
    by (apply list_elem_of_filter; split; [reflexivity | exact Hin]).
  rewrite Hf in Hx. inversion Hx.
Qed.

Section Compression.

Context `{Env}.

(** What [publishMessageBundle] adds to the log: at most the request of
    the attempt, then calls that are no requests. *)
Lemma publishMessageBundle_requests ctx bms w :
  t_PublishSettings (topic (snd (publishMessageBundle ctx bms w)))
    = t_PublishSettings (topic w)
  /\ pubc_CallOptions_Publish (topic (snd (publishMessageBundle ctx bms w)))
    = pubc_CallOptions_Publish (topic w)
  /\ exists l,
       filter is_rpc l = []
       /\ (new_calls w (snd (publishMessageBundle ctx bms w)) = l
           \/ exists d,
                resolve_Retry (pubc_CallOptions_Publish (topic w)) = Some d
                /\ new_calls w (snd (publishMessageBundle ctx bms w))
                   = call_Publish {| Topic := name (topic w);
                                     Messages := pbMsgs_of bms |}
                                  (gaxOpts_of (topic w) d (batchSize_of bms)) :: l).
Proof.
  pose proof (send_effect ctx (orderingKey_of bms) (pbMsgs_of bms)
                (batchSize_of bms) w) as (Ht & _ & Hc).
  assert (Hq : quiet (snd (send ctx (orderingKey_of bms) (pbMsgs_of bms)
                             (batchSize_of bms) w))
                     (snd (publishMessageBundle ctx bms w))).
  { unfold publishMessageBundle. cbv zeta. rewrite bind_state.
    destruct (fst (send _ _ _ _ w)) as [sent| |]; try apply quiet_refl.
    apply quietly_bind; [|intros _; apply quietly_distribute].
    destruct (sent.2); [apply quietly_Pause | apply quietly_ret]. }
  destruct Hq as (Hs & Ho & l & Hl & Hf). rewrite Ht in Hs, Ho.
  split; [exact Hs|]. split; [exact Ho|]. exists l. split; [exact Hf|].
  unfold new_calls. rewrite Hl.
  destruct Hc as [-> | (d & Hd & ->)].
  - left. apply drop_app_length.
  - right. exists d. split; [exact Hd|].
    rewrite <- app_assoc. apply drop_app_length.
Qed.

Lemma gaxOpts_of_compressor t d n :
  UseCompressor gzip_Name ∈ gaxOpts_of t d n
  <-> EnableCompression (t_PublishSettings t) = true
      /\ CompressionBytesThreshold (t_PublishSettings t) < n.
Proof.
  unfold gaxOpts_of, shouldCompress.
  rewrite elem_of_app, !elem_of_cons.
  destruct (EnableCompression (t_PublishSettings t)); simpl.
  - destruct (Z.ltb_spec (CompressionBytesThreshold (t_PublishSettings t)) n).
    + split; [auto|]. intros _. right. apply elem_of_cons. auto.
    + split; [|lia].
      intros [[Hx | [Hx | Hx]] | Hx]; try discriminate; inversion Hx.
  - split; [|intros [? _]; discriminate].
    intros [[Hx | [Hx | Hx]] | Hx]; try discriminate; inversion Hx.
Qed.

End Compression.

Section Requests.

Context `{Env}.

(** What the attempt adds to the log: the request, when it reaches the
    RPC, and nothing otherwise. *)
Lemma send_calls ctx k pbs n w :
  calls (snd (send ctx k pbs n w))
  = calls w
    ++ match sendable k (topic w) with
       | Some d => [call_Publish {| Topic := name (topic w); Messages := pbs |}
                                 (gaxOpts_of (topic w) d n)]
       | None => []
       end.
Proof.
  assert (Hgo : forall w0 : World, w0 = w ->
    calls (snd ((t ← getTopic;
                 match resolve_Retry (pubc_CallOptions_Publish t) with
                 | None => panic "call of nil func"
                 | Some d =>
                     r ← rpc_Publish ctx {| Topic := name t; Messages := pbs |}
                           (gaxOpts_of t d n);
                     match r with
                     | rpc_ok res => mret (Some res, None)
                     | rpc_err e => mret (None, Some e)
                     end
                 end) w0))
    = calls w
      ++ match resolve_Retry (pubc_CallOptions_Publish (topic w)) with
         | Some d => [call_Publish {| Topic := name (topic w); Messages := pbs |}
                                   (gaxOpts_of (topic w) d n)]
         | None => []
         end).
  { intros w0 ->. rewrite (bind_returned _ _ _ _ _ (getTopic_run w)).
    destruct (resolve_Retry _) as [d|]; [|cbn; rewrite app_nil_r; reflexivity].
    rewrite bind_run. unfold rpc_Publish.
    destruct (pubc_Publish _ _ _ _); reflexivity. }
  unfold send, sendable. rewrite bind_run. case_decide as Hk.
  - rewrite bool_decide_eq_true_2 by exact Hk. cbn [orb].
    change ((mret false : M bool) w) with (Returned false, w).
    apply (Hgo w eq_refl).
  - rewrite bool_decide_eq_false_2 by exact Hk. cbn [orb].
    unfold scheduler_IsPaused, schedulerOp, topicOp, key_paused.
    destruct (scheduler (topic w)) as [s|] eqn:Es; cbn [fst snd].
    + rewrite (with_scheduler_id _ _ Es), World_eta.
      rewrite bool_decide_eq_true_2 by discriminate. cbn [andb].
      destruct (Scheduler.IsPaused k s); cbn [negb].
      * cbn. rewrite app_nil_r. reflexivity.
      * apply (Hgo w eq_refl).
    + rewrite bool_decide_eq_false_2 by auto. cbn. rewrite app_nil_r.
      reflexivity.
Qed.

(** The requests that [publishMessageBundle] issues for a bundle: the one
    of the attempt, when it reaches the RPC, and no other. *)
Lemma publishMessageBundle_rpcs ctx bms w :
  filter is_rpc (new_calls w (snd (publishMessageBundle ctx bms w)))
  = match sendable (orderingKey_of bms) (topic w) with
    | Some d => [call_Publish {| Topic := name (topic w);
                                 Messages := pbMsgs_of bms |}
                              (gaxOpts_of (topic w) d (batchSize_of bms))]
    | None => []
    end.
Proof.
  assert (Hq : quiet (snd (send ctx (orderingKey_of bms) (pbMsgs_of bms)
                             (batchSize_of bms) w))
                     (snd (publishMessageBundle ctx bms w))).
  { unfold publishMessageBundle. cbv zeta. rewrite bind_state.
    destruct (fst (send _ _ _ _ w)) as [sent| |]; try apply quiet_refl.
    apply quietly_bind; [|intros _; apply quietly_distribute].
    destruct (sent.2); [apply quietly_Pause | apply quietly_ret]. }
  destruct Hq as (_ & _ & l & Hl & Hf).
  unfold new_calls. rewrite Hl, send_calls, <- app_assoc, drop_app_length.
  rewrite filter_app, Hf, app_nil_r.
  destruct (sendable _ _); reflexivity.
Qed.

End Requests.

(** C7. [publishMessageBundle] issues a request for a bundle exactly when
    the attempt reaches the RPC (the pre-send check lets the ordering key
    through and the client has a retryer), and then exactly one: it names
    the topic, carries the messages of the bundle in order, and, for a
    bundle whose encoded sizes sum up without overflow, has the gzip
    compressor among its options if and only if [EnableCompression] is set
    and the sum of the encoded sizes is strictly above
    [CompressionBytesThreshold].  The options are built for this request:
    neither the publish settings nor the call options of the client are
    changed, so no other request is affected. *)
Theorem C7_compression_per_request `{Env}
    (ctx : Context) (bms : list bundledMessage) (w : World) :
  uint_bits = 32 \/ uint_bits = 64 ->
  forallb (fun bm => 0 <=? proto_Size (toPb (bm_msg bm))) bms = true ->
  wire_size bms <= maxInt ->
  filter is_rpc (new_calls w (snd (publishMessageBundle ctx bms w)))
  = match sendable (orderingKey_of bms) (topic w) with
    | Some d =>
        [call_Publish
           {| Topic := name (topic w); Messages := toPb ∘ bm_msg <$> bms |}
           ([MaxCallSendMsgSize maxSendRecvBytes; WithRetry (publishRetryer d)]
            ++ (if EnableCompression (t_PublishSettings (topic w))
                   && (CompressionBytesThreshold (t_PublishSettings (topic w))
                       <? wire_size bms)
                then [UseCompressor gzip_Name] else []))]
    | None => []
    end
  /\ (forall req opts,
        call_Publish req opts ∈ new_calls w (snd (publishMessageBundle ctx bms w)) ->
        Messages req = toPb ∘ bm_msg <$> bms
        /\ (UseCompressor gzip_Name ∈ opts
            <-> EnableCompression (t_PublishSettings (topic w)) = true
                /\ CompressionBytesThreshold (t_PublishSettings (topic w))
                   < wire_size bms))
  /\ (length (filter is_rpc (new_calls w (snd (publishMessageBundle ctx bms w))))
      <= 1)%nat
  /\ t_PublishSettings (topic (snd (publishMessageBundle ctx bms w)))
     = t_PublishSettings (topic w)
  /\ pubc_CallOptions_Publish (topic (snd (publishMessageBundle ctx bms w)))
     = pubc_CallOptions_Publish (topic w).
Proof.
  intros Hword Hpos Hsum. split.
  { rewrite publishMessageBundle_rpcs.
    destruct (sendable _ _) as [d|]; [|reflexivity].
    rewrite pbMsgs_of_map. unfold gaxOpts_of, shouldCompress.
    rewrite (batchSize_of_wire_size Hword bms Hpos Hsum). reflexivity. }
  destruct (publishMessageBundle_requests ctx bms w)
    as (Hs & Ho & l & Hf & [Hl | (d & Hd & Hl)]); rewrite Hl.
  - split; [|split; [rewrite Hf; simpl; lia | auto]].
    intros req opts Hin. exfalso. exact (not_rpc_in_quiet _ _ _ Hf Hin).
  - split; [|split; [|auto]].
    + intros req opts Hin. apply elem_of_cons in Hin as [Heq | Hin];
        [|exfalso; exact (not_rpc_in_quiet _ _ _ Hf Hin)].
      injection Heq as -> ->. cbn [Messages]. split; [apply pbMsgs_of_map|].
      rewrite gaxOpts_of_compressor.
      rewrite (batchSize_of_wire_size Hword bms Hpos Hsum). reflexivity.
    + rewrite filter_cons_True by reflexivity. rewrite Hf. simpl. lia.
Qed.

(** A bundle of 20 bytes on a publisher that compresses above 15 bytes:
    the one request is issued, with the compressor. *)
Lemma C7_witness :
  let E := Sample.env Sample.accepting in
  let w := @Sample.compressing E in
  let w' := snd (@publishMessageBundle E Sample.ctx Sample.bundle w) in
  (@uint_bits E = 32 \/ @uint_bits E = 64)
  /\ forallb (fun bm => 0 <=? @proto_Size E (toPb (bm_msg bm))) Sample.bundle = true
  /\ @wire_size E Sample.bundle <= @maxInt E
  /\ sendable (@orderingKey_of E Sample.bundle) (topic w)
     = Some (gaxRetryer "default")
  /\ filter is_rpc (new_calls w w')
     = match sendable (@orderingKey_of E Sample.bundle) (topic w) with
       | Some d =>
           [call_Publish
              {| Topic := name (topic w);
                 Messages := toPb ∘ bm_msg <$> Sample.bundle |}
              ([MaxCallSendMsgSize (@maxSendRecvBytes E);
                WithRetry (publishRetryer d)]
               ++ (if EnableCompression (t_PublishSettings (topic w))
                      && (CompressionBytesThreshold (t_PublishSettings (topic w))
                          <? @wire_size E Sample.bundle)
                   then [UseCompressor gzip_Name] else []))]
       | None => []
       end
  /\ (forall req opts,
        call_Publish req opts ∈ new_calls w w' ->
        Messages req = toPb ∘ bm_msg <$> Sample.bundle
        /\ (UseCompressor gzip_Name ∈ opts
            <-> EnableCompression (t_PublishSettings (topic w)) = true
                /\ CompressionBytesThreshold (t_PublishSettings (topic w))
                   < @wire_size E Sample.bundle))
  /\ (length (filter is_rpc (new_calls w w')) <= 1)%nat
  /\ t_PublishSettings (topic w') = t_PublishSettings (topic w)
  /\ pubc_CallOptions_Publish (topic w') = pubc_CallOptions_Publish (topic w).
Proof.
  intros E w w'.
  assert (Hword : @uint_bits E = 32 \/ @uint_bits E = 64) by (right; reflexivity).
  assert (Hpos : forallb (fun bm => 0 <=? @proto_Size E (toPb (bm_msg bm)))
                   Sample.bundle = true) by (vm_compute; reflexivity).
  assert (Hsum : @wire_size E Sample.bundle <= @maxInt E)
    by (vm_compute; discriminate).
  split; [exact Hword|]. split; [exact Hpos|]. split; [exact Hsum|].
  split; [vm_compute; reflexivity|].
  exact (@C7_compression_per_request E Sample.ctx Sample.bundle w Hword Hpos Hsum).
Defined.

(** The request of that run, with its compressor. *)
Example compressing_request :
  let E := Sample.env Sample.accepting in
  let w := @Sample.compressing E in
  filter is_rpc
    (new_calls w (snd (@publishMessageBundle E Sample.ctx Sample.bundle w)))
  = [call_Publish
       {| Topic := "projects/p/topics/t";
          Messages := toPb ∘ bm_msg <$> Sample.bundle |}
       [MaxCallSendMsgSize 20971520;
        WithRetry (publishRetryer (gaxRetryer "default"));
        UseCompressor "gzip"]].
Proof. vm_compute. reflexivity. Qed.

(** The two buffered messages of key "k" against a server that accepts them. *)
Lemma C2_witness :
  let E := Sample.env Sample.accepting in
  let w := @Sample.buffered E in
  let sent := @send E Sample.ctx (@orderingKey_of E Sample.bundle)
                (@pbMsgs_of E Sample.bundle) (@batchSize_of E Sample.bundle) w in
  fresh_bundle (results w) Sample.bundle = true
  /\ fst sent = Returned (Some {| MessageIds := ["0"; "1"] |}, None)
  /\ exists w',
       @publishMessageBundle E Sample.ctx Sample.bundle w = (Returned tt, w')
       /\ filter is_release (new_calls w w')
          = call_release <$> (bm_size <$> Sample.bundle)
       /\ FlowControl.countOutstanding (flowController (topic w'))
          = FlowControl.countOutstanding (flowController (topic w))
            - Z.of_nat (length Sample.bundle)
       /\ FlowControl.bytesOutstanding (flowController (topic w'))
          = FlowControl.bytesOutstanding (flowController (topic w))
            - sum_sizes Sample.bundle.
Proof.
  intros E w sent. split; [vm_compute; reflexivity|].
  split; [vm_compute; reflexivity|].
  destruct (scheduler (topic w)) as [s|] eqn:Es;
    [|vm_compute in Es; discriminate].
  apply (@C2_release_once_per_message E Sample.ctx Sample.bundle w (snd sent) s
           (Some {| MessageIds := ["0"; "1"] |}) None Es);
    vm_compute; reflexivity.
Defined.

(** The two buffered messages of key "k" get the identifiers "0" and "1". *)
Lemma C4_witness :
  let E := Sample.env Sample.accepting in
  let w := @Sample.buffered E in
  let sent := @send E Sample.ctx (@orderingKey_of E Sample.bundle)
                (@pbMsgs_of E Sample.bundle) (@batchSize_of E Sample.bundle) w in
  let w' := snd (@publishMessageBundle E Sample.ctx Sample.bundle w) in
  fresh_bundle (results w) Sample.bundle = true
  /\ fst sent = Returned (Some {| MessageIds := ["0"; "1"] |}, None)
  /\ (forall i bm id,
        Sample.bundle !! i = Some bm -> ["0"; "1"] !! i = Some id ->
        ipubsub.Get (bm_res bm) (results w') = Some (id, None))
  /\ ((length Sample.bundle <= 2)%nat ->
      fst (@publishMessageBundle E Sample.ctx Sample.bundle w) = Returned tt
      /\ (fun bm => ipubsub.Get (bm_res bm) (results w')) <$> Sample.bundle
         = (fun id => Some (id, None)) <$> take (length Sample.bundle) ["0"; "1"]).
Proof.
  intros E w sent w'. split; [vm_compute; reflexivity|].
  split; [vm_compute; reflexivity|].
  apply (@C4_ids_matched_by_position E Sample.ctx Sample.bundle w (snd sent)
           {| MessageIds := ["0"; "1"] |}); vm_compute; reflexivity.
Defined.

(** ** A paused key, seen by the scheduler and by the caller *)

Lemma initialised_of_scheduler `{Env} t s :
  scheduler t = Some s -> initialised t = t.
Proof.
  intros Hs. unfold initialised. rewrite Hs.
  rewrite bool_decide_eq_true_2 by discriminate.
  rewrite orb_true_r. reflexivity.
Qed.

(** C3. While an ordering key is paused, every [Add] for that key fails at
    once with the publishing-paused error and the item is not buffered:
    the scheduler is left as it was and the error goes to the caller, so
    that [Publish] resolves the handle of the message with it.  This
    holds after every sequence of later operations on the publisher
    (publishing, flushing, stopping, workers handling bundles, resuming
    other keys) that does not call [ResumePublish] for that key; calling
    it makes the key active again. *)
Theorem C3_paused_key_rejects_until_resume `{Env}
    (w : World) (key : string) (ops : list op) :
  key_paused key (topic w) = true ->
  forallb (fun o => negb (resumes key o)) ops = true ->
  exists s',
    scheduler (topic (exec ops w)) = Some s'
    /\ Scheduler.IsPaused key s' = true
    /\ (forall item size,
          Scheduler.Add key item size s' = (s', Some (ErrPublishingPaused key)))
    /\ (forall item size,
          fst (scheduler_Add key item size (exec ops w))
            = Returned (Some (ErrPublishingPaused key))
          /\ scheduler (topic (snd (scheduler_Add key item size (exec ops w))))
            = Some s')
    /\ (forall ctx msg f,
          OrderingKey msg = key ->
          ordering_violated (topic (exec ops w)) msg = false ->
          stopped (topic (exec ops w)) = false ->
          FlowControl.acquire ctx (proto_Size (toPb msg))
            (flowController (topic (exec ops w))) = FlowControl.Granted f ->
          exists r w'',
            Publish ctx msg (exec ops w) = (Returned r, w'')
            /\ ipubsub.Get r (results w'')
               = Some ("", Some (ErrPublishingPaused key))
            /\ Scheduler.bundlers <$> scheduler (topic w'')
               = Some (Scheduler.bundlers s'))
    /\ key_paused key (topic (snd (ResumePublish key (exec ops w)))) = false.
Proof.
  intros Hw Hops.
  pose proof (key_paused_exec key ops w Hops Hw) as Hp.
  remember (exec ops w) as w' eqn:Ew. clear Ew Hw Hops.
  unfold key_paused in Hp.
  destruct (scheduler (topic w')) as [s'|] eqn:Es; [|discriminate].
  exists s'. split; [reflexivity|]. split; [exact Hp|].
  split; [intros; apply Add_paused, Hp|]. split; [|split].
  - intros item size.
    unfold scheduler_Add, schedulerOp, topicOp, log. rewrite bind_run. simpl.
    rewrite Es. simpl. rewrite (Add_paused s' key item size Hp). split; reflexivity.
  - intros ctx msg f Hk Hv Hst Hacq. subst key.
    pose proof (initialised_of_scheduler _ _ Es) as Hi.
    eexists _, _. split.
    + apply (Publish_Add_rejected ctx msg w' s' f
               (ErrPublishingPaused (OrderingKey msg)) Hv Hst).
      * rewrite Hi. exact Es.
      * rewrite Hi. exact Hacq.
      * rewrite (Add_paused s' _ _ _ Hp). reflexivity.
    + unfold ipubsub.Get. cbn [results topic scheduler with_scheduler].
      rewrite lookup_insert_eq. split; [reflexivity|].
      rewrite (Add_paused s' _ _ _ Hp). cbn [fst fmap option_fmap option_map].
      unfold Scheduler.Pause. case_decide; reflexivity.
  - unfold ResumePublish. rewrite (bind_returned _ _ _ _ _ (getTopic_run _)).
    rewrite Es. rewrite bool_decide_eq_false_2 by discriminate.
    unfold scheduler_Resume, schedulerOp, topicOp, log. rewrite bind_run.
    cbn [fst snd topic]. rewrite Es. unfold key_paused.
    cbn [snd scheduler with_scheduler]. apply Resume_not_paused.
Qed.

(** The key "k" was paused; callers and workers go on. *)
Lemma C3_witness :
  let E := Sample.env Sample.accepting in
  let w := @Sample.paused E in
  let w' := @exec E Sample.later_ops w in
  key_paused "k" (topic w) = true
  /\ forallb (fun o => negb (resumes "k" o)) Sample.later_ops = true
  /\ exists s',
       scheduler (topic w') = Some s'
       /\ Scheduler.IsPaused "k" s' = true
       /\ (forall item size,
             Scheduler.Add "k" item size s' = (s', Some (ErrPublishingPaused "k")))
       /\ (forall item size,
             fst (scheduler_Add "k" item size w')
               = Returned (Some (ErrPublishingPaused "k"))
             /\ scheduler (topic (snd (scheduler_Add "k" item size w'))) = Some s')
       /\ (forall ctx msg f,
             OrderingKey msg = "k" ->
             ordering_violated (topic w') msg = false ->
             stopped (topic w') = false ->
             FlowControl.acquire ctx (@proto_Size E (toPb msg))
               (flowController (topic w')) = FlowControl.Granted f ->
             exists r w'',
               @Publish E ctx msg w' = (Returned r, w'')
               /\ ipubsub.Get r (results w'')
                  = Some ("", Some (ErrPublishingPaused "k"))
               /\ Scheduler.bundlers <$> scheduler (topic w'')
                  = Some (Scheduler.bundlers s'))
       /\ key_paused "k" (topic (snd (@ResumePublish "k" w'))) = false.
Proof.
  intros E w w'. split; [vm_compute; reflexivity|].
  split; [vm_compute; reflexivity|].
  apply (@C3_paused_key_rejects_until_resume E w "k" Sample.later_ops);
    vm_compute; reflexivity.
Defined.

(** ** Every dispatched bundle is fresh

    The theorems about one bundle assume that its handles are distinct
    and pending.  This part shows that a publisher keeps its buffered
    messages that way through every operation, and that each bundle a
    worker or a flush hands to [publishMessageBundle] is fresh when its
    turn comes. *)

Lemma touches_refl X w : touches_only X w w.
Proof. split; auto. Qed.

Lemma touches_trans X w1 w2 w3 :
  touches_only X w1 w2 -> touches_only X w2 w3 -> touches_only X w1 w3.
Proof.
  intros [Hb1 Hr1] [Hb2 Hr2]. split; [congruence|].
  intros r Hr. rewrite Hr2, Hr1; auto.
Qed.

Lemma touches_mono X Y w w' :
  (forall r, r ∈ X -> r ∈ Y) -> touches_only X w w' -> touches_only Y w w'.
Proof. intros Hsub [Hb Hr]. split; [exact Hb|]. intros r Hn. apply Hr. auto. Qed.

Section Within.

Variable X : list nat.

Lemma within_ret {A} (a : A) : within X (mret a).
Proof. intros w. apply touches_refl. Qed.

Lemma within_panic {A} why : within X (@panic A why).
Proof. intros w. apply touches_refl. Qed.

Lemma within_bind {A B} (m : M A) (f : A -> M B) :
  within X m -> (forall a, within X (f a)) -> within X (m ≫= f).
Proof.
  intros Hm Hf w. rewrite bind_state. specialize (Hm w).
  destruct (fst (m w)); auto. eapply touches_trans; [exact Hm | apply Hf].
Qed.

Lemma within_log e : within X (log e).
Proof. intros w. split; auto. Qed.

Lemma within_topicOp {A} (f : Publisher -> outcome A * Publisher) :
  (forall t, buffers (snd (f t)) = buffers t) -> within X (topicOp f).
Proof. intros Hf w. split; [apply Hf | auto]. Qed.

Lemma within_schedulerOp {A} (f : PublishScheduler -> A * PublishScheduler) :
  (forall s, Scheduler.bundlers (snd (f s)) = Scheduler.bundlers s) ->
  within X (schedulerOp f).
Proof.
  intros Hf. apply within_topicOp. intros t. unfold buffers.
  destruct (scheduler t) as [s|] eqn:Es; simpl; [apply Hf | rewrite Es; reflexivity].
Qed.

Lemma within_SetPublishResult r sid e :
  r ∈ X -> within X (SetPublishResult r sid e).
Proof.
  intros Hr. apply within_bind; [apply within_log|]. intros _ w.
  unfold write_result, ipubsub.SetPublishResult.
  destruct (results w !! r) as [p|]; [|apply touches_refl].
  destruct (ipubsub.ready p); [apply touches_refl|].
  split; [reflexivity|]. intros r' Hr'. simpl.
  apply lookup_insert_ne. intros ->. contradiction.
Qed.

Lemma within_release size : within X (flowController_release size).
Proof.
  apply within_bind; [apply within_log|]. intros _.
  apply within_topicOp. reflexivity.
Qed.

Lemma within_Pause k : within X (scheduler_Pause k).
Proof.
  apply within_bind; [apply within_log|]. intros _.
  apply within_schedulerOp. intros s. simpl. unfold Scheduler.Pause.
  case_decide; reflexivity.
Qed.

Lemma within_for_each {A} (f : A -> M unit) (l : list A) :
  (forall x, x ∈ l -> within X (f x)) -> within X (for_each f l).
Proof.
  induction l as [|x l IH]; intros Hf; simpl.
  - apply within_ret.
  - apply within_bind; [apply Hf; left|]. intros _. apply IH.
    intros y Hy. apply Hf. right. exact Hy.
Qed.

End Within.

Lemma within_mono X Y {A} (m : M A) :
  (forall r, r ∈ X -> r ∈ Y) -> within X m -> within Y m.
Proof. intros Hsub Hm w. eapply touches_mono; [exact Hsub | apply Hm]. Qed.

Section WithinBundle.

Context `{Env}.

Lemma within_send X ctx k pbs n : within X (send ctx k pbs n).
Proof.
  intros w. destruct (send_effect ctx k pbs n w) as (Ht & Hr & _).
  split; [rewrite Ht; reflexivity | intros; rewrite Hr; reflexivity].
Qed.

Lemma within_distribute res err bms :
  forall i, within (bm_res <$> bms) (distribute res err i bms).
Proof.
  induction bms as [|bm rest IH]; intros i; cbn [distribute].
  - apply within_ret.
  - apply within_bind; [apply within_release|]. intros _.
    apply within_bind.
    + unfold resolve_at.
      assert (Hin : bm_res bm ∈ bm_res <$> bm :: rest) by (rewrite fmap_cons; left).
      destruct err; [apply within_SetPublishResult, Hin|].
      destruct res as [rs|]; [|apply within_panic].
      destruct (MessageIds rs !! i);
        [apply within_SetPublishResult, Hin | apply within_panic].
    + intros _. eapply within_mono; [|apply IH].
      intros r Hr. rewrite fmap_cons. right. exact Hr.
Qed.

(** Whatever its outcome, [publishMessageBundle] touches no handle but
    those of its bundle and leaves the partitions alone. *)
Lemma within_publishMessageBundle ctx bms :
  within (bm_res <$> bms) (publishMessageBundle ctx bms).
Proof.
  unfold publishMessageBundle. cbv zeta.
  apply within_bind; [apply within_send|]. intros sent.
  apply within_bind; [|intros _; apply within_distribute].
  destruct (sent.2); [apply within_Pause | apply within_ret].
Qed.

End WithinBundle.

(** *** Buffered messages stay well-formed *)

Lemma preserves_bind (I : World -> Prop) {A B} (m : M A) (f : A -> M B) :
  preserves I m -> (forall a, preserves I (f a)) -> preserves I (m ≫= f).
Proof.
  intros Hm Hf w Hw. rewrite bind_state. specialize (Hm w Hw).
  destruct (fst (m w)); auto. apply Hf, Hm.
Qed.

Lemma preserves_ret (I : World -> Prop) {A} (a : A) : preserves I (mret a).
Proof. intros w Hw. exact Hw. Qed.

Lemma pending_not_fresh h r : is_pending h r = true -> r ≠ ipubsub.fresh h.
Proof.
  unfold is_pending. intros Hp ->. rewrite fresh_unused in Hp. discriminate.
Qed.

Lemma handles_of_app l1 l2 : handles_of (l1 ++ l2) = handles_of l1 ++ handles_of l2.
Proof. unfold handles_of. apply fmap_app. Qed.

Lemma buffers_initialised `{Env} t : buffers (initialised t) = buffers t.
Proof.
  unfold initialised. destruct (stopped t || _) eqn:E; [reflexivity|].
  apply orb_false_iff in E as [_ E]. apply bool_decide_eq_false in E.
  unfold buffers at 2. destruct (scheduler t); [exfalso; apply E; discriminate|].
  reflexivity.
Qed.

Lemma buffered_ok_touch X w w' :
  buffered_ok w -> touches_only X w w' ->
  (forall k r, r ∈ handles_of (buffered k (topic w)) -> r ∉ X) ->
  buffered_ok w'.
Proof.
  intros (Hnd & Hkey & Hpen) [Hb Hr] HX. unfold buffered_ok, buffered in *.
  rewrite Hb. split; [exact Hnd|]. split; [exact Hkey|].
  intros k r Hin. unfold is_pending. rewrite Hr by (eapply HX; exact Hin).
  apply (Hpen k r Hin).
Qed.

Lemma buffered_ok_empty w : buffers (topic w) = ∅ -> buffered_ok w.
Proof.
  intros Hb. unfold buffered_ok, buffered. rewrite Hb.
  split; [intros; rewrite lookup_empty; constructor|].
  split; intros *; rewrite lookup_empty; simpl; intros Hin; inversion Hin.
Qed.

(** A new handle, whatever is written to it, disturbs no buffered one. *)
Lemma buffered_ok_new_handle w t' p c' :
  buffered_ok w -> buffers t' = buffers (topic w) ->
  buffered_ok {| topic := t';
                 results := <[ipubsub.fresh (results w) := p]> (results w);
                 calls := c' |}.
Proof.
  intros Hw Hb.
  apply (buffered_ok_touch [ipubsub.fresh (results w)] w); [exact Hw| |].
  - split; [exact Hb|]. intros r Hr. simpl. apply lookup_insert_ne.
    intros <-. apply Hr. left.
  - intros k r Hin Hx. apply list_elem_of_singleton in Hx.
    destruct Hw as (_ & _ & Hpen). apply Hpen in Hin.
    exact (pending_not_fresh _ _ Hin Hx).
Qed.

Lemma Add_rejected_unchanged {Item Handler : Type}
    (s : Scheduler.PublishScheduler Item Handler) k item size e :
  snd (Scheduler.Add k item size s) = Some e ->
  fst (Scheduler.Add k item size s) = s.
Proof.
  unfold Scheduler.Add.
  repeat match goal with |- context [if ?b then _ else _] => destruct b end;
    simpl; [reflexivity.. | discriminate].
Qed.

Lemma Add_accepted_bundlers {Item Handler : Type}
    (s : Scheduler.PublishScheduler Item Handler) k item size :
  snd (Scheduler.Add k item size s) = None ->
  Scheduler.bundlers (fst (Scheduler.Add k item size s))
  = <[k := Scheduler.pending k s ++ [(item, size)]]> (Scheduler.bundlers s).
Proof.
  unfold Scheduler.Add.
  repeat match goal with |- context [if ?b then _ else _] => destruct b end;
    simpl; [discriminate.. | reflexivity].
Qed.

Lemma Pause_bundlers {Item Handler : Type}
    (s : Scheduler.PublishScheduler Item Handler) k :
  Scheduler.bundlers (Scheduler.Pause k s) = Scheduler.bundlers s.
Proof. unfold Scheduler.Pause. case_decide; reflexivity. Qed.

Section BufferedPublish.

Context `{Env}.

(** The flow controller suspends the caller: [Publish] does not return. *)
Lemma Publish_parked ctx msg w :
  ordering_violated (topic w) msg = false ->
  stopped (topic w) = false ->
  FlowControl.acquire ctx (proto_Size (toPb msg))
    (flowController (initialised (topic w))) = FlowControl.Suspended ->
  Publish ctx msg w
  = (Parked,
     {| topic := initialised (topic w);
        results := <[ipubsub.fresh (results w) := ipubsub.pending]> (results w);
        calls := calls w ++ [call_acquire (proto_Size (toPb msg))] |}).
Proof.
  intros Hv Hs Hacq. rewrite Publish_past_ordering by exact Hv. cbv zeta.
  rewrite Hs. rewrite bind_run.
  unfold flowController_acquire, log. rewrite bind_run.
  unfold topicOp at 1. cbn [fst snd topic results calls].
  rewrite Hacq. reflexivity.
Qed.

(** The admitted message joins its partition with a handle that no other
    buffered message has. *)
Lemma buffered_ok_admitted w t' key bm size c' :
  buffered_ok w ->
  bm_res bm = ipubsub.fresh (results w) ->
  buffers t' = <[key := buffered key (topic w) ++ [(bm, size)]]> (buffers (topic w)) ->
  buffered_ok {| topic := t';
                 results := <[ipubsub.fresh (results w) := ipubsub.pending]>
                              (results w);
                 calls := c' |}.
Proof.
  intros (Hnd & Hkey & Hpen) Hres Hb.
  assert (Hfresh : forall k, ipubsub.fresh (results w)
                             ∉ handles_of (buffered k (topic w))).
  { intros k Hin. apply Hpen in Hin. exact (pending_not_fresh _ _ Hin eq_refl). }
  assert (Hbuf : forall k,
    handles_of (buffered k t')
    = if decide (key = k)
      then handles_of (buffered key (topic w)) ++ [ipubsub.fresh (results w)]
      else handles_of (buffered k (topic w))).
  { intros k. unfold buffered at 1. rewrite Hb, lookup_insert.
    case_decide as Hk; simpl; [|reflexivity].
    rewrite handles_of_app. unfold handles_of at 2. simpl. rewrite Hres.
    reflexivity. }
  unfold buffered_ok. cbn [topic results].
  split; [|split].
  - intros k. rewrite Hbuf. case_decide; [|apply Hnd].
    apply NoDup_app. split; [apply Hnd|]. split; [|apply NoDup_singleton].
    intros r Hin Hx. apply list_elem_of_singleton in Hx. subst r.
    exact (Hfresh _ Hin).
  - intros k k' r. rewrite !Hbuf.
    destruct (decide (key = k)) as [<-|Hk], (decide (key = k')) as [<-|Hk'];
      auto; rewrite ?elem_of_app, ?list_elem_of_singleton.
    + intros [Hin | ->] Hin'; [exact (Hkey _ _ _ Hin Hin')|].
      exfalso. exact (Hfresh _ Hin').
    + intros Hin' [Hin | ->]; [exact (Hkey _ _ _ Hin' Hin)|].
      exfalso. exact (Hfresh _ Hin').
    + apply Hkey.
  - intros k r. rewrite Hbuf. unfold is_pending.
    destruct (decide (r = ipubsub.fresh (results w))) as [->|Hr].
    + intros _. rewrite lookup_insert_eq. reflexivity.
    + rewrite lookup_insert_ne by congruence.
      case_decide; [|apply Hpen].
      rewrite elem_of_app, list_elem_of_singleton.
      intros [Hin | ?]; [exact (Hpen _ _ Hin) | contradiction].
Qed.

Lemma buffered_ok_Publish ctx msg : preserves buffered_ok (Publish ctx msg).
Proof.
  intros w Hw.
  destruct (ordering_violated (topic w) msg) eqn:Hv.
  { rewrite Publish_ordering_violated by exact Hv.
    apply buffered_ok_new_handle; auto. }
  destruct (stopped (topic w)) eqn:Hs.
  { rewrite Publish_stopped by assumption.
    apply buffered_ok_new_handle; auto. }
  destruct (initialised_scheduler _ Hs) as [s Hsch].
  assert (Hbs : Scheduler.bundlers s = buffers (topic w)).
  { rewrite <- buffers_initialised. unfold buffers. rewrite Hsch. reflexivity. }
  destruct (FlowControl.acquire ctx (proto_Size (toPb msg))
              (flowController (initialised (topic w)))) as [f|e|] eqn:Hacq.
  - destruct (snd (Scheduler.Add (OrderingKey msg)
                     {| bm_msg := msg; bm_res := ipubsub.fresh (results w);
                        bm_size := proto_Size (toPb msg) |}
                     (proto_Size (toPb msg)) s)) as [e|] eqn:Hadd.
    + rewrite (Publish_Add_rejected ctx msg w s f e) by assumption.
      apply buffered_ok_new_handle; [exact Hw|].
      unfold buffers. cbn [scheduler with_scheduler].
      rewrite Pause_bundlers, (Add_rejected_unchanged _ _ _ _ _ Hadd). exact Hbs.
    + rewrite (Publish_admitted ctx msg w s f) by assumption.
      apply (buffered_ok_admitted w _ (OrderingKey msg)
               {| bm_msg := msg; bm_res := ipubsub.fresh (results w);
                  bm_size := proto_Size (toPb msg) |} (proto_Size (toPb msg)));
        [exact Hw | reflexivity|].
      unfold buffers at 1. cbn [scheduler with_scheduler].
      rewrite (Add_accepted_bundlers _ _ _ _ Hadd).
      unfold Scheduler.pending, buffered. rewrite Hbs. reflexivity.
  - rewrite (Publish_acquire_rejected ctx msg w s e) by assumption.
    apply buffered_ok_new_handle; [exact Hw|].
    unfold buffers. cbn [scheduler with_scheduler].
    rewrite Pause_bundlers. exact Hbs.
  - rewrite Publish_parked by assumption.
    apply buffered_ok_new_handle; [exact Hw|]. apply buffers_initialised.
Qed.

End BufferedPublish.

Lemma within_nil_preserves {A} (m : M A) : within [] m -> preserves buffered_ok m.
Proof.
  intros Hm w Hw. apply (buffered_ok_touch [] w); [exact Hw | apply Hm|].
  intros k r _ Hx. inversion Hx.
Qed.

Lemma handles_of_fst l : handles_of l = bm_res <$> (fst <$> l).
Proof. unfold handles_of. apply list_fmap_compose. Qed.

Lemma buffered_scheduler w s k :
  scheduler (topic w) = Some s -> buffered k (topic w) = Scheduler.pending k s.
Proof. intros Hs. unfold buffered, buffers, Scheduler.pending. rewrite Hs. reflexivity. Qed.

Lemma fresh_bundle_intro h bms :
  NoDup (bm_res <$> bms) ->
  (forall r, r ∈ bm_res <$> bms -> is_pending h r = true) ->
  fresh_bundle h bms = true.
Proof.
  intros Hnd Hp. unfold fresh_bundle. apply andb_true_iff. split.
  - apply bool_decide_eq_true. exact Hnd.
  - apply forallb_forall. intros bm Hin. apply Hp.
    apply list_elem_of_fmap. exists bm. split; [reflexivity|].
    apply list_elem_of_In. exact Hin.
Qed.

Section BufferedDispatch.

Context `{Env}.

(** The bundle a worker is handed is fresh, and what stays buffered is
    well-formed and shares no handle with it. *)
Lemma taken_bundle w s key :
  buffered_ok w ->
  scheduler (topic w) = Some s ->
  fresh_bundle (results w) (Scheduler.next_bundle key s).1 = true
  /\ buffered_ok {| topic := with_scheduler (Scheduler.next_bundle key s).2 (topic w);
                    results := results w; calls := calls w |}
  /\ (forall k r,
        r ∈ handles_of (buffered k (with_scheduler (Scheduler.next_bundle key s).2
                                      (topic w))) ->
        r ∉ bm_res <$> (Scheduler.next_bundle key s).1).
Proof.
  intros (Hnd & Hkey & Hpen) Hs.
  unfold Scheduler.next_bundle. cbn [fst snd].
  pose proof (take_bundle_items s (Scheduler.pending key s) 0 0) as Hitems.
  set (b := (Scheduler.take_bundle s 0 0 (Scheduler.pending key s)).1) in *.
  set (rest := (Scheduler.take_bundle s 0 0 (Scheduler.pending key s)).2) in *.
  assert (Hsplit : handles_of (buffered key (topic w))
                   = (bm_res <$> b) ++ handles_of rest).
  { rewrite (buffered_scheduler _ _ _ Hs), !handles_of_fst, <- Hitems.
    apply fmap_app. }
  pose proof (Hnd key) as Hnd_key. rewrite Hsplit in Hnd_key.
  apply NoDup_app in Hnd_key as (Hnd_b & Hdisj & Hnd_rest).
  assert (Hbuf : forall k,
    buffered k (with_scheduler
                  (Scheduler.with_bundlers (<[key := rest]> (Scheduler.bundlers s)) s)
                  (topic w))
    = if decide (key = k) then rest else buffered k (topic w)).
  { intros k. unfold buffered, buffers. cbn [scheduler with_scheduler].
    cbn [Scheduler.bundlers Scheduler.with_bundlers]. rewrite lookup_insert, Hs.
    case_decide; reflexivity. }
  assert (Hrest : forall r, r ∈ handles_of rest ->
                            r ∈ handles_of (buffered key (topic w))).
  { intros r Hr. rewrite Hsplit. apply elem_of_app. right. exact Hr. }
  assert (Hb : forall r, r ∈ bm_res <$> b ->
                         r ∈ handles_of (buffered key (topic w))).
  { intros r Hr. rewrite Hsplit. apply elem_of_app. left. exact Hr. }
  split; [|split].
  - apply fresh_bundle_intro; [exact Hnd_b|].
    intros r Hr. apply (Hpen key), Hb, Hr.
  - unfold buffered_ok. cbn [topic results]. split; [|split].
    + intros k. rewrite Hbuf. case_decide; [exact Hnd_rest | apply Hnd].
    + intros k k' r. rewrite !Hbuf.
      destruct (decide (key = k)) as [<-|Hk], (decide (key = k')) as [<-|Hk'];
        auto.
      * intros Hr Hr'. apply (Hkey _ _ r); [apply Hrest, Hr | exact Hr'].
      * intros Hr Hr'. apply (Hkey _ _ r); [exact Hr | apply Hrest, Hr'].
      * apply Hkey.
    + intros k r. rewrite Hbuf. case_decide; [|apply Hpen].
      intros Hr. apply (Hpen key), Hrest, Hr.
  - intros k r. rewrite Hbuf. case_decide as Hk.
    + intros Hr Hr'. exact (Hdisj r Hr' Hr).
    + intros Hr Hr'. apply Hk. symmetry.
      apply (Hkey _ _ r); [exact Hr | apply Hb, Hr'].
Qed.

Lemma buffered_ok_worker key : preserves buffered_ok (worker key).
Proof.
  intros w Hw. unfold worker. rewrite bind_state.
  unfold schedulerOp, topicOp. cbn [fst snd].
  destruct (scheduler (topic w)) as [s|] eqn:Hs; cbn [fst snd].
  - destruct (taken_bundle w s key Hw Hs) as (_ & Hok & Hdisj).
    destruct (Scheduler.next_bundle key s).1 as [|bm b] eqn:Hb; [exact Hok|].
    eapply buffered_ok_touch; [exact Hok | apply within_publishMessageBundle|].
    exact Hdisj.
  - destruct Hw as (Hnd & Hkey & Hpen). repeat split; assumption.
Qed.

Lemma within_handler X timeout bundle :
  (forall r, r ∈ bm_res <$> bundle -> r ∈ X) -> within X (handler timeout bundle).
Proof.
  intros Hsub. eapply within_mono; [exact Hsub|].
  apply within_publishMessageBundle.
Qed.

Lemma elem_of_concat {A} (x : A) (ls : list (list A)) :
  x ∈ concat ls <-> exists l, l ∈ ls /\ x ∈ l.
Proof.
  induction ls as [|l ls IH]; simpl.
  - split; [intros Hx; inversion Hx | intros (l & Hl & _); inversion Hl].
  - rewrite elem_of_app, IH. split.
    + intros [Hx | (l' & Hl' & Hx)]; [exists l | exists l']; split; auto;
        [left | right; exact Hl'].
    + intros (l' & Hl' & Hx). apply elem_of_cons in Hl' as [-> | Hl']; eauto.
Qed.

Lemma within_bundles timeout (bundles : list (list bundledMessage)) :
  within (bm_res <$> concat bundles) (for_each (handler timeout) bundles).
Proof.
  apply within_for_each. intros b Hb. apply within_handler.
  intros r Hr. apply list_elem_of_fmap in Hr as (bm & -> & Hbm).
  apply list_elem_of_fmap. exists bm. split; [reflexivity|].
  apply elem_of_concat. eauto.
Qed.

Lemma buffered_ok_scheduler_Flush : preserves buffered_ok scheduler_Flush.
Proof.
  intros w Hw. unfold scheduler_Flush. rewrite bind_state.
  unfold schedulerOp, topicOp. cbn [fst snd].
  destruct (scheduler (topic w)) as [s|] eqn:Hs; cbn [fst snd].
  - apply buffered_ok_empty.
    match goal with |- context [for_each ?h ?bs ?w1] =>
      destruct (within_bundles (Scheduler.handle s) bs w1) as [Hb _]
    end.
    rewrite Hb. reflexivity.
  - destruct Hw as (Hnd & Hkey & Hpen). repeat split; assumption.
Qed.

Lemma buffered_ok_step o : preserves buffered_ok (step o).
Proof.
  destruct o; simpl.
  - apply preserves_bind; [apply buffered_ok_Publish|].
    intros _. apply preserves_ret.
  - unfold Stop. apply preserves_bind.
    + apply within_nil_preserves, within_topicOp. reflexivity.
    + intros [|]; [apply preserves_ret|]. unfold scheduler_FlushAndStop.
      apply preserves_bind; [apply buffered_ok_scheduler_Flush|]. intros _.
      apply within_nil_preserves, within_schedulerOp. reflexivity.
  - unfold Flush. apply preserves_bind.
    + apply within_nil_preserves, within_topicOp. reflexivity.
    + intros t. destruct (_ || _);
        [apply preserves_ret | apply buffered_ok_scheduler_Flush].
  - unfold ResumePublish. apply preserves_bind.
    + apply within_nil_preserves, within_topicOp. reflexivity.
    + intros t. destruct (bool_decide _); [apply preserves_ret|].
      apply within_nil_preserves. unfold scheduler_Resume.
      apply within_bind; [apply within_log|]. intros _.
      apply within_schedulerOp. reflexivity.
  - apply buffered_ok_worker.
Qed.

(** A publisher that starts with nothing buffered keeps its buffered
    messages well-formed, whatever callers and workers do. *)
Lemma buffered_ok_exec ops : forall w,
  buffered_ok w -> buffered_ok (exec ops w).
Proof.
  induction ops as [|o ops IH]; intros w Hw; simpl; [exact Hw|].
  apply IH, buffered_ok_step, Hw.
Qed.

Lemma buffered_ok_newPublisher opts name h c :
  buffered_ok {| topic := newPublisher opts name; results := h; calls := c |}.
Proof. apply buffered_ok_empty. reflexivity. Qed.

End BufferedDispatch.

(** *** The bundles of a flush *)

Section FlushedBundles.

Context `{Env}.

Lemma drain_handles (s : PublishScheduler)
    (L : list (string * list (bundledMessage * Z))) :
  bm_res <$> concat (concat (map (fun kv => Scheduler.bundles_of s (length kv.2) kv.2) L))
  = concat (map (fun kv => handles_of kv.2) L).
Proof.
  induction L as [|kv L IH]; [reflexivity|].
  cbn [map concat]. rewrite concat_app, fmap_app, IH.
  rewrite bundles_of_items by reflexivity. rewrite <- handles_of_fst.
  reflexivity.
Qed.

Lemma NoDup_partitions (L : list (string * list (bundledMessage * Z))) :
  NoDup L.*1 ->
  (forall k l, (k, l) ∈ L -> NoDup (handles_of l)) ->
  (forall k l k' l' r,
     (k, l) ∈ L -> (k', l') ∈ L ->
     r ∈ handles_of l -> r ∈ handles_of l' -> k = k') ->
  NoDup (concat (map (fun kv => handles_of kv.2) L)).
Proof.
  induction L as [|[k l] L IH]; intros Hkeys Hnd Hdisj; [constructor|].
  cbn [map concat snd]. rewrite fmap_cons in Hkeys. cbn [fst] in Hkeys.
  apply NoDup_cons in Hkeys as [Hk Hkeys].
  apply NoDup_app. split; [apply (Hnd k), list_elem_of_here|]. split.
  - intros r Hr Hin. apply elem_of_concat in Hin as (hs & Hhs & Hr').
    apply list_elem_of_In, in_map_iff in Hhs as ([k' l'] & <- & Hin').
    apply list_elem_of_In in Hin'. cbn [snd] in Hr'.
    assert (k = k').
    { apply (Hdisj k l k' l' r); auto; [left | right; exact Hin']. }
    subst k'. apply Hk. apply list_elem_of_fmap. exists (k, l'). auto.
  - apply IH; [exact Hkeys| |].
    + intros k' l' Hin. apply (Hnd k'). right. exact Hin.
    + intros k1 l1 k2 l2 r H1 H2. apply (Hdisj k1 l1 k2 l2 r); right; assumption.
Qed.

(** The handles of all bundles of a flush are distinct and pending. *)
Lemma drained_handles w s :
  buffered_ok w ->
  scheduler (topic w) = Some s ->
  NoDup (bm_res <$> concat (Scheduler.drain s).1)
  /\ forall r, r ∈ bm_res <$> concat (Scheduler.drain s).1 ->
               is_pending (results w) r = true.
Proof.
  intros (Hnd & Hkey & Hpen) Hs. unfold Scheduler.drain. cbn [fst].
  rewrite drain_handles.
  assert (Hpart : forall k l, (k, l) ∈ map_to_list (Scheduler.bundlers s) ->
                              buffered k (topic w) = l).
  { intros k l Hin. apply elem_of_map_to_list in Hin.
    rewrite (buffered_scheduler _ _ _ Hs). unfold Scheduler.pending.
    rewrite Hin. reflexivity. }
  split.
  - apply NoDup_partitions.
    + apply NoDup_fst_map_to_list.
    + intros k l Hin. rewrite <- (Hpart k l Hin). apply Hnd.
    + intros k l k' l' r Hin Hin' Hr Hr'.
      rewrite <- (Hpart k l Hin) in Hr. rewrite <- (Hpart k' l' Hin') in Hr'.
      exact (Hkey _ _ _ Hr Hr').
  - intros r Hr. apply elem_of_concat in Hr as (hs & Hhs & Hr).
    apply list_elem_of_In, in_map_iff in Hhs as ([k l] & <- & Hin).
    apply list_elem_of_In in Hin. cbn [snd] in Hr.
    rewrite <- (Hpart k l Hin) in Hr. exact (Hpen _ _ Hr).
Qed.

(** When the handles of a sequence of bundles are distinct and pending,
    each bundle is fresh in the state the earlier ones leave. *)
Lemma for_each_fresh timeout (pre : list (list bundledMessage)) b post w :
  NoDup (bm_res <$> concat (pre ++ b :: post)) ->
  (forall r, r ∈ bm_res <$> concat (pre ++ b :: post) ->
             is_pending (results w) r = true) ->
  fresh_bundle (results (snd (for_each (handler timeout) pre w))) b = true.
Proof.
  intros Hnd Hpen.
  rewrite concat_app in Hnd, Hpen. cbn [concat] in Hnd, Hpen.
  rewrite !fmap_app in Hnd, Hpen.
  apply NoDup_app in Hnd as (_ & Hdisj & Hnd).
  apply NoDup_app in Hnd as (Hnd_b & _ & _).
  destruct (within_bundles timeout pre w) as [_ Hframe].
  apply fresh_bundle_intro; [exact Hnd_b|].
  intros r Hr. unfold is_pending. rewrite Hframe.
  - apply Hpen. rewrite !elem_of_app. auto.
  - intros Hin. apply (Hdisj r Hin). apply elem_of_app. auto.
Qed.

(** Every bundle of a flush is fresh when its turn comes. *)
Lemma flushed_bundle_fresh w s pre b post :
  buffered_ok w ->
  scheduler (topic w) = Some s ->
  (Scheduler.drain s).1 = pre ++ b :: post ->
  fresh_bundle
    (results (snd (for_each (handler (Scheduler.handle s)) pre
                     {| topic := with_scheduler (Scheduler.drain s).2 (topic w);
                        results := results w; calls := calls w |})))
    b = true.
Proof.
  intros Hw Hs Hsplit.
  destruct (drained_handles w s Hw Hs) as [Hnd Hpen]. rewrite Hsplit in Hnd, Hpen.
  apply (for_each_fresh _ pre b post); assumption.
Qed.

(** The bundle a worker takes is fresh, in every state a publisher
    reaches. *)
Lemma worker_bundle_fresh ops w s key :
  buffered_ok w ->
  scheduler (topic (exec ops w)) = Some s ->
  fresh_bundle (results (exec ops w)) (Scheduler.next_bundle key s).1 = true.
Proof.
  intros Hw Hs.
  apply (taken_bundle (exec ops w) s key); [apply buffered_ok_exec, Hw | exact Hs].
Qed.

End FlushedBundles.

(** ** Names

    [ID] undoes what [PublisherInProject] does to an identifier, and
    panics on a name without a slash only. *)

Lemma prefix_slash c s :
  String.prefix "/" (String c s) = bool_decide (c = "/"%char).
Proof.
  cbn [String.prefix]. destruct (Ascii.ascii_dec "/" c) as [<-|Hne].
  - rewrite bool_decide_eq_true_2 by reflexivity. destruct s; reflexivity.
  - rewrite bool_decide_eq_false_2; [reflexivity|congruence].
Qed.

Lemma LastIndex_range s :
  -1 <= LastIndex s "/" < Z.of_nat (String.length s).
Proof.
  induction s as [|c s IH]; [simpl; lia|].
  cbn [LastIndex String.length]. rewrite prefix_slash.
  destruct (Z.leb_spec 0 (LastIndex s "/")); [lia|].
  case_bool_decide; lia.
Qed.

Lemma LastIndex_app a b :
  LastIndex (a +:+ b) "/"
  = if 0 <=? LastIndex b "/" then Z.of_nat (String.length a) + LastIndex b "/"
    else LastIndex a "/".
Proof.
  induction a as [|c a IH].
  - change ("" +:+ b) with b. cbn [LastIndex String.length String.prefix].
    pose proof (LastIndex_range b).
    destruct (Z.leb_spec 0 (LastIndex b "/")); lia.
  - change (String c a +:+ b) with (String c (a +:+ b)).
    cbn [LastIndex String.length]. rewrite IH, !prefix_slash.
    destruct (Z.leb_spec 0 (LastIndex b "/")).
    + rewrite (proj2 (Z.leb_le 0 _)) by lia. lia.
    + reflexivity.
Qed.

Lemma LastIndex_slash_cons s :
  LastIndex (String "/" s) "/" = LastIndex s "/" + 1.
Proof.
  cbn [LastIndex]. rewrite prefix_slash, bool_decide_eq_true_2 by reflexivity.
  pose proof (LastIndex_range s).
  destruct (Z.leb_spec 0 (LastIndex s "/")); lia.
Qed.

Lemma string_drop_app a b n :
  string_drop (String.length a + n) (a +:+ b) = string_drop n b.
Proof. induction a as [|c a IH]; [reflexivity|exact IH]. Qed.

Lemma string_drop_0 s : string_drop 0 s = s.
Proof. destruct s; reflexivity. Qed.

Lemma length_string_app a b :
  String.length (a +:+ b) = (String.length a + String.length b)%nat.
Proof.
  induction a as [|c a IH]; [reflexivity|].
  change (String c a +:+ b) with (String c (a +:+ b)).
  cbn [String.length]. rewrite IH. reflexivity.
Qed.

Lemma LastIndex_none s :
  LastIndex s "/" = -1 <-> contains_byte "/" s = false.
Proof.
  induction s as [|c s IH]; [simpl; tauto|].
  cbn [LastIndex contains_byte]. rewrite prefix_slash.
  pose proof (LastIndex_range s).
  destruct (Z.leb_spec 0 (LastIndex s "/")).
  - destruct (contains_byte "/" s).
    + rewrite orb_true_r. split; [lia|discriminate].
    + exfalso. destruct IH as [_ IH]. specialize (IH eq_refl). lia.
  - assert (LastIndex s "/" = -1) as Hn by lia.
    rewrite (proj1 IH Hn), orb_false_r.
    case_bool_decide; split; (lia || discriminate || reflexivity).
Qed.

(** A name with a slash splits at its last slash. *)
Lemma LastIndex_split s :
  0 <= LastIndex s "/" ->
  exists p,
    s = p +:+ String "/" (string_drop (Z.to_nat (LastIndex s "/" + 1)) s)
    /\ LastIndex (string_drop (Z.to_nat (LastIndex s "/" + 1)) s) "/" = -1.
Proof.
  induction s as [|c s IH]; [simpl; lia|].
  cbn [LastIndex]. rewrite prefix_slash.
  pose proof (LastIndex_range s).
  destruct (Z.leb_spec 0 (LastIndex s "/")) as [Hlater|Hlater].
  - intros _. destruct (IH Hlater) as (p & Hp & Hn).
    replace (Z.to_nat (LastIndex s "/" + 1 + 1))
      with (S (Z.to_nat (LastIndex s "/" + 1))) by lia.
    cbn [string_drop]. exists (String c p). split; [|exact Hn].
    change (String c p +:+ ?x) with (String c (p +:+ x)). f_equal. exact Hp.
  - case_bool_decide as Hc; [|lia]. intros _. subst c.
    exists "". change (Z.to_nat (0 + 1)) with 1%nat. cbn [string_drop].
    split; [reflexivity|lia].
Qed.

Lemma string_app_assoc a b c : (a +:+ b) +:+ c = a +:+ (b +:+ c).
Proof.
  induction a as [|x a IH]; [reflexivity|].
  change (String x a +:+ ?y) with (String x (a +:+ y)).
  change (String x (a +:+ b) +:+ c) with (String x ((a +:+ b) +:+ c)).
  f_equal. exact IH.
Qed.

Lemma name_PublisherInProject c id projectID :
  name (PublisherInProject c id projectID)
  = ("projects/" +:+ projectID +:+ "/topics") +:+ String "/" id.
Proof.
  unfold PublisherInProject, newPublisher. cbn [name].
  rewrite !string_app_assoc. reflexivity.
Qed.

(** [ID] finds the last slash of the name in the identifier, or just
    before it. *)
Lemma ID_PublisherInProject_run (c : Client) (id project : string) :
  ID (PublisherInProject c id project)
  = Returned (string_drop (Z.to_nat (LastIndex id "/" + 1)) id).
Proof.
  unfold ID. rewrite name_PublisherInProject.
  set (a := "projects/" +:+ project +:+ "/topics").
  pose proof (LastIndex_range id) as Hr.
  assert (Hl : LastIndex (a +:+ String "/" id) "/"
               = Z.of_nat (String.length a) + (LastIndex id "/" + 1)).
  { rewrite LastIndex_app, LastIndex_slash_cons.
    rewrite (proj2 (Z.leb_le 0 _)) by lia. reflexivity. }
  cbv zeta. rewrite Hl.
  rewrite (proj2 (Z.eqb_neq _ _)) by lia.
  unfold slice_from. rewrite length_string_app. cbn [String.length].
  rewrite (proj2 (Z.ltb_ge _ _)) by lia.
  rewrite (proj2 (Z.ltb_ge _ _)) by lia.
  cbn [orb]. f_equal.
  replace (Z.to_nat (Z.of_nat (String.length a) + (LastIndex id "/" + 1) + 1))
    with (String.length a + S (Z.to_nat (LastIndex id "/" + 1)))%nat by lia.
  rewrite string_drop_app. reflexivity.
Qed.

(** X1. [ID] of a publisher made by [PublisherInProject] (and so by
    [Client.Publisher]) never panics: it returns the part of the given
    identifier that follows its last slash, and the whole identifier when
    it has none. *)
Theorem ID_of_PublisherInProject (c : Client) (id project : string) :
  ID (PublisherInProject c id project)
  = Returned (string_drop (Z.to_nat (LastIndex id "/" + 1)) id)
  /\ ID (Client_Publisher c id)
     = Returned (string_drop (Z.to_nat (LastIndex id "/" + 1)) id).
Proof.
  split; [|unfold Client_Publisher]; apply ID_PublisherInProject_run.
Qed.

(** X2. Round trip: for an identifier without a slash, [ID] of the
    publisher that [Client.Publisher] or [Client.PublisherInProject] makes
    for it is that identifier, and [String] is its fully qualified name. *)
Theorem ID_round_trip (c : Client) (id project : string) :
  contains_byte "/" id = false ->
  ID (PublisherInProject c id project) = Returned id
  /\ ID (Client_Publisher c id) = Returned id
  /\ String_ (Client_Publisher c id)
     = "projects/" +:+ projectID c +:+ "/topics/" +:+ id.
Proof.
  intros Hid. apply LastIndex_none in Hid.
  unfold Client_Publisher. rewrite !ID_PublisherInProject_run, Hid.
  change (Z.to_nat (-1 + 1)) with 0%nat.
  rewrite string_drop_0. repeat split; reflexivity.
Qed.

Lemma ID_round_trip_witness :
  contains_byte "/" Sample.topicName = false
  /\ ID (PublisherInProject Sample.client Sample.topicName "other")
     = Returned Sample.topicName
  /\ ID (Client_Publisher Sample.client Sample.topicName)
     = Returned Sample.topicName
  /\ String_ (Client_Publisher Sample.client Sample.topicName)
     = "projects/" +:+ projectID Sample.client +:+ "/topics/" +:+ Sample.topicName.
Proof.
  split; [reflexivity|].
  apply (ID_round_trip Sample.client Sample.topicName "other"). reflexivity.
Defined.

(** X3. On any publisher, [ID] panics with "bad topic name" exactly when
    the name has no slash; otherwise it returns a string without a slash,
    and the name is some prefix, a slash and that string. *)
Theorem ID_decomposes (t : Publisher) :
  match ID t with
  | Returned s =>
      contains_byte "/" (name t) = true
      /\ contains_byte "/" s = false
      /\ exists p, String_ t = p +:+ "/" +:+ s
  | Panicked why =>
      why = "bad topic name" /\ contains_byte "/" (name t) = false
  | Parked => False
  end.
Proof.
  unfold ID, String_. cbv zeta.
  pose proof (LastIndex_range (name t)) as Hr.
  pose proof (LastIndex_none (name t)) as Hn.
  destruct (Z.eqb_spec (LastIndex (name t) "/") (-1)) as [He|He].
  - split; [reflexivity|]. apply Hn, He.
  - unfold slice_from.
    rewrite (proj2 (Z.ltb_ge _ _)) by lia.
    rewrite (proj2 (Z.ltb_ge _ _)) by lia. cbn [orb].
    destruct (LastIndex_split (name t)) as (p & Hp & Hs); [lia|].
    split; [|split].
    + destruct (contains_byte "/" (name t)); [reflexivity|].
      exfalso. apply He, Hn. reflexivity.
    + apply LastIndex_none, Hs.
    + exists p. exact Hp.
Qed.

(** ** Messages of the errors *)

Lemma string_app_inv_head a b c : a +:+ b = a +:+ c -> b = c.
Proof.
  induction a as [|x a IH]; [auto|].
  change (String x a +:+ ?y) with (String x (a +:+ y)).
  intros [= Heq]. auto.
Qed.

Lemma string_app_inv_tail c : forall a b, a +:+ c = b +:+ c -> a = b.
Proof.
  induction a as [|x a IH]; intros [|y b] Heq.
  - reflexivity.
  - apply (f_equal String.length) in Heq.
    change (String y b +:+ c) with (String y (b +:+ c)) in Heq.
    cbn [String.length] in Heq. rewrite !length_string_app in Heq.
    cbn [String.length] in Heq. lia.
  - apply (f_equal String.length) in Heq.
    change (String x a +:+ c) with (String x (a +:+ c)) in Heq.
    cbn [String.length] in Heq. rewrite !length_string_app in Heq.
    cbn [String.length] in Heq. lia.
  - change (String x a +:+ c) with (String x (a +:+ c)) in Heq.
    change (String y b +:+ c) with (String y (b +:+ c)) in Heq.
    injection Heq as -> Heq. f_equal. apply IH, Heq.
Qed.

(** X4. The messages of the three errors that [publisher.go] declares
    tell them apart: two of them with the same message are the same
    error, and for [ErrPublishingPaused] the same ordering key. *)
Theorem Error_injective (e1 e2 : error) (m : string) :
  Error e1 = Some m -> Error e2 = Some m -> e1 = e2.
Proof.
  destruct e1 as [| |k1| | | |?|?], e2 as [| |k2| | | |?|?];
    cbn [Error]; intros H1 H2;
    try discriminate H1; try discriminate H2; try reflexivity;
    injection H1 as <-; injection H2 as Heq;
    try (unfold ErrPublishingPaused_Error in Heq; vm_compute in Heq;
         discriminate Heq).
  unfold ErrPublishingPaused_Error in Heq.
  apply string_app_inv_head, string_app_inv_tail in Heq. congruence.
Qed.

Lemma Error_injective_witness :
  Error (ErrPublishingPaused "k") = Some (ErrPublishingPaused_Error "k")
  /\ ErrPublishingPaused "k" = ErrPublishingPaused "k".
Proof.
  split; [reflexivity|].
  apply (Error_injective (ErrPublishingPaused "k") (ErrPublishingPaused "k")
           (ErrPublishingPaused_Error "k")); reflexivity.
Defined.

(** ** The width of int *)

(** X5. On a target whose [uint] has 32 or 64 bits, [intSize] is that
    width and [maxInt] is the largest [int]: it is [2^(intSize-1) - 1], it
    is an [int], and one more wraps around to the smallest [int]. *)
Theorem maxInt_is_largest `{Env} :
  uint_bits = 32 \/ uint_bits = 64 ->
  intSize = uint_bits
  /\ maxInt = 2 ^ (uint_bits - 1) - 1
  /\ int maxInt = maxInt
  /\ int (maxInt + 1) = - maxInt - 1.
Proof.
  intros [Hw | Hw]; unfold int, maxInt, intSize; rewrite Hw;
    repeat split; reflexivity.
Qed.

Lemma maxInt_is_largest_witness :
  let E := Sample.env Sample.accepting in
  (@uint_bits E = 32 \/ @uint_bits E = 64)
  /\ @intSize E = @uint_bits E
  /\ @maxInt E = 2 ^ (@uint_bits E - 1) - 1
  /\ @int E (@maxInt E) = @maxInt E
  /\ @int E (@maxInt E + 1) = - @maxInt E - 1.
Proof.
  intros E. split; [right; reflexivity|].
  apply (@maxInt_is_largest E). right. reflexivity.
Defined.

(** ** initBundler *)

Lemma initialised_fresh `{Env} t :
  stopped t = false -> scheduler t = None -> initialised t = init t.
Proof.
  intros Hs Hn. unfold initialised. rewrite Hs, Hn.
  rewrite bool_decide_eq_false_2 by auto. reflexivity.
Qed.

Lemma initialised_idem `{Env} t : initialised (initialised t) = initialised t.
Proof.
  destruct (stopped t) eqn:Hs.
  - rewrite !(initialised_of_stopped t Hs). reflexivity.
  - destruct (scheduler t) as [s|] eqn:Hn.
    + rewrite !(initialised_of_scheduler t s Hn). reflexivity.
    + rewrite (initialised_fresh t Hs Hn).
      eapply initialised_of_scheduler. reflexivity.
Qed.

(** X6. [initBundler] is idempotent: once it has run, running it again
    changes nothing, so the scheduler and the flow controller are made at
    most once and settings changed later are not read again. *)
Theorem initBundler_idempotent `{Env} (w : World) :
  initBundler (snd (initBundler w)) = initBundler w.
Proof.
  rewrite !initBundler_run. cbn [snd topic results calls].
  rewrite initialised_idem. reflexivity.
Qed.

Lemma initialised_from_declared `{Env} t :
  initialised_from DefaultPublishSettings t = initialised t.
Proof. reflexivity. Qed.

Lemma initialised_from_fresh `{Env} defaults t :
  stopped t = false -> scheduler t = None ->
  initialised_from defaults t = init_from defaults t.
Proof.
  intros Hs Hn. unfold initialised_from. rewrite Hs, Hn.
  rewrite bool_decide_eq_false_2 by auto. reflexivity.
Qed.



(** X8. When [initBundler] makes the scheduler, whatever value the
    variable [DefaultPublishSettings] holds at that moment: with a
    positive [MaxOutstandingBytes] in the settings, [BufferedByteLimit]
    of the settings is overwritten with [maxInt], which is also the limit
    of the scheduler, and the flow controller gets [MaxOutstandingBytes];
    otherwise the settings are left as they are, the scheduler gets
    [BufferedByteLimit] when it is positive and the default
    [BufferedByteLimit] when not, and the flow controller gets the
    default limit of bytes. *)
Theorem initBundler_MaxOutstandingBytes `{Env}
    (defaults : PublishSettings) (t : Publisher) :
  uint_bits = 32 \/ uint_bits = 64 ->
  stopped t = false -> scheduler t = None ->
  exists s,
    scheduler (initialised_from defaults t) = Some s
    /\ if 0 <? MaxOutstandingBytes (FlowControlSettings_ (t_PublishSettings t))
       then
         BufferedByteLimit (t_PublishSettings (initialised_from defaults t))
         = maxInt
         /\ Scheduler.BufferedByteLimit s = maxInt
         /\ MaxOutstandingBytes
              (FlowControl.settings
                 (flowController (initialised_from defaults t)))
            = MaxOutstandingBytes (FlowControlSettings_ (t_PublishSettings t))
       else
         t_PublishSettings (initialised_from defaults t) = t_PublishSettings t
         /\ Scheduler.BufferedByteLimit s
            = (if 0 <? BufferedByteLimit (t_PublishSettings t)
               then BufferedByteLimit (t_PublishSettings t)
               else BufferedByteLimit defaults)
         /\ MaxOutstandingBytes
              (FlowControl.settings
                 (flowController (initialised_from defaults t)))
            = MaxOutstandingBytes (FlowControlSettings_ defaults).
Proof.
  intros Hw Hs Hn. rewrite (initialised_from_fresh defaults t Hs Hn).
  pose proof (maxInt_large Hw) as Hmax.
  eexists. split; [reflexivity|].
  destruct t as [n ps st sc fc emo opts]. destruct ps as [d c b g to bbl fcs ec cbt].
  cbn [Scheduler.BufferedByteLimit init_from flowController t_PublishSettings
       FlowControl.settings FlowControl.newTopicFlowController
       MaxOutstandingBytes BufferedByteLimit FlowControlSettings_].
  destruct (0 <? MaxOutstandingBytes fcs).
  - rewrite (proj2 (Z.ltb_lt 0 maxInt)) by lia. repeat split.
  - repeat split.
Qed.

Lemma initBundler_MaxOutstandingBytes_witness :
  let E := Sample.env Sample.accepting in
  let t := Sample.byte_limited_publisher in
  let defaults := DefaultPublishSettings in
  (@uint_bits E = 32 \/ @uint_bits E = 64)
  /\ stopped t = false /\ scheduler t = None
  /\ exists s,
       scheduler (@initialised_from E defaults t) = Some s
       /\ if 0 <? MaxOutstandingBytes (FlowControlSettings_ (t_PublishSettings t))
          then
            BufferedByteLimit (t_PublishSettings (@initialised_from E defaults t))
            = @maxInt E
            /\ Scheduler.BufferedByteLimit s = @maxInt E
            /\ MaxOutstandingBytes
                 (FlowControl.settings
                    (flowController (@initialised_from E defaults t)))
               = MaxOutstandingBytes (FlowControlSettings_ (t_PublishSettings t))
          else
            t_PublishSettings (@initialised_from E defaults t)
            = t_PublishSettings t
            /\ Scheduler.BufferedByteLimit s
               = (if 0 <? BufferedByteLimit (t_PublishSettings t)
                  then BufferedByteLimit (t_PublishSettings t)
                  else BufferedByteLimit defaults)
            /\ MaxOutstandingBytes
                 (FlowControl.settings
                    (flowController (@initialised_from E defaults t)))
               = MaxOutstandingBytes (FlowControlSettings_ defaults).
Proof.
  intros E t defaults. split; [right; reflexivity|]. split; [reflexivity|].
  split; [reflexivity|].
  apply (@initBundler_MaxOutstandingBytes E defaults t); [right| |]; reflexivity.
Defined.

(** ** Stop, Flush and ResumePublish on a publisher that is idle or
    stopped *)

Lemma Stop_without_scheduler `{Env} (w : World) :
  scheduler (topic w) = None ->
  Stop w
  = (Returned tt,
     {| topic := with_stopped true (topic w);
        results := results w; calls := calls w |}).
Proof.
  intros Hn. unfold Stop, topicOp. rewrite bind_run. cbn [fst snd].
  rewrite Hn, bool_decide_eq_true_2, orb_true_r by reflexivity. reflexivity.
Qed.

(** X9. On a publisher that has no scheduler yet (no [Publish] got past
    its checks), [Flush] and [ResumePublish] return and change nothing,
    and [Stop] returns having set the stopped flag only: none of them
    touches the missing scheduler or calls a collaborator. *)
Theorem operations_without_scheduler `{Env} (w : World) (orderingKey : string) :
  scheduler (topic w) = None ->
  Flush w = (Returned tt, w)
  /\ ResumePublish orderingKey w = (Returned tt, w)
  /\ Stop w
     = (Returned tt,
        {| topic := with_stopped true (topic w);
           results := results w; calls := calls w |}).
Proof.
  intros Hn. split; [|split].
  - unfold Flush. rewrite (bind_returned _ _ _ _ _ (getTopic_run w)).
    rewrite Hn, bool_decide_eq_true_2, orb_true_r by reflexivity. reflexivity.
  - unfold ResumePublish. rewrite (bind_returned _ _ _ _ _ (getTopic_run w)).
    rewrite Hn, bool_decide_eq_true_2 by reflexivity. reflexivity.
  - apply Stop_without_scheduler, Hn.
Qed.

Lemma operations_without_scheduler_witness :
  let E := Sample.env Sample.accepting in
  let w := Sample.world true in
  scheduler (topic w) = None
  /\ @Flush E w = (Returned tt, w)
  /\ ResumePublish "k" w = (Returned tt, w)
  /\ @Stop E w
     = (Returned tt,
        {| topic := with_stopped true (topic w);
           results := results w; calls := calls w |}).
Proof.
  intros E w. split; [reflexivity|].
  apply (@operations_without_scheduler E w "k"). reflexivity.
Defined.

Lemma Forall_op_allowed_True (ops : list op) :
  Forall (op_allowed (fun _ => True)) ops.
Proof. apply Forall_forall. intros [] _; exact I. Qed.

(** X10. After [Stop], whatever callers and workers do next, [Flush]
    returns at once and changes nothing. *)
Theorem Flush_after_Stop `{Env} (ops : list op) (w : World) :
  Flush (exec ops (snd (Stop w))) = (Returned tt, exec ops (snd (Stop w))).
Proof.
  pose proof (stopped_exec ops _ (Stop_stops w)) as Hs.
  unfold Flush. rewrite (bind_returned _ _ _ _ _ (getTopic_run _)).
  rewrite Hs. reflexivity.
Qed.

(** X11. A publisher stopped before any [Publish] got past its checks
    never gets a scheduler: whatever is called afterwards, [initBundler]
    makes none, so no goroutine is ever started for it. *)
Theorem stopped_before_use_never_starts `{Env} (ops : list op) (w : World) :
  scheduler (topic w) = None ->
  scheduler (topic (exec ops (snd (Stop w)))) = None
  /\ stopped (topic (exec ops (snd (Stop w)))) = true.
Proof.
  intros Hn.
  rewrite (Stop_without_scheduler w Hn).
  cbn [snd].
  pose proof (keeps_exec (fun t => stopped t = true /\ scheduler t = None)
                (fun _ => True)) as K.
  cbv beta in K. destruct (K
    ltac:(intros t f Ht; exact Ht)
    ltac:(intros t s s' [_ Ht] Hs _; congruence)
    ltac:(intros t s k _ [_ Ht] Hs; congruence)
    ltac:(intros t [_ Ht]; split; [reflexivity | exact Ht])
    ltac:(intros t [Ht _] Hf; congruence)
    ops
    {| topic := with_stopped true (topic w);
       results := results w; calls := calls w |}
    (Forall_op_allowed_True ops)
    (conj eq_refl Hn)) as [Hs Hsch].
  split; assumption.
Qed.

Lemma stopped_before_use_never_starts_witness :
  let E := Sample.env Sample.accepting in
  let w := Sample.world true in
  scheduler (topic w) = None
  /\ scheduler (topic (@exec E Sample.later_ops (snd (@Stop E w)))) = None
  /\ stopped (topic (@exec E Sample.later_ops (snd (@Stop E w)))) = true.
Proof.
  intros E w. split; [reflexivity|].
  apply (@stopped_before_use_never_starts E Sample.later_ops w). reflexivity.
Defined.

(** X12. No operation assigns the configuration of a publisher: after
    any sequence of [Publish], [Stop], [Flush], [ResumePublish] and
    dispatches, its name, [EnableMessageOrdering], the options of its
    client and every setting other than [BufferedByteLimit] are what they
    were. *)
Theorem configuration_fixed `{Env} (ops : list op) (w : World) :
  configuration (topic (exec ops w)) = configuration (topic w).
Proof.
  apply (keeps_exec (fun t => configuration t = configuration (topic w))
           (fun _ => True)).
  - intros t f Ht. exact Ht.
  - intros t s s' Ht _ _. exact Ht.
  - intros t s k _ Ht _. exact Ht.
  - intros t Ht. exact Ht.
  - intros t Ht _ _. exact Ht.
  - apply Forall_op_allowed_True.
  - reflexivity.
Qed.

(** ** Publish, whatever way it ends *)

Section PublishOutcomes.

Context `{Env}.

Variable ctx : Context.
Variable msg : Message.
Variable w : World.

(** Every call of [Publish] takes one of the six ways, and this is what it
    does on each: the outcome, the publisher, the handle and the calls. *)
Lemma Publish_paths :
  exists p,
    on_path ctx msg w p
    /\ fst (Publish ctx msg w)
       = match p with
         | path_parked => Parked
         | _ => Returned (ipubsub.fresh (results w))
         end
    /\ topic (snd (Publish ctx msg w))
       = match p with
         | path_ordering | path_stopped => topic w
         | path_parked => initialised (topic w)
         | path_acquire_rejected s _ =>
             with_scheduler (Scheduler.Pause (OrderingKey msg) s)
               (initialised (topic w))
         | path_Add_rejected s f _ =>
             with_scheduler
               (Scheduler.Pause (OrderingKey msg)
                  (fst (Scheduler.Add (OrderingKey msg) (item_of msg w)
                          (proto_Size (toPb msg)) s)))
               (with_flowController f (initialised (topic w)))
         | path_admitted s f =>
             with_scheduler
               (fst (Scheduler.Add (OrderingKey msg) (item_of msg w)
                       (proto_Size (toPb msg)) s))
               (with_flowController f (initialised (topic w)))
         end
    /\ results (snd (Publish ctx msg w))
       = <[ipubsub.fresh (results w) :=
             match error_on p with
             | Some e => ipubsub.resolved "" (Some e)
             | None => ipubsub.pending
             end]> (results w)
    /\ calls (snd (Publish ctx msg w)) = calls w ++ calls_on msg w p.
Proof.
  destruct (ordering_violated (topic w) msg) eqn:Hv.
  { exists path_ordering. split; [exact Hv|].
    rewrite (Publish_ordering_violated ctx msg w Hv). repeat split. }
  destruct (stopped (topic w)) eqn:Hst.
  { exists path_stopped. split; [split; assumption|].
    rewrite (Publish_stopped ctx msg w Hv Hst). repeat split. }
  destruct (initialised_scheduler _ Hst) as [s Hs].
  destruct (FlowControl.acquire ctx (proto_Size (toPb msg))
              (flowController (initialised (topic w)))) as [f|e|] eqn:Hacq.
  - destruct (snd (Scheduler.Add (OrderingKey msg) (item_of msg w)
                     (proto_Size (toPb msg)) s)) as [e|] eqn:Hadd.
    + exists (path_Add_rejected s f e). split; [cbn; auto|].
      rewrite (Publish_Add_rejected ctx msg w s f e Hv Hst Hs Hacq Hadd).
      repeat split.
    + exists (path_admitted s f). split; [cbn; auto|].
      rewrite (Publish_admitted ctx msg w s f Hv Hst Hs Hacq Hadd).
      repeat split.
  - exists (path_acquire_rejected s e). split; [cbn; auto|].
    rewrite (Publish_acquire_rejected ctx msg w s e Hv Hst Hs Hacq).
    repeat split.
  - exists path_parked. split; [cbn; auto|].
    rewrite (Publish_parked ctx msg w Hv Hst Hacq). repeat split.
Qed.

End PublishOutcomes.

(** X13. The handle that [Publish] returns is a new one: the store of
    handles did not hold it before the call, holds it afterwards, and no
    other handle of the store is touched by the call. *)
Theorem Publish_returns_new_handle `{Env}
    (ctx : Context) (msg : Message) (w : World) (r : nat) :
  fst (Publish ctx msg w) = Returned r ->
  results w !! r = None
  /\ is_Some (results (snd (Publish ctx msg w)) !! r)
  /\ delete r (results (snd (Publish ctx msg w))) = results w.
Proof.
  destruct (Publish_paths ctx msg w) as (p & _ & -> & _ & -> & _).
  intros Hr.
  assert (r = ipubsub.fresh (results w)) as ->
    by (destruct p; congruence).
  split; [apply fresh_unused|]. split.
  - rewrite lookup_insert_eq. eauto.
  - apply delete_insert_id, fresh_unused.
Qed.

Lemma Publish_returns_new_handle_witness :
  let E := Sample.env Sample.accepting in
  let w := Sample.world true in
  let r := 0%nat in
  fst (@Publish E Sample.ctx Sample.m0 w) = Returned r
  /\ results w !! r = None
  /\ is_Some (results (snd (@Publish E Sample.ctx Sample.m0 w)) !! r)
  /\ delete r (results (snd (@Publish E Sample.ctx Sample.m0 w))) = results w.
Proof.
  intros E w r. split; [vm_compute; reflexivity|].
  apply (@Publish_returns_new_handle E Sample.ctx Sample.m0 w r).
  vm_compute. reflexivity.
Defined.

(** X14. A handle that [Publish] returns is resolved exactly when the
    message was not admitted.  Either it is pending, and then [Publish]
    called [acquire] and [Add] with the encoded size of the message, [Add]
    got the message with this handle and that size, and neither failed;
    or it is resolved with no identifier and an error: the ordering
    error, the stopped error, or the error of the flow controller or of
    the scheduler.  It is never resolved successfully by [Publish]. *)
Theorem Publish_resolved_unless_admitted `{Env}
    (ctx : Context) (msg : Message) (w : World) (r : nat) :
  fst (Publish ctx msg w) = Returned r ->
  (is_pending (results (snd (Publish ctx msg w))) r = true
   /\ ordering_violated (topic w) msg = false
   /\ stopped (topic w) = false
   /\ admission_error ctx msg w = None
   /\ new_calls w (snd (Publish ctx msg w))
      = [call_acquire (proto_Size (toPb msg));
         call_Add (OrderingKey msg)
           {| bm_msg := msg; bm_res := r; bm_size := proto_Size (toPb msg) |}
           (proto_Size (toPb msg))])
  \/ (exists e,
        ipubsub.Get r (results (snd (Publish ctx msg w))) = Some ("", Some e)
        /\ (ordering_violated (topic w) msg = true
            /\ e = errTopicOrderingNotEnabled
            \/ ordering_violated (topic w) msg = false
               /\ stopped (topic w) = true /\ e = ErrTopicStopped
            \/ ordering_violated (topic w) msg = false
               /\ stopped (topic w) = false
               /\ admission_error ctx msg w = Some e)).
Proof.
  destruct (Publish_paths ctx msg w) as (p & Hp & -> & _ & Hr & Hc).
  unfold new_calls, is_pending, ipubsub.Get. rewrite Hr, Hc, drop_app_length.
  destruct p; cbn in Hp |- *; intros [= <-]; rewrite lookup_insert_eq.
  - right. eexists. split; [reflexivity|]. auto.
  - right. eexists. split; [reflexivity|]. tauto.
  - right. destruct Hp as (Hv & Hs & Hsch & Hacq).
    eexists. split; [reflexivity|]. right. right.
    unfold admission_error. cbv zeta. rewrite Hacq. auto.
  - right. destruct Hp as (Hv & Hs & Hsch & Hacq & Hadd).
    eexists. split; [reflexivity|]. right. right.
    unfold admission_error. cbv zeta. rewrite Hacq, Hsch. auto.
  - left. destruct Hp as (Hv & Hs & Hsch & Hacq & Hadd).
    unfold admission_error. cbv zeta. rewrite Hacq, Hsch. auto.
Qed.

Lemma Publish_resolved_unless_admitted_witness :
  let E := Sample.env Sample.accepting in
  let w := Sample.world true in
  let msg := Sample.m0 in
  let r := 0%nat in
  fst (@Publish E Sample.ctx msg w) = Returned r
  /\ ((is_pending (results (snd (@Publish E Sample.ctx msg w))) r = true
       /\ ordering_violated (topic w) msg = false
       /\ stopped (topic w) = false
       /\ @admission_error E Sample.ctx msg w = None
       /\ new_calls w (snd (@Publish E Sample.ctx msg w))
          = [call_acquire (@proto_Size E (toPb msg));
             call_Add (OrderingKey msg)
               {| bm_msg := msg; bm_res := r;
                  bm_size := @proto_Size E (toPb msg) |}
               (@proto_Size E (toPb msg))])
      \/ (exists e,
            ipubsub.Get r (results (snd (@Publish E Sample.ctx msg w)))
            = Some ("", Some e)
            /\ (ordering_violated (topic w) msg = true
                /\ e = errTopicOrderingNotEnabled
                \/ ordering_violated (topic w) msg = false
                   /\ stopped (topic w) = true /\ e = ErrTopicStopped
                \/ ordering_violated (topic w) msg = false
                   /\ stopped (topic w) = false
                   /\ @admission_error E Sample.ctx msg w = Some e))).
Proof.
  intros E w msg r. split; [vm_compute; reflexivity|].
  apply (@Publish_resolved_unless_admitted E Sample.ctx msg w r).
  vm_compute. reflexivity.
Defined.

(** X15. Whatever way [Publish] ends, what it adds to the log holds no
    [release], no request of the Publish RPC and no [Resume], and at most
    one [acquire] and one [Add]: [Publish] sends nothing itself, gives no
    capacity back and resumes no key. *)
Theorem Publish_calls `{Env} (ctx : Context) (msg : Message) (w : World) :
  let l := new_calls w (snd (Publish ctx msg w)) in
  calls (snd (Publish ctx msg w)) = calls w ++ l
  /\ filter is_release l = []
  /\ filter is_rpc l = []
  /\ filter is_Resume l = []
  /\ (length (filter is_acquire l) <= 1)%nat
  /\ (length (filter is_Add l) <= 1)%nat.
Proof.
  destruct (Publish_paths ctx msg w) as (p & _ & _ & _ & _ & Hc).
  cbv zeta. unfold new_calls. rewrite Hc, drop_app_length.
  destruct p; repeat split; try reflexivity; vm_compute; lia.
Qed.

(** X16. When the flow controller has admitted the message and the
    scheduler then rejects it, [Publish] resolves the handle with the
    error of the scheduler and gives nothing back to the flow controller:
    the publisher keeps the flow controller with the reservation, and the
    rejected message stays counted as outstanding. *)
Theorem Publish_keeps_reservation `{Env}
    (ctx : Context) (msg : Message) (w : World)
    (f : FlowControl.flowController) (e : error) :
  ordering_violated (topic w) msg = false ->
  stopped (topic w) = false ->
  FlowControl.acquire ctx (proto_Size (toPb msg))
    (flowController (initialised (topic w))) = FlowControl.Granted f ->
  admission_error ctx msg w = Some e ->
  fst (Publish ctx msg w) = Returned (ipubsub.fresh (results w))
  /\ ipubsub.Get (ipubsub.fresh (results w)) (results (snd (Publish ctx msg w)))
     = Some ("", Some e)
  /\ flowController (topic (snd (Publish ctx msg w))) = f
  /\ filter is_release (new_calls w (snd (Publish ctx msg w))) = [].
Proof.
  intros Hv Hs Hacq Herr.
  destruct (initialised_scheduler _ Hs) as [s Hsch].
  unfold admission_error in Herr. cbv zeta in Herr.
  rewrite Hacq, Hsch in Herr.
  rewrite (Publish_Add_rejected ctx msg w s f e Hv Hs Hsch Hacq Herr).
  unfold new_calls, ipubsub.Get. cbn [fst snd topic results calls].
  rewrite drop_app_length, lookup_insert_eq. repeat split.
Qed.

Lemma Publish_keeps_reservation_witness :
  let E := Sample.env Sample.accepting in
  let w := @Sample.paused E in
  let msg := Sample.m0 in
  let f := FlowControl.reserve (flowController (topic w))
             (@proto_Size E (toPb msg)) in
  ordering_violated (topic w) msg = false
  /\ stopped (topic w) = false
  /\ FlowControl.acquire Sample.ctx (@proto_Size E (toPb msg))
       (flowController (@initialised E (topic w))) = FlowControl.Granted f
  /\ @admission_error E Sample.ctx msg w = Some (ErrPublishingPaused "k")
  /\ fst (@Publish E Sample.ctx msg w) = Returned (ipubsub.fresh (results w))
  /\ ipubsub.Get (ipubsub.fresh (results w))
       (results (snd (@Publish E Sample.ctx msg w)))
     = Some ("", Some (ErrPublishingPaused "k"))
  /\ flowController (topic (snd (@Publish E Sample.ctx msg w))) = f
  /\ filter is_release (new_calls w (snd (@Publish E Sample.ctx msg w))) = [].
Proof.
  intros E w msg f. split; [reflexivity|]. split; [reflexivity|].
  split; [vm_compute; reflexivity|]. split; [vm_compute; reflexivity|].
  apply (@Publish_keeps_reservation E Sample.ctx msg w f
           (ErrPublishingPaused "k")); vm_compute; reflexivity.
Defined.

(** X17. [Publish] starts the scheduler lazily: after a call, the
    publisher has no scheduler exactly when it had none before and the
    message was turned away by the ordering check or by the stopped
    check.  A message that gets past both leaves a scheduler behind, also
    when the flow controller then rejects it or suspends the caller. *)
Theorem Publish_starts_scheduler `{Env}
    (ctx : Context) (msg : Message) (w : World) :
  scheduler (topic (snd (Publish ctx msg w))) = None
  <-> scheduler (topic w) = None
      /\ (ordering_violated (topic w) msg = true \/ stopped (topic w) = true).
Proof.
  destruct (Publish_paths ctx msg w) as (p & Hp & _ & -> & _ & _).
  destruct p; cbn in Hp |- *.
  - tauto.
  - tauto.
  - destruct Hp as (Hv & Hs & _).
    split; [discriminate|]. intros [_ [? | ?]]; congruence.
  - destruct Hp as (Hv & Hs & _).
    destruct (initialised_scheduler _ Hs) as [s ->].
    split; [discriminate|]. intros [_ [? | ?]]; congruence.
  - destruct Hp as (Hv & Hs & _).
    split; [discriminate|]. intros [_ [? | ?]]; congruence.
  - destruct Hp as (Hv & Hs & _).
    split; [discriminate|]. intros [_ [? | ?]]; congruence.
Qed.

(** ** publishMessageBundle, whatever the bundle *)

Lemma distribute_calls_no_rpc res err bms : forall i,
  filter is_rpc (distribute_calls res err i bms) = [].
Proof.
  induction bms as [|bm rest IH]; intros i; [reflexivity|].
  cbn [distribute_calls].
  rewrite !filter_cons_False by (simpl; auto). apply IH.
Qed.

Lemma distribute_calls_no_Pause res err bms : forall i,
  filter is_Pause (distribute_calls res err i bms) = [].
Proof.
  induction bms as [|bm rest IH]; intros i; [reflexivity|].
  cbn [distribute_calls].
  rewrite !filter_cons_False by (simpl; auto). apply IH.
Qed.

Section BundleAttempts.

Context `{Env}.

(** The pre-send check finds the key paused: nothing is sent. *)
Lemma send_paused ctx k pbs n w :
  k ≠ "" -> key_paused k (topic w) = true ->
  send ctx k pbs n w = (Returned (None, Some (ErrPublishingPaused k)), w).
Proof.
  intros Hk Hp. unfold send. rewrite bind_run.
  rewrite decide_False by exact Hk.
  unfold scheduler_IsPaused, schedulerOp, topicOp, key_paused in *.
  destruct (scheduler (topic w)) as [s|] eqn:Es; [|discriminate].
  cbn [fst snd]. rewrite (with_scheduler_id _ _ Es), World_eta, Hp.
  reflexivity.
Qed.

(** The pre-send check lets the bundle through: one request is sent. *)
Lemma send_sent ctx k pbs n w d :
  k = "" \/ (scheduler (topic w) ≠ None /\ key_paused k (topic w) = false) ->
  resolve_Retry (pubc_CallOptions_Publish (topic w)) = Some d ->
  exists sent,
    send ctx k pbs n w
    = (Returned sent,
       {| topic := topic w; results := results w;
          calls := calls w ++ [call_Publish {| Topic := name (topic w);
                                               Messages := pbs |}
                                            (gaxOpts_of (topic w) d n)] |}).
Proof.
  intros Hk Hd. unfold send. rewrite bind_run.
  assert (Hcheck :
    (if decide (k = "") then mret false else scheduler_IsPaused k) w
    = (Returned false, w)).
  { case_decide as Hd'; [reflexivity|].
    destruct Hk as [Hk | [Hs Hp]]; [contradiction|].
    unfold scheduler_IsPaused, schedulerOp, topicOp, key_paused in *.
    destruct (scheduler (topic w)) as [s|] eqn:Es; [|contradiction].
    cbn [fst snd]. rewrite (with_scheduler_id _ _ Es), World_eta, Hp.
    reflexivity. }
  rewrite Hcheck.
  rewrite (bind_returned _ _ _ _ _ (getTopic_run w)), Hd.
  rewrite bind_run. unfold rpc_Publish, gaxOpts_of.
  destruct (pubc_Publish _ _ _ _); eexists; reflexivity.
Qed.

End BundleAttempts.

(** X18. A bundle whose ordering key is paused is not sent:
    [publishMessageBundle] returns without any request of the Publish
    RPC, every handle of the bundle is resolved with [ErrPublishingPaused]
    for that key, and the capacity of every message is released. *)
Theorem paused_bundle_not_sent `{Env}
    (ctx : Context) (bms : list bundledMessage) (w : World) :
  orderingKey_of bms ≠ "" ->
  key_paused (orderingKey_of bms) (topic w) = true ->
  fresh_bundle (results w) bms = true ->
  fst (publishMessageBundle ctx bms w) = Returned tt
  /\ filter is_rpc (new_calls w (snd (publishMessageBundle ctx bms w))) = []
  /\ (forall bm, bm ∈ bms ->
        ipubsub.Get (bm_res bm) (results (snd (publishMessageBundle ctx bms w)))
        = Some ("", Some (ErrPublishingPaused (orderingKey_of bms))))
  /\ flowController (topic (snd (publishMessageBundle ctx bms w)))
     = released bms (flowController (topic w)).
Proof.
  intros Hk Hp Hf.
  pose proof (send_paused ctx _ (pbMsgs_of bms) (batchSize_of bms) w Hk Hp)
    as Hsend.
  pose proof (publishMessageBundle_run ctx bms w None _ w Hsend Hf eq_refl)
    as Hrun.
  cbv beta iota in Hrun.
  unfold key_paused in Hp.
  destruct (scheduler (topic w)) as [s|] eqn:Es; [|discriminate].
  rewrite (Hrun s eq_refl). cbn [fst snd topic results calls].
  split; [reflexivity|]. split; [|split; [|reflexivity]].
  - unfold new_calls. cbn [calls]. rewrite <- app_assoc, drop_app_length.
    rewrite filter_app, distribute_calls_no_rpc. reflexivity.
  - intros bm Hbm. apply list_elem_of_lookup in Hbm as [j Hj].
    unfold ipubsub.Get.
    rewrite (distribute_results_lookup _ _ bms 0 _ j bm
               (fresh_bundle_NoDup _ _ Hf) Hj).
    reflexivity.
Qed.

Lemma paused_bundle_not_sent_witness :
  let E := Sample.env Sample.accepting in
  let w := @Sample.paused E in
  let bms := Sample.bundle in
  @orderingKey_of E bms ≠ ""
  /\ key_paused (@orderingKey_of E bms) (topic w) = true
  /\ fresh_bundle (results w) bms = true
  /\ fst (@publishMessageBundle E Sample.ctx bms w) = Returned tt
  /\ filter is_rpc (new_calls w (snd (@publishMessageBundle E Sample.ctx bms w)))
     = []
  /\ (forall bm, bm ∈ bms ->
        ipubsub.Get (bm_res bm)
          (results (snd (@publishMessageBundle E Sample.ctx bms w)))
        = Some ("", Some (ErrPublishingPaused (@orderingKey_of E bms))))
  /\ flowController (topic (snd (@publishMessageBundle E Sample.ctx bms w)))
     = released bms (flowController (topic w)).
Proof.
  intros E w bms. split; [vm_compute; discriminate|].
  split; [vm_compute; reflexivity|]. split; [vm_compute; reflexivity|].
  apply (@paused_bundle_not_sent E Sample.ctx bms w);
    [vm_compute; discriminate | vm_compute; reflexivity | vm_compute; reflexivity].
Defined.

(** X19. A bundle that the pre-send check lets through (it has no
    ordering key, or its key is not paused) is sent in exactly one request
    of the Publish RPC, whatever happens afterwards: the request names the
    topic of the publisher and holds the messages of the bundle in their
    order, with the size limit, the publish retryer around the retryer of
    the client, and the compressor when [shouldCompress] says so. *)
Theorem bundle_sent_once `{Env}
    (ctx : Context) (bms : list bundledMessage) (w : World) (d : Retryer) :
  orderingKey_of bms = ""
  \/ (scheduler (topic w) ≠ None
      /\ key_paused (orderingKey_of bms) (topic w) = false) ->
  resolve_Retry (pubc_CallOptions_Publish (topic w)) = Some d ->
  filter is_rpc (new_calls w (snd (publishMessageBundle ctx bms w)))
  = [call_Publish
       {| Topic := name (topic w); Messages := toPb ∘ bm_msg <$> bms |}
       ([MaxCallSendMsgSize maxSendRecvBytes; WithRetry (publishRetryer d)]
        ++ (if shouldCompress (t_PublishSettings (topic w)) (batchSize_of bms)
            then [UseCompressor gzip_Name] else []))].
Proof.
  intros Hk Hd.
  destruct (send_sent ctx _ (pbMsgs_of bms) (batchSize_of bms) w d Hk Hd)
    as [sent Hsend].
  unfold publishMessageBundle. cbv zeta.
  rewrite (bind_returned _ _ _ _ _ Hsend).
  match goal with
  | |- context [snd (?m ?w1)] =>
      assert (Hq : quiet w1 (snd (m w1)))
  end.
  { apply quietly_bind; [|intros _; apply quietly_distribute].
    destruct (sent.2); [apply quietly_Pause | apply quietly_ret]. }
  destruct Hq as (_ & _ & l & Hl & Hnone).
  unfold new_calls. rewrite Hl. cbn [calls].
  rewrite <- !app_assoc, drop_app_length.
  cbn [app]. rewrite filter_cons_True by reflexivity.
  rewrite Hnone, pbMsgs_of_map. reflexivity.
Qed.

Lemma bundle_sent_once_witness :
  let E := Sample.env Sample.accepting in
  let w := @Sample.buffered E in
  let bms := Sample.bundle in
  let d := gaxRetryer "default" in
  (@orderingKey_of E bms = ""
   \/ (scheduler (topic w) ≠ None
       /\ key_paused (@orderingKey_of E bms) (topic w) = false))
  /\ resolve_Retry (pubc_CallOptions_Publish (topic w)) = Some d
  /\ filter is_rpc (new_calls w (snd (@publishMessageBundle E Sample.ctx bms w)))
     = [call_Publish
          {| Topic := name (topic w); Messages := toPb ∘ bm_msg <$> bms |}
          ([MaxCallSendMsgSize (@maxSendRecvBytes E);
            WithRetry (publishRetryer d)]
           ++ (if shouldCompress (t_PublishSettings (topic w))
                    (@batchSize_of E bms)
               then [UseCompressor gzip_Name] else []))].
Proof.
  intros E w bms d.
  assert (Hk : @orderingKey_of E bms = ""
               \/ (scheduler (topic w) ≠ None
                   /\ key_paused (@orderingKey_of E bms) (topic w) = false)).
  { right. split; [vm_compute; discriminate | vm_compute; reflexivity]. }
  split; [exact Hk|]. split; [vm_compute; reflexivity|].
  apply (@bundle_sent_once E Sample.ctx bms w d Hk). vm_compute. reflexivity.
Defined.

(** X20. Whatever its outcome, [publishMessageBundle] is confined to
    its bundle: handles of other messages are not touched, nothing is
    added to or taken from the partitions of the scheduler, and the
    configuration of the publisher is left as it was. *)
Theorem publishMessageBundle_confined `{Env}
    (ctx : Context) (bms : list bundledMessage) (w : World) :
  touches_only (bm_res <$> bms) w (snd (publishMessageBundle ctx bms w))
  /\ configuration (topic (snd (publishMessageBundle ctx bms w)))
     = configuration (topic w).
Proof.
  split; [apply within_publishMessageBundle|].
  pose proof (keeps_publishMessageBundle
                (fun t => configuration t = configuration (topic w))
                (fun _ => True)) as K.
  unfold keeps in K. apply K; try (intros; assumption). reflexivity.
Qed.

(** X21. A bundle whose attempt succeeds pauses nothing:
    [publishMessageBundle] returns, calls [Pause] for no key and leaves
    the scheduler as it was; of the publisher only the flow controller
    changes, by the releases. *)
Theorem successful_bundle_pauses_nothing `{Env}
    (ctx : Context) (bms : list bundledMessage) (w w1 : World)
    (res : option PublishResponse) :
  send ctx (orderingKey_of bms) (pbMsgs_of bms) (batchSize_of bms) w
    = (Returned (res, None), w1) ->
  fresh_bundle (results w) bms = true ->
  answered res None (length bms) = true ->
  fst (publishMessageBundle ctx bms w) = Returned tt
  /\ filter is_Pause (new_calls w (snd (publishMessageBundle ctx bms w))) = []
  /\ topic (snd (publishMessageBundle ctx bms w))
     = with_flowController (released bms (flowController (topic w))) (topic w).
Proof.
  intros Hsend Hf Ha.
  pose proof (publishMessageBundle_run ctx bms w res None w1 Hsend Hf Ha)
    as Hrun.
  cbv beta iota in Hrun. rewrite Hrun. cbn [fst snd topic calls].
  split; [reflexivity|]. split; [|reflexivity].
  destruct (send_effect ctx (orderingKey_of bms) (pbMsgs_of bms)
              (batchSize_of bms) w) as (_ & _ & Hc).
  rewrite Hsend in Hc. cbn [snd] in Hc. unfold new_calls. cbn [calls].
  destruct Hc as [-> | (d & _ & ->)].
  - rewrite drop_app_length. apply distribute_calls_no_Pause.
  - rewrite <- app_assoc, drop_app_length. cbn [app].
    rewrite filter_cons_False by (simpl; auto).
    apply distribute_calls_no_Pause.
Qed.

Lemma successful_bundle_pauses_nothing_witness :
  let E := Sample.env Sample.accepting in
  let w := @Sample.buffered E in
  let bms := Sample.bundle in
  let sent := @send E Sample.ctx (@orderingKey_of E bms) (@pbMsgs_of E bms)
                (@batchSize_of E bms) w in
  let res := Some {| MessageIds := ["0"; "1"] |} in
  sent = (Returned (res, None), snd sent)
  /\ fresh_bundle (results w) bms = true
  /\ answered res None (length bms) = true
  /\ fst (@publishMessageBundle E Sample.ctx bms w) = Returned tt
  /\ filter is_Pause (new_calls w (snd (@publishMessageBundle E Sample.ctx bms w)))
     = []
  /\ topic (snd (@publishMessageBundle E Sample.ctx bms w))
     = with_flowController (released bms (flowController (topic w))) (topic w).
Proof.
  intros E w bms sent res. split; [vm_compute; reflexivity|].
  split; [vm_compute; reflexivity|]. split; [vm_compute; reflexivity|].
  apply (@successful_bundle_pauses_nothing E Sample.ctx bms w (snd sent) res);
    vm_compute; reflexivity.
Defined.

(** X22. The ordering key that [publishMessageBundle] checks before
    sending, and pauses after a failure, is the key of the last message of
    the bundle, whatever the keys of the messages before it, and the
    empty key for an empty bundle. *)
Theorem bundle_key_is_last_key `{Env} (bms : list bundledMessage) :
  orderingKey_of bms = default "" (OrderingKey ∘ bm_msg <$> last bms).
Proof.
  unfold orderingKey_of, encode.
  induction bms as [|bm rest IH] using rev_ind; [reflexivity|].
  rewrite fold_left_app, last_snoc. reflexivity.
Qed.

(** ** The requests of a run *)

Section Steady.

Context `{Env}.

Lemma batchSize_of_batch_size bms :
  batchSize_of bms = batch_size (pbMsgs_of bms).
Proof.
  unfold batchSize_of, pbMsgs_of, encode.
  induction bms as [|bm rest IH] using rev_ind; [reflexivity|].
  rewrite fold_left_app. cbn [fold_left encode_step fst snd].
  unfold batch_size. rewrite fold_left_app. cbn [fold_left].
  f_equal. f_equal. exact IH.
Qed.

Lemma request_ok_config t t' e :
  configuration t' = configuration t -> request_ok t' e -> request_ok t e.
Proof.
  unfold configuration, fixed_settings. intros Hcfg.
  injection Hcfg as Hn _ Ho _ _ _ _ _ _ Hec Hcbt.
  destruct e as [| | | | | |req opts]; try exact id.
  intros (Ht & d & Hd & ->). split; [congruence|].
  exists d. split; [congruence|].
  unfold shouldCompress. rewrite Hec, Hcbt. reflexivity.
Qed.

Lemma request_ok_other t e : is_rpc e = false -> request_ok t e.
Proof. destruct e; intros He; try exact I. discriminate He. Qed.

Lemma steady_refl w : steady w w.
Proof. split; [reflexivity|]. exists []. rewrite app_nil_r. auto. Qed.

Lemma steady_trans w1 w2 w3 : steady w1 w2 -> steady w2 w3 -> steady w1 w3.
Proof.
  intros (Hc1 & l1 & Hl1 & Hf1) (Hc2 & l2 & Hl2 & Hf2).
  split; [congruence|]. exists (l1 ++ l2). split.
  - rewrite Hl2, Hl1, app_assoc. reflexivity.
  - apply Forall_app. split; [exact Hf1|].
    eapply Forall_impl; [exact Hf2|]. intros e. apply request_ok_config, Hc1.
Qed.

Lemma steadily_ret {A} (a : A) : steadily (mret a).
Proof. intros w. apply steady_refl. Qed.

Lemma steadily_panic {A} why : steadily (@panic A why).
Proof. intros w. apply steady_refl. Qed.

Lemma steadily_bind {A B} (m : M A) (f : A -> M B) :
  steadily m -> (forall a, steadily (f a)) -> steadily (m ≫= f).
Proof.
  intros Hm Hf w. rewrite bind_state. specialize (Hm w).
  destruct (fst (m w)); [|exact Hm|exact Hm].
  eapply steady_trans; [exact Hm | apply Hf].
Qed.

Lemma steadily_for_each {A} (f : A -> M unit) (l : list A) :
  (forall a, steadily (f a)) -> steadily (for_each f l).
Proof.
  intros Hf. induction l as [|x l IH]; cbn [for_each].
  - apply steadily_ret.
  - apply steadily_bind; [apply Hf | intros _; exact IH].
Qed.

Lemma steadily_log e : is_rpc e = false -> steadily (log e).
Proof.
  intros He w. split; [reflexivity|]. exists [e]. split; [reflexivity|].
  apply Forall_singleton, request_ok_other, He.
Qed.

Lemma steadily_topicOp {A} (f : Publisher -> outcome A * Publisher) :
  (forall t, configuration (snd (f t)) = configuration t) -> steadily (topicOp f).
Proof.
  intros Hf w. split; [apply Hf|]. exists []. cbn. rewrite app_nil_r. auto.
Qed.

Lemma steadily_schedulerOp {A} (f : PublishScheduler -> A * PublishScheduler) :
  steadily (schedulerOp f).
Proof.
  apply steadily_topicOp. intros t. destruct (scheduler t); reflexivity.
Qed.

Lemma steadily_NewPublishResult : steadily NewPublishResult.
Proof. intros w. split; [reflexivity|]. exists []. cbn. rewrite app_nil_r. auto. Qed.

Lemma steadily_SetPublishResult r sid e : steadily (SetPublishResult r sid e).
Proof.
  apply steadily_bind; [apply steadily_log; reflexivity|]. intros _ w.
  unfold write_result. destruct (ipubsub.SetPublishResult _ _ _ _);
    (split; [reflexivity|]); exists []; cbn; rewrite app_nil_r; auto.
Qed.

Lemma steadily_acquire ctx size : steadily (flowController_acquire ctx size).
Proof.
  apply steadily_bind; [apply steadily_log; reflexivity|]. intros _.
  apply steadily_topicOp. intros t. destruct (FlowControl.acquire _ _ _); reflexivity.
Qed.

Lemma steadily_release size : steadily (flowController_release size).
Proof.
  apply steadily_bind; [apply steadily_log; reflexivity|]. intros _.
  apply steadily_topicOp. reflexivity.
Qed.

Lemma steadily_Pause k : steadily (scheduler_Pause k).
Proof.
  apply steadily_bind; [apply steadily_log; reflexivity|]. intros _.
  apply steadily_schedulerOp.
Qed.

Lemma steadily_Resume k : steadily (scheduler_Resume k).
Proof.
  apply steadily_bind; [apply steadily_log; reflexivity|]. intros _.
  apply steadily_schedulerOp.
Qed.

Lemma steadily_Add k item size : steadily (scheduler_Add k item size).
Proof.
  apply steadily_bind; [apply steadily_log; reflexivity|]. intros _.
  apply steadily_schedulerOp.
Qed.

Lemma steadily_getTopic : steadily getTopic.
Proof. apply steadily_topicOp. reflexivity. Qed.

Lemma steadily_initBundler : steadily initBundler.
Proof.
  apply steadily_topicOp. intros t. cbn [snd]. unfold initialised.
  destruct (_ || _); reflexivity.
Qed.

Lemma steadily_distribute res err bms :
  forall i, steadily (distribute res err i bms).
Proof.
  induction bms as [|bm rest IH]; intros i; cbn [distribute].
  - apply steadily_ret.
  - apply steadily_bind; [apply steadily_release|]. intros _.
    apply steadily_bind; [|intros _; apply IH].
    unfold resolve_at. destruct err; [apply steadily_SetPublishResult|].
    destruct res as [rs|]; [|apply steadily_panic].
    destruct (MessageIds rs !! i);
      [apply steadily_SetPublishResult | apply steadily_panic].
Qed.

(** The attempt sends at most the request that carries the bundle. *)
Lemma steady_send ctx bms w :
  steady w (snd (send ctx (orderingKey_of bms) (pbMsgs_of bms)
                   (batchSize_of bms) w)).
Proof.
  destruct (send_effect ctx (orderingKey_of bms) (pbMsgs_of bms)
              (batchSize_of bms) w) as (Ht & _ & Hc).
  split; [rewrite Ht; reflexivity|].
  destruct Hc as [-> | (d & Hd & ->)].
  - exists []. rewrite app_nil_r. auto.
  - eexists. split; [reflexivity|]. apply Forall_singleton.
    split; [reflexivity|]. exists d. split; [exact Hd|].
    unfold gaxOpts_of. cbn [Messages].
    rewrite batchSize_of_batch_size. reflexivity.
Qed.

Lemma steadily_publishMessageBundle ctx bms :
  steadily (publishMessageBundle ctx bms).
Proof.
  intros w. unfold publishMessageBundle. cbv zeta. rewrite bind_state.
  pose proof (steady_send ctx bms w) as Hs.
  destruct (fst (send _ _ _ _ w)) as [sent| |]; [|exact Hs|exact Hs].
  eapply steady_trans; [exact Hs|].
  apply steadily_bind; [|intros _; apply steadily_distribute].
  destruct (sent.2); [apply steadily_Pause | apply steadily_ret].
Qed.

Lemma steadily_scheduler_Flush : steadily scheduler_Flush.
Proof.
  apply steadily_bind; [apply steadily_schedulerOp|]. intros job.
  apply steadily_for_each. intros b. apply steadily_publishMessageBundle.
Qed.

Lemma steadily_Publish ctx msg : steadily (Publish ctx msg).
Proof.
  unfold Publish.
  apply steadily_bind; [apply steadily_NewPublishResult|]. intros r.
  apply steadily_bind; [apply steadily_getTopic|]. intros t.
  destruct (_ && _).
  { apply steadily_bind; [apply steadily_SetPublishResult|].
    intros _. apply steadily_ret. }
  apply steadily_bind; [apply steadily_initBundler|]. intros _.
  apply steadily_bind; [apply steadily_getTopic|]. intros t'.
  destruct (stopped t').
  { apply steadily_bind; [apply steadily_SetPublishResult|].
    intros _. apply steadily_ret. }
  apply steadily_bind; [apply steadily_acquire|]. intros [e|].
  { apply steadily_bind; [apply steadily_Pause|]. intros _.
    apply steadily_bind; [apply steadily_SetPublishResult|].
    intros _. apply steadily_ret. }
  apply steadily_bind; [apply steadily_Add|]. intros [e|].
  - apply steadily_bind; [|intros _; apply steadily_ret].
    apply steadily_bind; [apply steadily_Pause|]. intros _.
    apply steadily_SetPublishResult.
  - apply steadily_bind; [apply steadily_ret|]. intros _. apply steadily_ret.
Qed.

Lemma steadily_step o : steadily (step o).
Proof.
  destruct o as [ctx msg| | |k|k]; cbn [step].
  - apply steadily_bind; [apply steadily_Publish|]. intros _. apply steadily_ret.
  - unfold Stop. apply steadily_bind.
    + apply steadily_topicOp. reflexivity.
    + intros [|]; [apply steadily_ret|]. unfold scheduler_FlushAndStop.
      apply steadily_bind; [apply steadily_scheduler_Flush|]. intros _.
      apply steadily_schedulerOp.
  - unfold Flush. apply steadily_bind; [apply steadily_getTopic|]. intros t.
    destruct (_ || _); [apply steadily_ret | apply steadily_scheduler_Flush].
  - unfold ResumePublish. apply steadily_bind; [apply steadily_getTopic|].
    intros t. destruct (bool_decide _); [apply steadily_ret | apply steadily_Resume].
  - unfold worker. apply steadily_bind; [apply steadily_schedulerOp|].
    intros job. destruct (job.2); [apply steadily_ret|].
    apply steadily_publishMessageBundle.
Qed.

Lemma steady_exec ops : forall w, steady w (exec ops w).
Proof.
  induction ops as [|o ops IH]; intros w; [apply steady_refl|].
  cbn [exec fold_left]. eapply steady_trans; [apply steadily_step|].
  apply IH.
Qed.

Lemma steady_new_calls w w' :
  steady w w' ->
  calls w' = calls w ++ new_calls w w'
  /\ Forall (request_ok (topic w)) (new_calls w w').
Proof.
  intros (_ & l & Hl & Hf). unfold new_calls.
  rewrite Hl, drop_app_length. auto.
Qed.

End Steady.

(** X23. Every request of the Publish RPC made during a run, by
    dispatches and by [Flush] and [Stop], is addressed and configured for
    this publisher: it names the topic the publisher had at the start,
    and its options are the size limit, the publish retryer around the
    retryer configured on the client, and the gzip compressor exactly
    when [shouldCompress] holds of the start settings and of the batch
    size of the messages that this request carries. *)
Theorem requests_of_a_run `{Env} (ops : list op) (w : World) :
  calls (exec ops w) = calls w ++ new_calls w (exec ops w)
  /\ Forall (request_ok (topic w)) (new_calls w (exec ops w)).
Proof. apply steady_new_calls, steady_exec. Qed.

(** X24. A publisher whose settings have [EnableCompression] false
    never asks for compression: no request made during a run, whatever
    the size of its bundle, carries a compressor. *)
Theorem never_compressed_when_disabled `{Env} (ops : list op) (w : World) :
  EnableCompression (t_PublishSettings (topic w)) = false ->
  filter compressed (new_calls w (exec ops w)) = [].
Proof.
  intros He.
  destruct (steady_new_calls _ _ (steady_exec ops w)) as [_ Hf].
  induction Hf as [|e l Hok _ IH]; [reflexivity|].
  rewrite filter_cons_False; [exact IH|].
  destruct e as [| | | | | |req opts]; try (simpl; auto; fail).
  destruct Hok as (_ & d & _ & ->).
  unfold shouldCompress. rewrite He. simpl. auto.
Qed.

Lemma never_compressed_when_disabled_witness :
  let E := Sample.env Sample.accepting in
  let w := Sample.world true in
  let ops := [op_Publish Sample.ctx Sample.m0; op_Publish Sample.ctx Sample.m1;
              op_Flush] in
  EnableCompression (t_PublishSettings (topic w)) = false
  /\ filter compressed (new_calls w (@exec E ops w)) = [].
Proof.
  intros E w ops. split; [reflexivity|].
  apply (@never_compressed_when_disabled E ops w). reflexivity.
Defined.

(** ** What sets the stopped flag *)

Section StoppedFlag.

Context `{Env}.
Variable b : bool.

Lemma flag_schedulerOp {A} (f : PublishScheduler -> A * PublishScheduler) :
  keeps (stopped_is b) (schedulerOp f).
Proof.
  apply keeps_topicOp. intros t Ht. destruct (scheduler t); exact Ht.
Qed.

Lemma flag_release size : keeps (stopped_is b) (flowController_release size).
Proof.
  apply keeps_bind; [apply keeps_log|]. intros _.
  apply keeps_topicOp. intros t Ht. exact Ht.
Qed.

Lemma flag_acquire ctx size : keeps (stopped_is b) (flowController_acquire ctx size).
Proof.
  apply keeps_bind; [apply keeps_log|]. intros _.
  apply keeps_topicOp. intros t Ht.
  destruct (FlowControl.acquire _ _ _); exact Ht.
Qed.

Lemma flag_Pause k : keeps (stopped_is b) (scheduler_Pause k).
Proof.
  apply keeps_bind; [apply keeps_log|]. intros _. apply flag_schedulerOp.
Qed.

Lemma flag_publishMessageBundle ctx bms :
  keeps (stopped_is b) (publishMessageBundle ctx bms).
Proof.
  unfold publishMessageBundle. cbv zeta. apply keeps_bind.
  - unfold send. apply keeps_bind.
    + case_decide; [apply keeps_ret | apply flag_schedulerOp].
    + intros [|]; [apply keeps_ret|].
      apply keeps_bind; [apply keeps_getTopic|]. intros t.
      destruct (resolve_Retry _); [|apply keeps_panic].
      apply keeps_bind; [intros w Hw; exact Hw|].
      intros [res|e]; apply keeps_ret.
  - intros sent. apply keeps_bind.
    + destruct (sent.2); [apply flag_Pause | apply keeps_ret].
    + intros _. generalize 0%nat.
      induction bms as [|bm rest IH]; intros i; cbn [distribute].
      * apply keeps_ret.
      * apply keeps_bind; [apply flag_release|]. intros _.
        apply keeps_bind; [|intros _; apply IH].
        unfold resolve_at. destruct (sent.2); [apply keeps_SetPublishResult|].
        destruct (sent.1) as [rs|]; [|apply keeps_panic].
        destruct (MessageIds rs !! i);
          [apply keeps_SetPublishResult | apply keeps_panic].
Qed.

Lemma flag_scheduler_Flush : keeps (stopped_is b) scheduler_Flush.
Proof.
  apply keeps_bind; [apply flag_schedulerOp|]. intros job.
  apply keeps_for_each. intros bundle. apply flag_publishMessageBundle.
Qed.

Lemma flag_Publish ctx msg : keeps (stopped_is b) (Publish ctx msg).
Proof.
  unfold Publish.
  apply keeps_bind; [apply keeps_NewPublishResult|]. intros r.
  apply keeps_bind; [apply keeps_getTopic|]. intros t.
  destruct (_ && _).
  { apply keeps_bind; [apply keeps_SetPublishResult|].
    intros _. apply keeps_ret. }
  apply keeps_bind.
  { apply keeps_topicOp. intros t0 Ht. cbn [snd]. unfold stopped_is.
    rewrite initialised_stopped. exact Ht. }
  intros _. apply keeps_bind; [apply keeps_getTopic|]. intros t'.
  destruct (stopped t').
  { apply keeps_bind; [apply keeps_SetPublishResult|].
    intros _. apply keeps_ret. }
  apply keeps_bind; [apply flag_acquire|]. intros [e|].
  { apply keeps_bind; [apply flag_Pause|]. intros _.
    apply keeps_bind; [apply keeps_SetPublishResult|].
    intros _. apply keeps_ret. }
  apply keeps_bind.
  { apply keeps_bind; [apply keeps_log|]. intros _. apply flag_schedulerOp. }
  intros [e|].
  - apply keeps_bind; [|intros _; apply keeps_ret].
    apply keeps_bind; [apply flag_Pause|]. intros _.
    apply keeps_SetPublishResult.
  - apply keeps_bind; [apply keeps_ret|]. intros _. apply keeps_ret.
Qed.

Lemma flag_step o : is_Stop o = false -> keeps (stopped_is b) (step o).
Proof.
  destruct o as [ctx msg| | |k|k]; cbn [step is_Stop]; intros Ho;
    try discriminate Ho.
  - apply keeps_bind; [apply flag_Publish|]. intros _. apply keeps_ret.
  - unfold Flush. apply keeps_bind; [apply keeps_getTopic|]. intros t.
    destruct (_ || _); [apply keeps_ret | apply flag_scheduler_Flush].
  - unfold ResumePublish. apply keeps_bind; [apply keeps_getTopic|].
    intros t. destruct (bool_decide _); [apply keeps_ret|].
    apply keeps_bind; [apply keeps_log|]. intros _. apply flag_schedulerOp.
  - unfold worker. apply keeps_bind; [apply flag_schedulerOp|].
    intros job. destruct (job.2); [apply keeps_ret|].
    apply flag_publishMessageBundle.
Qed.

End StoppedFlag.

(** X25. Only [Stop] stops a publisher, and nothing starts it again:
    after any sequence of operations and dispatches, the publisher is
    stopped exactly when it was stopped before or [Stop] is among them.
    [Flush], [ResumePublish], [Publish] and the handling of bundles leave
    the flag as it is. *)
Theorem stopped_only_by_Stop `{Env} (ops : list op) (w : World) :
  stopped (topic (exec ops w)) = stopped (topic w) || existsb is_Stop ops.
Proof.
  revert w. induction ops as [|o ops IH]; intros w.
  - cbn. rewrite orb_false_r. reflexivity.
  - cbn [exec fold_left existsb]. change (fold_left _ ops ?x) with (exec ops x).
    rewrite IH. destruct (is_Stop o) eqn:Ho.
    + destruct o; try discriminate Ho. cbn [step].
      rewrite Stop_stops, orb_true_r. reflexivity.
    + rewrite (flag_step (stopped (topic w)) o Ho w eq_refl).
      reflexivity.
Qed.

(** X26. [ResumePublish] never fails and is confined to the scheduler:
    it returns, calls [Resume] once for the given key when the publisher
    has a scheduler and nothing when it has none, and changes neither the
    handles, nor the flow controller, nor the stopped flag (it does not
    look at it: a key can be resumed on a stopped publisher), nor the
    configuration. *)
Theorem ResumePublish_confined (w : World) (orderingKey : string) :
  fst (ResumePublish orderingKey w) = Returned tt
  /\ calls (snd (ResumePublish orderingKey w))
     = calls w ++ match scheduler (topic w) with
                  | Some _ => [call_Resume orderingKey]
                  | None => []
                  end
  /\ results (snd (ResumePublish orderingKey w)) = results w
  /\ flowController (topic (snd (ResumePublish orderingKey w)))
     = flowController (topic w)
  /\ stopped (topic (snd (ResumePublish orderingKey w))) = stopped (topic w)
  /\ configuration (topic (snd (ResumePublish orderingKey w)))
     = configuration (topic w).
Proof.
  unfold ResumePublish. rewrite (bind_returned _ _ _ _ _ (getTopic_run w)).
  destruct (scheduler (topic w)) as [s|] eqn:Es.
  - rewrite bool_decide_eq_false_2 by discriminate.
    unfold scheduler_Resume, schedulerOp, topicOp, log. rewrite bind_run.
    cbn [fst snd topic results calls]. rewrite Es. repeat split.
  - rewrite bool_decide_eq_true_2 by reflexivity.
    cbn. rewrite app_nil_r. repeat split.
Qed.
